(** * Ride aggregation and export pipeline: a shallow embedding

    The development follows the TypeScript sources:
    - [src/lib/pdf-utils.ts]   (date helpers, currency formatting, the
      tabulated PDF, the document merge, the CSV);
    - [src/routes/index.tsx]   (the dashboard: the summary memo, the activity
      pager and the batched enrichment of [handleFetchRides], the four
      download handlers);
    - [src/server/uber-api.ts] (the server functions [fetchActivities],
      [getVehicleInfo], [fetchMultipleTripDetails], [fetchReceiptPdf],
      [fetchMultipleReceiptPdfs]).

    JavaScript strings are sequences of UTF-16 code units, JavaScript numbers
    are IEEE binary64 values ([SpecFloat] at precision 53), network calls are
    answered by an explicit [World] and leave events in a trace. *)

From Stdlib Require Import List ZArith NArith Bool Lia String Ascii.
From Stdlib Require Import Permutation.
From Stdlib Require Import Floats.SpecFloat.
Import ListNotations.

Local Open Scope Z_scope.

(* ===================================================================== *)
(** * JavaScript strings *)
(* ===================================================================== *)

(** A JavaScript string: its UTF-16 code units. *)
Definition jsstring := list N.

Definition unit_eqb (a b : N) : bool := N.eqb a b.

Fixpoint jseqb (a b : jsstring) : bool :=
  match a, b with
  | [], [] => true
  | x :: a', y :: b' => unit_eqb x y && jseqb a' b'
  | _, _ => false
  end.

(** Continuation byte of a UTF-8 sequence: its low six bits. *)
Definition cont6 (c : ascii) : N := N.land (N_of_ascii c) 63.

(** Code units of a code point (a surrogate pair above the BMP). *)
Definition units_of_codepoint (cp : N) : jsstring :=
  if (cp <? 65536)%N then [cp]
  else
    let v := (cp - 65536)%N in
    [(55296 + N.shiftr v 10)%N; (56320 + N.land v 1023)%N].

(** String literals of this file are UTF-8 text; [js] gives the code units
    the same literal has in the TypeScript source. *)
Fixpoint js (s : string) : jsstring :=
  match s with
  | EmptyString => []
  | String c rest =>
      let b := N_of_ascii c in
      if (b <? 128)%N then b :: js rest
      else if (b <? 224)%N then
        match rest with
        | String c2 r2 =>
            (N.shiftl (N.land b 31) 6 + cont6 c2)%N :: js r2
        | EmptyString => [b]
        end
      else if (b <? 240)%N then
        match rest with
        | String c2 (String c3 r3) =>
            (N.shiftl (N.land b 15) 12 + N.shiftl (cont6 c2) 6 + cont6 c3)%N
              :: js r3
        | _ => [b]
        end
      else
        match rest with
        | String c2 (String c3 (String c4 r4)) =>
            units_of_codepoint
              (N.shiftl (N.land b 7) 18 + N.shiftl (cont6 c2) 12
               + N.shiftl (cont6 c3) 6 + cont6 c4)%N ++ js r4
        | _ => [b]
        end
  end.

(** JavaScript truthiness of a string: the empty string is falsy. *)
Definition truthy (s : jsstring) : bool :=
  match s with [] => false | _ :: _ => true end.

(** [a || b] on strings. *)
Definition orElse (a b : jsstring) : jsstring := if truthy a then a else b.

Fixpoint startsWith (p s : jsstring) : bool :=
  match p, s with
  | [], _ => true
  | _ :: _, [] => false
  | x :: p', y :: s' => unit_eqb x y && startsWith p' s'
  end.

(** [s.includes(needle)]. *)
Fixpoint includes (s needle : jsstring) : bool :=
  startsWith needle s
  || match s with
     | [] => false
     | _ :: t => includes t needle
     end.

(** [s.replace(pat, rep)] with a string pattern: only the first occurrence
    is replaced. *)
Fixpoint replaceFirst (pat rep s : jsstring) : jsstring :=
  if startsWith pat s then rep ++ skipn (List.length pat) s
  else match s with
       | [] => []
       | c :: t => c :: replaceFirst pat rep t
       end.

(** [s.replace(/pat/g, rep)] for a one-unit pattern: every occurrence. *)
Fixpoint replaceAllUnit (u : N) (rep s : jsstring) : jsstring :=
  match s with
  | [] => []
  | c :: t => (if unit_eqb c u then rep else [c]) ++ replaceAllUnit u rep t
  end.

(** [parts.join(sep)]. *)
Fixpoint join (sep : jsstring) (parts : list jsstring) : jsstring :=
  match parts with
  | [] => []
  | [p] => p
  | p :: rest => p ++ sep ++ join sep rest
  end.

(** [String.prototype.toLowerCase] on one code unit. ASCII capitals are
    lowered; of the code units outside ASCII only U+212A (Kelvin sign) and
    U+0130 (dotted capital I) have a lower-case form that holds an ASCII
    letter, which is all that a search for an ASCII keyword can observe; the
    other units are kept. *)
Definition lowerUnit (c : N) : jsstring :=
  if ((65 <=? c) && (c <=? 90))%N then [(c + 32)%N]
  else if (c =? 8490)%N then [107%N]
  else if (c =? 304)%N then [105%N; 775%N]
  else [c].

Definition toLowerCase (s : jsstring) : jsstring := flat_map lowerUnit s.

Definition isDigit (c : N) : bool := ((48 <=? c) && (c <=? 57))%N.

(** Decimal digits of a natural number, most significant first. *)
Fixpoint digits_of_uint (d : Decimal.uint) : jsstring :=
  match d with
  | Decimal.Nil => []
  | Decimal.D0 r => 48%N :: digits_of_uint r
  | Decimal.D1 r => 49%N :: digits_of_uint r
  | Decimal.D2 r => 50%N :: digits_of_uint r
  | Decimal.D3 r => 51%N :: digits_of_uint r
  | Decimal.D4 r => 52%N :: digits_of_uint r
  | Decimal.D5 r => 53%N :: digits_of_uint r
  | Decimal.D6 r => 54%N :: digits_of_uint r
  | Decimal.D7 r => 55%N :: digits_of_uint r
  | Decimal.D8 r => 56%N :: digits_of_uint r
  | Decimal.D9 r => 57%N :: digits_of_uint r
  end.

Definition decimalOfN (n : N) : jsstring := digits_of_uint (N.to_uint n).

(** Template-literal rendering of an integer such as [Date.now()]. *)
Definition decimalOfZ (z : Z) : jsstring :=
  match z with
  | Z0 => js "0"
  | Zpos p => decimalOfN (Npos p)
  | Zneg p => js "-" ++ decimalOfN (Npos p)
  end.

(* ===================================================================== *)
(** * JavaScript numbers *)
(* ===================================================================== *)

(** A JavaScript number: an IEEE 754 binary64 value. *)
Definition number := spec_float.

Definition prec64 : Z := 53.
Definition emax64 : Z := 1024.

Definition numZero : number := S754_zero false.
Definition numNaN : number := S754_nan.

(** [a + b] on numbers. *)
Definition numAdd (a b : number) : number := SFadd prec64 emax64 a b.

(** The number nearest to [m * 10^e10] (ties to even), for [m >= 0]: the
    Number value of a decimal literal. *)
Definition numOfDecimal (m : Z) (e10 : Z) : number :=
  match m with
  | Zpos pm =>
      match e10 with
      | Zneg pe =>
          SFdiv prec64 emax64 (S754_finite false pm 0)
            (S754_finite false (Pos.pow 10 pe) 0)
      | _ => binary_normalize prec64 emax64 (m * 10 ^ e10) 0 false
      end
  | _ => S754_zero false
  end.

(** Value of a run of decimal digits, read left to right. *)
Definition digitsValue (ds : jsstring) : Z :=
  fold_left (fun acc c => 10 * acc + (Z.of_N c - 48)) ds 0.

(** Longest prefix of units satisfying [p], and the rest. *)
Fixpoint span (p : N -> bool) (s : jsstring) : jsstring * jsstring :=
  match s with
  | [] => ([], [])
  | c :: t =>
      if p c then let '(run, rest) := span p t in (c :: run, rest)
      else ([], s)
  end.

(** White space and line terminators skipped by [parseFloat]. *)
Definition isStrWhiteSpace (c : N) : bool :=
  (((9 <=? c) && (c <=? 13)) || (c =? 32) || (c =? 160) || (c =? 5760)
   || ((8192 <=? c) && (c <=? 8202)) || (c =? 8232) || (c =? 8233)
   || (c =? 8239) || (c =? 8287) || (c =? 12288) || (c =? 65279))%N.

(** Exponent part [e[+-]digits] of a decimal literal: its value when the
    text starts with a well-formed one, 0 otherwise. *)
Definition exponentPart (s : jsstring) : Z :=
  match s with
  | c :: t =>
      if ((c =? 101) || (c =? 69))%N then
        match t with
        | sg :: t' =>
            if (sg =? 45)%N then
              match fst (span isDigit t') with
              | [] => 0
              | ds => - digitsValue ds
              end
            else if (sg =? 43)%N then digitsValue (fst (span isDigit t'))
            else digitsValue (fst (span isDigit t))
        | [] => 0
        end
      else 0
  | [] => 0
  end.

(** Unsigned part of [parseFloat]: [Infinity], or the longest prefix that is
    a decimal literal ([digits], [digits.], [digits.digits], [.digits], each
    with an optional exponent); [NaN] when there is none. *)
Definition parseUnsigned (s : jsstring) : number :=
  if startsWith (js "Infinity") s then S754_infinity false
  else
    let '(ip, r1) := span isDigit s in
    match r1 with
    | 46%N :: r2 =>
        let '(fp, r3) := span isDigit r2 in
        match ip, fp with
        | [], [] => numNaN
        | _, _ =>
            numOfDecimal (digitsValue (ip ++ fp))
              (exponentPart r3 - Z.of_nat (List.length fp))
        end
    | _ =>
        match ip with
        | [] => numNaN
        | _ => numOfDecimal (digitsValue ip) (exponentPart r1)
        end
    end.

(** [Number.parseFloat(s)]. *)
Definition parseFloat (s : jsstring) : number :=
  match snd (span isStrWhiteSpace s) with
  | 45%N :: t => SFopp (parseUnsigned t)
  | 43%N :: t => parseUnsigned t
  | t => parseUnsigned t
  end.

(** [n] written with exactly two digits after the point. *)
Definition fixed2OfN (n : N) : jsstring :=
  let ds := decimalOfN n in
  let ds := repeat 48%N (3 - List.length ds) ++ ds in
  let k := (List.length ds - 2)%nat in
  firstn k ds ++ js "." ++ skipn k ds.

(** The integer [n] for which [n / 100 - m * 2^e] is closest to zero, the
    larger one on a tie (step 8 of Number.prototype.toFixed). *)
Definition hundredths (m : positive) (e : Z) : N :=
  match e with
  | Zneg pe =>
      Z.to_N ((200 * Zpos m + 2 ^ Zpos pe) / 2 ^ (Zpos pe + 1))
  | _ => Z.to_N (100 * Zpos m * 2 ^ e)
  end.

(** The decimal [s * 10^e10] denotes [x]: [x] is its Number value. *)
Definition denotes (x : number) (s e10 : Z) : bool :=
  match SFcompare (numOfDecimal s e10) x with
  | Some Eq => true
  | _ => false
  end.

(** Number::toString, step 5, for an integer [v] of [n] digits that is the
    exact value of [x]: the least [k], and [s] of [k] digits, with
    [s * 10^(n-k)] denoting [x]; of two such [s] the one nearer to [v], the
    even one on a tie. The result is [s] and the number of digits of the
    value it stands for. Seventeen digits always suffice. *)
Fixpoint shortestDigits (turns : nat) (x : number) (v n k : Z) : Z * Z :=
  match turns with
  | O => (v, n)
  | S turns' =>
      let p := 10 ^ (n - k) in
      let lo := v / p in
      let hi := lo + 1 in
      let up := if hi =? 10 ^ k then (1, n + 1) else (hi, n) in
      match denotes x lo (n - k), denotes x hi (n - k) with
      | true, true =>
          let dLo := v - lo * p in
          let dHi := hi * p - v in
          if dLo <? dHi then (lo, n)
          else if dHi <? dLo then up
          else if Z.even lo then (lo, n) else up
      | true, false => (lo, n)
      | false, true => up
      | false, false => shortestDigits turns' x v n (k + 1)
      end
  end.

(** Number::toString for an integer value [v >= 10^21] of [x]: exponent
    notation, [d.ddde+NN]. *)
Definition exponentNotation (x : number) (v : Z) : jsstring :=
  let n := Z.of_nat (List.length (decimalOfZ v)) in
  let '(s, n') := shortestDigits 17 x v n 1 in
  match decimalOfZ s with
  | [] => []
  | d :: [] => d :: js "e+" ++ decimalOfZ (n' - 1)
  | d :: ds => d :: js "." ++ ds ++ js "e+" ++ decimalOfZ (n' - 1)
  end.

(** [x.toFixed(2)]: a value of magnitude 10^21 or more is printed as
    [String(x)]. *)
Definition toFixed2 (x : number) : jsstring :=
  match x with
  | S754_nan => js "NaN"
  | S754_infinity false => js "Infinity"
  | S754_infinity true => js "-Infinity"
  | S754_zero _ => js "0.00"
  | S754_finite sg m e =>
      let v := Zpos m * 2 ^ e in
      let body :=
        if (0 <=? e) && (10 ^ 21 <=? v)
        then exponentNotation (S754_finite false m e) v
        else fixed2OfN (hundredths m e) in
      if sg then
        (* a negative value that rounds to zero prints as "-0.00" *)
        js "-" ++ body
      else body
  end.

(* ===================================================================== *)
(** * Amount and currency parsing (uber-api.ts) *)
(* ===================================================================== *)

Definition RUPEE : N := 8377.   (* U+20B9 *)
Definition DOLLAR : N := 36.
Definition EURO : N := 8364.    (* U+20AC *)
Definition POUND : N := 163.    (* U+00A3 *)
Definition COMMA : N := 44.
Definition DOT : N := 46.

(** The class [[₹$€£]]. *)
Definition isCurrencySymbol (c : N) : bool :=
  unit_eqb c RUPEE || unit_eqb c DOLLAR || unit_eqb c EURO
  || unit_eqb c POUND.

(** The class [[\d,]]. *)
Definition isDigitOrComma (c : N) : bool := isDigit c || unit_eqb c COMMA.

(** The capture group of the amount pattern, matched at the start of [s]:
    one or more of [[\d,]], an optional dot, then any number of digits.
    Every quantifier is greedy and nothing after the first one can fail. *)
Definition matchGroup (s : jsstring) : option jsstring :=
  let '(run, r1) := span isDigitOrComma s in
  match run with
  | [] => None
  | _ =>
      match r1 with
      | c :: r2 =>
          if unit_eqb c DOT then Some (run ++ [c] ++ fst (span isDigit r2))
          else Some (run ++ fst (span isDigit r1))
      | [] => Some run
      end
  end.

(** The amount pattern (an optional [[₹$€£]], then the capture group)
    matched at the start of [s]: the optional symbol is tried first, then
    skipped on backtracking. *)
Definition matchAt (s : jsstring) : option jsstring :=
  match s with
  | c :: t =>
      if isCurrencySymbol c then
        match matchGroup t with
        | Some g => Some g
        | None => matchGroup s
        end
      else matchGroup s
  | [] => None
  end.

(** [text.match(pattern)] for the amount pattern: capture group 1 of the
    leftmost match, [None] when the pattern matches nowhere. *)
Fixpoint amountMatch (text : jsstring) : option jsstring :=
  match matchAt text with
  | Some g => Some g
  | None =>
      match text with
      | [] => None
      | _ :: t => amountMatch t
      end
  end.

(** The conditional that follows the match: group 1 with its first comma
    removed ([replace] with a string pattern) goes to [Number.parseFloat];
    the amount is 0 when there is no match. *)
Definition parseAmount (text : jsstring) : number :=
  match amountMatch text with
  | Some g => parseFloat (replaceFirst (js ",") [] g)
  | None => numZero
  end.

(** The [let currency = "USD"; if (...includes("₹")) ...] chain. *)
Definition detectCurrency (text : jsstring) : jsstring :=
  if includes text (js "₹") then js "INR"
  else if includes text (js "€") then js "EUR"
  else if includes text (js "£") then js "GBP"
  else js "USD".

(* ===================================================================== *)
(** * Vehicle classification (uber-api.ts) *)
(* ===================================================================== *)

Record VehicleInfo := {
  vi_type : jsstring;
  isAuto : bool;
  isBike : bool
}.

(** [getVehicleInfo]: [lower] is the lower-cased label (the empty string
    for a missing one). *)
Definition getVehicleInfo (vehicleType : jsstring) : VehicleInfo :=
  let lower := toLowerCase vehicleType in
  let isBike := includes lower (js "moto") || includes lower (js "bike") in
  let isAuto := includes lower (js "auto") || includes lower (js "tuk") in
  {| vi_type := orElse vehicleType (js "Car");
     isAuto := isAuto || isBike;   (* Both use simple receipt URL *)
     isBike := isBike |}.

(** The coarse category the label stands for: the bike keywords are looked
    at first, then the auto keywords ([getVehicleIcon] in RidesTable.tsx
    has the same chain). *)
Inductive VehicleCategory := Standard | Auto | Bike.

Definition vehicleCategory (vehicleType : jsstring) : VehicleCategory :=
  let lower := toLowerCase vehicleType in
  if includes lower (js "moto") || includes lower (js "bike") then Bike
  else if includes lower (js "auto") || includes lower (js "tuk") then Auto
  else Standard.

(** [fetchActivities] decides the receipt flow from the light image URL. *)
Definition isAutoRideOfImage (light : jsstring) : bool :=
  includes light (js "TukTuk") || includes light (js "Auto")
  || includes light (js "Moto").

(* ===================================================================== *)
(** * Data model (types/uber-api.ts, types/rides.ts) *)
(* ===================================================================== *)

Definition bytes := list N.

Record UberAuthCredentials := {
  cookie : jsstring;
  csrfToken : jsstring
}.

Record ImageURL := {
  light : jsstring;
  dark : jsstring
}.

(** [UberActivity]; [cardURL] and [buttons] are never read. *)
Record UberActivity := {
  act_uuid : jsstring;
  title : jsstring;
  subtitle : jsstring;
  description : jsstring;
  imageURL : ImageURL
}.

Record UberActivitiesResponse := {
  past_activities : list UberActivity;
  past_nextPageToken : option jsstring      (* string | null *)
}.

(** [UberTrip], with the fields the server functions read. *)
Record UberTrip := {
  beginTripTime : jsstring;
  dropoffTime : jsstring;
  driver : jsstring;
  fare : jsstring;
  trip_status : jsstring;
  trip_uuid : jsstring;
  waypoints : list jsstring
}.

Record UberGetTripResponse := {
  trip : UberTrip;
  mapURL : jsstring;
  receipt_vehicleType : jsstring
}.

Record InvoiceFile := { downloadURL : jsstring }.

(** [invoiceFiles.files]; [None] is a missing (null) list. *)
Definition UberInvoiceFilesResponse := option (list InvoiceFile).

Record TransformedRide := {
  rideId : jsstring;
  startTime : jsstring;
  endTime : jsstring;
  startLocation : jsstring;
  endLocation : jsstring;
  totalAmount : number;
  currency : jsstring;
  driverName : jsstring;
  vehicleType : jsstring;
  status : jsstring;
  mapUrl : jsstring;
  isAutoRide : bool
}.

(** [RideData] of types/rides.ts. *)
Record RideData := {
  rd_rideId : jsstring;
  rd_startTime : jsstring;
  rd_endTime : jsstring;
  rd_startLocation : jsstring;
  rd_endLocation : jsstring;
  rd_totalAmount : number;
  rd_currency : jsstring;
  rd_driverName : jsstring;
  rd_vehicleType : jsstring;
  rd_status : jsstring;
  rd_invoiceUrl : jsstring
}.

Record RidesSummary := {
  rs_selectedCount : nat;
  rs_totalAmount : number;
  rs_currency : jsstring;
  rs_rides : list RideData
}.

(** The value of the dashboard's [summary] memo. *)
Record Summary := {
  selectedCount : nat;
  sum_totalAmount : number;
  sum_currency : jsstring;
  rides : list TransformedRide
}.

Record UberCurrentUser := {
  firstName : jsstring;
  lastName : jsstring
}.

(* ===================================================================== *)
(** * Exceptions, the outside world and the trace of effects *)
(* ===================================================================== *)

(** A thrown value: an [Error] object with its message, or anything else. *)
Inductive JsError :=
| ErrorObject (message : jsstring)
| ThrownValue.

(** [error instanceof Error ? error.message : dflt] *)
Definition errorMessage (e : JsError) (dflt : jsstring) : jsstring :=
  match e with
  | ErrorObject m => m
  | ThrownValue => dflt
  end.

Inductive Outcome (A : Type) :=
| Ok (a : A)
| Throw (e : JsError).
Arguments Ok {A} a.
Arguments Throw {A} e.

(** Variables of the Activities query ([buildActivitiesVariables]): a falsy
    token or bound is left out. *)
Record ActivitiesVariables := {
  limit : Z;
  nextPageToken : option jsstring;
  startTimeMs : option Z;
  endTimeMs : option Z
}.

Inductive Request :=
| ReqActivities (vars : ActivitiesVariables)
| ReqGetTrip (tripUUID : jsstring)
| ReqInvoiceFiles (tripUUID : jsstring)
| ReqFetch (url : jsstring).

Inductive Event :=
| EvRequest (r : Request)                        (* a network call *)
| EvConsole (label : jsstring)                   (* console.error / warn *)
| EvDownload (filename mime : jsstring) (data : bytes + jsstring).
                                                 (* downloadBlob *)

(** What the provider and the network answer. [uberGraphQL] throws on a
    transport error, a non-success status or an answer that is not JSON; an
    answer of another shape makes the caller throw when it reads it: both
    are [Throw] here. *)
Record World := {
  getTripAnswer : jsstring -> Outcome UberGetTripResponse;
  invoiceFilesAnswer : jsstring -> Outcome UberInvoiceFilesResponse;
  (** [fetch(url)]: the body of a success answer, the status otherwise,
      or a transport error *)
  fetchAnswer : jsstring -> Outcome (bytes + Z);
  (** time a request takes, in milliseconds *)
  roundTrip : Request -> Z;
  (** which of the pending concurrent tasks completes next *)
  completion : nat -> nat;
  (** [new Date().getFullYear()] on the server *)
  currentYear : Z
}.

Record ST := {
  clock : Z;                         (* Date.now() *)
  ticks : nat;                       (* concurrent tasks completed so far *)
  trace : list Event;                (* effects, oldest first *)
  cachedFontBytes : option bytes     (* pdf-utils.ts module variable *)
}.

(** Computations with effects that may throw. *)
Definition M (A : Type) : Type := ST -> Outcome A * ST.

Definition ret {A} (a : A) : M A := fun st => (Ok a, st).

Definition bind {A B} (m : M A) (k : A -> M B) : M B :=
  fun st =>
    match m st with
    | (Ok a, st') => k a st'
    | (Throw e, st') => (Throw e, st')
    end.

Definition throw {A} (e : JsError) : M A := fun st => (Throw e, st).

(** A call that returns or throws and has no other effect. *)
Definition outcome {A} (o : Outcome A) : M A := fun st => (o, st).

(** [try { m } catch (error) { h error }] *)
Definition tryCatch {A} (m : M A) (h : JsError -> M A) : M A :=
  fun st =>
    match m st with
    | (Ok a, st') => (Ok a, st')
    | (Throw e, st') => h e st'
    end.

Declare Scope js_scope.
Delimit Scope js_scope with js.
Notation "x <- m ;; k" := (bind m (fun x => k))
  (at level 61, m at next level, right associativity) : js_scope.
Notation "m ;;; k" := (bind m (fun _ => k))
  (at level 61, right associativity) : js_scope.
Local Open Scope js_scope.

Definition emit (e : Event) : M unit :=
  fun st =>
    (Ok tt, {| clock := clock st; ticks := ticks st;
               trace := trace st ++ [e];
               cachedFontBytes := cachedFontBytes st |}).

(** [Date.now()] *)
Definition dateNow : M Z := fun st => (Ok (clock st), st).

(** A network call: it is recorded, takes its time, and is answered. *)
Definition request {A} (w : World) (r : Request) (answer : Outcome A)
  : M A :=
  fun st =>
    (answer, {| clock := clock st + roundTrip w r; ticks := ticks st;
                trace := trace st ++ [EvRequest r];
                cachedFontBytes := cachedFontBytes st |}).

Definition consoleLog (label : jsstring) : M unit := emit (EvConsole label).

(** The input validators: [!data.auth?.cookie || !data.auth?.csrfToken]. *)
Definition requireAuth (auth : UberAuthCredentials) : M unit :=
  if truthy (cookie auth) && truthy (csrfToken auth) then ret tt
  else throw (ErrorObject (js "Auth credentials are required")).

(* ===================================================================== *)
(** * Promise.all over mapped async callbacks *)
(* ===================================================================== *)

(** [arr] with slot [i] set to [x]. *)
Fixpoint setNth {X} (i : nat) (x : X) (arr : list X) : list X :=
  match arr, i with
  | [], _ => []
  | _ :: t, O => x :: t
  | y :: t, S i' => y :: setNth i' x t
  end.

Fixpoint removeAt {X} (k : nat) (l : list X) : list X :=
  match l, k with
  | [], _ => []
  | _ :: t, O => t
  | y :: t, S k' => y :: removeAt k' t
  end.

(** The settled values, in slot order. *)
Definition settled {X} (slots : list (option X)) : list X :=
  flat_map (fun o => match o with Some x => [x] | None => [] end) slots.

Definition tick (st : ST) : ST :=
  {| clock := clock st; ticks := S (ticks st); trace := trace st;
     cachedFontBytes := cachedFontBytes st |}.

Section PromiseAll.
Context {A B : Type}.
Variable w : World.
(** an async callback that catches its own errors: it always fulfils *)
Variable task : A -> ST -> B * ST.

(** The pending tasks complete one at a time, in the order the world
    decides; each result goes to the slot of its input position. A task
    is run as a whole at the moment it completes: the requests of two
    tasks are not interleaved. *)
Fixpoint settle (n : nat) (pending : list (nat * A))
  (slots : list (option B)) (st : ST) : list (option B) * ST :=
  match n with
  | O => (slots, st)
  | S n' =>
      let k := Nat.modulo (completion w (ticks st)) (List.length pending) in
      match nth_error pending k with
      | Some (i, a) =>
          let '(b, st') := task a st in
          settle n' (removeAt k pending) (setNth i (Some b) slots) (tick st')
      | None => (slots, st)
      end
  end.

(** The same as a step relation: one pending task is chosen, runs to its
    end and fills its slot. *)
Inductive Settles
  : list (nat * A) -> list (option B) -> ST -> list (option B) * ST -> Prop :=
| Settles_done slots st : Settles [] slots st (slots, st)
| Settles_step pending slots st k i a b st' r :
    nth_error pending k = Some (i, a) ->
    task a st = (b, st') ->
    Settles (removeAt k pending) (setNth i (Some b) slots) (tick st') r ->
    Settles pending slots st r.

(** [await Promise.all(items.map(task))] *)
Definition promiseAll (items : list A) (st : ST) : list B * ST :=
  let n := List.length items in
  let '(slots, st') :=
    settle n (combine (seq 0 n) items) (repeat None n) st in
  (settled slots, st').
End PromiseAll.

(* ===================================================================== *)
(** * Server functions (server/uber-api.ts) *)
(* ===================================================================== *)

Record FetchActivitiesResult := {
  fa_activities : list TransformedRide;
  fa_nextPageToken : option jsstring;
  fa_error : option jsstring
}.

Definition truthyOpt (o : option jsstring) : bool :=
  match o with Some s => truthy s | None => false end.

Definition truthyNum (o : option Z) : option Z :=
  match o with Some 0 => None | _ => o end.

(** [buildActivitiesVariables] *)
Definition buildActivitiesVariables (lim : option Z)
  (token : option jsstring) (startMs endMs : option Z)
  : ActivitiesVariables :=
  {| limit := match lim with Some l => l | None => 50 end;
     nextPageToken := if truthyOpt token then token else None;
     startTimeMs := truthyNum startMs;
     endTimeMs := truthyNum endMs |}.

(** [s.split(sep)] for a separator of at least one unit; [skip] units of a
    separator just found are still to be passed over. *)
Fixpoint splitFrom (sep : jsstring) (skip : nat) (cur s : jsstring)
  : list jsstring :=
  match s with
  | [] => [rev cur]
  | c :: t =>
      match skip with
      | S k => splitFrom sep k cur t
      | O =>
          if startsWith sep s
          then rev cur :: splitFrom sep (List.length sep - 1) [] t
          else splitFrom sep 0 (c :: cur) t
      end
  end.

Definition split (sep s : jsstring) : list jsstring := splitFrom sep 0 [] s.

(** The callback of [activities.map] in [fetchActivities]. *)
Definition transformActivity (w : World) (activity : UberActivity)
  : TransformedRide :=
  let amount := parseAmount (description activity) in
  let currency := detectCurrency (description activity) in
  let subtitleParts := split (js " • ") (subtitle activity) in
  let datePart := hd [] subtitleParts in
  let timePart := orElse (nth 1 subtitleParts []) (js "00:00") in
  let dateStr :=
    datePart ++ js " " ++ decimalOfZ (currentYear w) ++ js " " ++ timePart in
  let isAutoRide := isAutoRideOfImage (light (imageURL activity)) in
  {| rideId := act_uuid activity;
     startTime := dateStr;
     endTime := [];
     startLocation := title activity;
     endLocation := [];
     totalAmount := amount;
     currency := currency;
     driverName := [];
     vehicleType := if isAutoRide then js "Auto" else js "Car";
     status := js "COMPLETED";
     mapUrl := orElse (dark (imageURL activity)) (light (imageURL activity));
     isAutoRide := isAutoRide |}.

(** [fetchActivities]: [answer] is what the provider answers to this
    request. *)
Definition fetchActivities (w : World) (auth : UberAuthCredentials)
  (lim : option Z) (token : option jsstring) (startMs endMs : option Z)
  (answer : Outcome UberActivitiesResponse) : M FetchActivitiesResult :=
  requireAuth auth ;;;
  tryCatch
    (let variables := buildActivitiesVariables lim token startMs endMs in
     response <- request w (ReqActivities variables) answer ;;
     ret {| fa_activities :=
              map (transformActivity w) (past_activities response);
            fa_nextPageToken := past_nextPageToken response;
            fa_error := None |})
    (fun error =>
       consoleLog (js "Failed to fetch activities:") ;;;
       ret {| fa_activities := [];
              fa_nextPageToken := None;
              fa_error := Some (errorMessage error (js "Unknown error")) |}).

(** The ride built from a GetTrip answer (the same object literal in
    [fetchTripDetails] and in [fetchMultipleTripDetails]). *)
Definition rideOfTrip (response : UberGetTripResponse) : TransformedRide :=
  let t := trip response in
  let vehicleInfo := getVehicleInfo (receipt_vehicleType response) in
  {| rideId := trip_uuid t;
     startTime := beginTripTime t;
     endTime := dropoffTime t;
     startLocation := hd [] (waypoints t);
     endLocation := last (waypoints t) [];
     totalAmount := parseAmount (fare t);
     currency := detectCurrency (fare t);
     driverName := driver t;
     vehicleType := vi_type vehicleInfo;
     status := trip_status t;
     mapUrl := mapURL response;
     isAutoRide := isAuto vehicleInfo |}.

Inductive TripResult :=
| TripSuccess (ride : TransformedRide)
| TripFailure (error : jsstring).

(** The async callback of [data.tripUUIDs.map] in
    [fetchMultipleTripDetails]. *)
Definition tripDetailTask (w : World) (tripUUID : jsstring) (st : ST)
  : TripResult * ST :=
  match request w (ReqGetTrip tripUUID) (getTripAnswer w tripUUID) st with
  | (Ok response, st') => (TripSuccess (rideOfTrip response), st')
  | (Throw error, st') =>
      (TripFailure (js "Failed to fetch " ++ tripUUID ++ js ": "
                    ++ errorMessage error (js "Unknown")), st')
  end.

Record TripDetailsResult := {
  td_rides : list TransformedRide;
  td_errors : list jsstring
}.

(** The [for (const result of results)] loop. *)
Fixpoint collectTripResults (results : list TripResult)
  : TripDetailsResult :=
  match results with
  | [] => {| td_rides := []; td_errors := [] |}
  | TripSuccess ride :: rest =>
      let r := collectTripResults rest in
      {| td_rides := ride :: td_rides r; td_errors := td_errors r |}
  | TripFailure error :: rest =>
      let r := collectTripResults rest in
      {| td_rides := td_rides r; td_errors := error :: td_errors r |}
  end.

(** [fetchMultipleTripDetails] *)
Definition fetchMultipleTripDetails (w : World) (auth : UberAuthCredentials)
  (tripUUIDs : list jsstring) : M TripDetailsResult :=
  requireAuth auth ;;;
  match tripUUIDs with
  | [] => throw (ErrorObject (js "Trip UUIDs are required"))
  | _ =>
      fun st =>
        let '(results, st') := promiseAll w (tripDetailTask w) tripUUIDs st in
        (Ok (collectTripResults results), st')
  end.

(** The direct receipt URL
    [https://riders.uber.com/trips/${tripUUID}/receipt?contentType=PDF&timestamp=${timestamp}] *)
Definition receiptUrl (tripUUID : jsstring) (timestamp : Z) : jsstring :=
  js "https://riders.uber.com/trips/" ++ tripUUID
  ++ js "/receipt?contentType=PDF&timestamp=" ++ decimalOfZ timestamp.

(** The [if (isAutoRide) ... else ...] block that both [fetchReceiptPdf] and
    the callback of [fetchMultipleReceiptPdfs] start with: the value of
    [pdfUrl] after it. [warning] is the label of the [console.warn]. *)
Definition choosePdfUrl (w : World) (warning : jsstring)
  (tripUUID : jsstring) (isAutoRide : bool) : M jsstring :=
  if isAutoRide then
    (* For auto rides, always use direct receipt PDF URL *)
    timestamp <- dateNow ;;
    ret (receiptUrl tripUUID timestamp)
  else
    (* For non-auto (Uber) rides, try invoice first *)
    r <- tryCatch
           (files <- request w (ReqInvoiceFiles tripUUID)
                       (invoiceFilesAnswer w tripUUID) ;;
            match files with
            | None | Some [] =>
                (* No invoice found, fallback to receipt *)
                ret (true, [])
            | Some (file :: _) => ret (false, downloadURL file)
            end)
           (fun invoiceError =>
              (* Invoice fetch failed, fallback to receipt *)
              consoleLog warning ;;;
              ret (true, [])) ;;
    let '(useReceiptFallback, pdfUrl) := r in
    (* Use receipt as fallback for Uber rides *)
    if (useReceiptFallback : bool) then
      timestamp <- dateNow ;;
      ret (receiptUrl tripUUID timestamp)
    else ret pdfUrl.

(** [fetch(pdfUrl, ...)], the [ok] test and the base64 text of the body.
    The base64 text is modelled by the bytes it encodes. *)
Definition downloadPdf (w : World) (pdfUrl : jsstring) : M bytes :=
  pdfResponse <- request w (ReqFetch pdfUrl) (fetchAnswer w pdfUrl) ;;
  match pdfResponse with
  | inl body => ret body
  | inr status =>
      throw (ErrorObject (js "Failed to fetch PDF: " ++ decimalOfZ status))
  end.

Record ReceiptResult := {
  rr_pdfBase64 : option bytes;
  rr_error : option jsstring
}.

(** [fetchReceiptPdf] *)
Definition fetchReceiptPdf (w : World) (auth : UberAuthCredentials)
  (tripUUID : jsstring) (isAutoRide : bool) : M ReceiptResult :=
  requireAuth auth ;;;
  (if truthy tripUUID then ret tt
   else throw (ErrorObject (js "Trip UUID is required"))) ;;;
  tryCatch
    (pdfUrl <- choosePdfUrl w
                 (js "Invoice fetch failed, falling back to receipt:")
                 tripUUID isAutoRide ;;
     base64 <- downloadPdf w pdfUrl ;;
     ret {| rr_pdfBase64 := Some base64; rr_error := None |})
    (fun error =>
       consoleLog (js "Failed to fetch receipt PDF:") ;;;
       ret {| rr_pdfBase64 := None;
              rr_error := Some (errorMessage error (js "Unknown error")) |}).

Record TripRef := {
  tr_tripUUID : jsstring;
  tr_isAutoRide : bool
}.

Record PdfEntry := {
  pe_rideId : jsstring;
  pe_pdfBase64 : option bytes;
  pe_error : option jsstring
}.

(** The async callback of [data.trips.map] in [fetchMultipleReceiptPdfs]. *)
Definition receiptTask (w : World) (t : TripRef) (st : ST) : PdfEntry * ST :=
  let body :=
    pdfUrl <- choosePdfUrl w
                (js "Invoice fetch failed for " ++ tr_tripUUID t
                 ++ js ", falling back to receipt:")
                (tr_tripUUID t) (tr_isAutoRide t) ;;
    base64 <- downloadPdf w pdfUrl ;;
    ret {| pe_rideId := tr_tripUUID t; pe_pdfBase64 := Some base64;
           pe_error := None |} in
  match body st with
  | (Ok entry, st') => (entry, st')
  | (Throw error, st') =>
      ({| pe_rideId := tr_tripUUID t; pe_pdfBase64 := None;
          pe_error := Some (errorMessage error (js "Unknown error")) |}, st')
  end.

(** [fetchMultipleReceiptPdfs] *)
Definition fetchMultipleReceiptPdfs (w : World) (auth : UberAuthCredentials)
  (trips : list TripRef) : M (list PdfEntry) :=
  requireAuth auth ;;;
  match trips with
  | [] => throw (ErrorObject (js "At least one trip is required"))
  | _ =>
      fun st =>
        let '(pdfs, st') := promiseAll w (receiptTask w) trips st in
        (Ok pdfs, st')
  end.

(* ===================================================================== *)
(** * Libraries the exports are built on *)
(* ===================================================================== *)

(** A page of a PDF document. *)
Definition Page := bytes.

(** The content handed to jsPDF for the cover document. *)
Record SummaryDoc := {
  doc_title : jsstring;
  doc_account : option jsstring;
  doc_generated : jsstring;
  doc_head : list jsstring;
  doc_body : list (list jsstring)
}.

(** date-fns, the built-in [Date], jsPDF with autoTable, and pdf-lib. A
    valid date is its time value in milliseconds; [None] is an invalid
    date. jsPDF is given the bytes fetched as the font: it throws when it
    cannot work with them. *)
Record Libs := {
  parseISO : jsstring -> option Z;
  newDate : jsstring -> option Z;
  format : Z -> jsstring -> jsstring;
  toISOString : Z -> jsstring;
  startOfDay : Z -> Z;
  endOfDay : Z -> Z;
  (** the calls on [doc], from [addFileToVFS] with the font bytes to
      [doc.output("arraybuffer")] after the table and the page footers:
      the bytes of the document, or what jsPDF throws *)
  jsPdfOutput : bytes -> SummaryDoc -> Outcome bytes;
  (** [PDFDocument.load] and [copyPages]; [None] when the payload does not
      decode *)
  pdfLoad : bytes -> option (list Page);
  (** [PDFDocument.save] *)
  pdfSave : list Page -> bytes
}.

(* ===================================================================== *)
(** * pdf-utils.ts *)
(* ===================================================================== *)

Section PdfUtils.
Variable L : Libs.
Variable w : World.

Definition fontUrl : jsstring := js "/fonts/GoogleSansFlex.ttf".

(** [loadGoogleSansFont] *)
Definition loadGoogleSansFont : M bytes :=
  fun st =>
    match cachedFontBytes st with
    | Some cached => (Ok cached, st)
    | None =>
        match request w (ReqFetch fontUrl) (fetchAnswer w fontUrl) st with
        | (Ok (inl body), st') =>
            (Ok body, {| clock := clock st'; ticks := ticks st';
                         trace := trace st';
                         cachedFontBytes := Some body |})
        | (Ok (inr _), st') =>
            (Throw (ErrorObject (js "Failed to load Google Sans Flex font")),
             st')
        | (Throw e, st') => (Throw e, st')
        end
    end.

(** [safeParseDate] *)
Definition safeParseDate (dateStr : jsstring) : option Z :=
  if negb (truthy dateStr) then None
  else
    (* Try ISO format first *)
    match parseISO L dateStr with
    | Some isoDate => Some isoDate
    | None =>
        (* Try creating a Date object directly *)
        match newDate L dateStr with
        | Some directDate => Some directDate
        | None => None
        end
    end.

(** [safeFormatDate]; [fallback] is the optional third argument. *)
Definition safeFormatDate (dateStr formatStr : jsstring)
  (fallback : option jsstring) : jsstring :=
  match safeParseDate dateStr with
  | Some date => format L date formatStr
  | None =>
      orElse (match fallback with Some f => f | None => [] end)
             (orElse dateStr (js "N/A"))
  end.

(** [String.prototype.trim] *)
Fixpoint trimStart (s : jsstring) : jsstring :=
  match s with
  | c :: t => if isStrWhiteSpace c then trimStart t else s
  | [] => []
  end.

Definition trim (s : jsstring) : jsstring :=
  rev (trimStart (rev (trimStart s))).

(** [sanitizeText]: printable ASCII (32-126) and extended Latin (160-383)
    are kept. The loop goes by code point and tests the first unit of
    each; a surrogate is never in range, so this is a filter on units. *)
Definition sanitizeText (text : jsstring) : jsstring :=
  trim (filter (fun code =>
                  (((32 <=? code) && (code <=? 126))
                   || ((160 <=? code) && (code <=? 383)))%N) text).

(** [getCurrencySymbol] (the [symbols] table has four own keys; a
    currency text that names a property inherited from [Object.prototype]
    is outside this definition: the rides built by the server functions
    carry one of the four codes). *)
Definition getCurrencySymbol (currency : jsstring) : jsstring :=
  if jseqb currency (js "INR") then js "₹"
  else if jseqb currency (js "USD") then js "$"
  else if jseqb currency (js "EUR") then js "€"
  else if jseqb currency (js "GBP") then js "£"
  else currency ++ js " ".

(** [formatCurrency] *)
Definition formatCurrency (amount : number) (currency : jsstring)
  : jsstring :=
  getCurrencySymbol currency ++ toFixed2 amount.

(** A body row of the table: [index] counts from 0. *)
Definition tableRow (index : nat) (ride : RideData) : list jsstring :=
  [ decimalOfN (N.of_nat (index + 1));
    safeFormatDate (rd_startTime ride) (js "MMM d, yyyy HH:mm") None;
    safeFormatDate (rd_endTime ride) (js "MMM d, yyyy HH:mm")
      (Some (js "N/A"));
    sanitizeText (orElse (rd_driverName ride) (js "N/A"));
    sanitizeText (orElse (rd_vehicleType ride) (js "N/A"));
    sanitizeText (orElse (rd_startLocation ride) (js "N/A"));
    sanitizeText (orElse (rd_endLocation ride) (js "N/A"));
    formatCurrency (rd_totalAmount ride) (rd_currency ride) ].

Fixpoint mapIndexed {X Y} (f : nat -> X -> Y) (i : nat) (l : list X)
  : list Y :=
  match l with
  | [] => []
  | x :: t => f i x :: mapIndexed f (S i) t
  end.

(** The summary row pushed after the ride rows. *)
Definition grandTotalRow (summary : RidesSummary) : list jsstring :=
  [ []; []; []; []; []; []; js "Grand Total:";
    formatCurrency (rs_totalAmount summary) (rs_currency summary) ].

Definition tableData (summary : RidesSummary) : list (list jsstring) :=
  mapIndexed tableRow 0 (rs_rides summary) ++ [grandTotalRow summary].

Definition tableHead : list jsstring :=
  [ js "No."; js "Pickup"; js "Dropoff"; js "Driver"; js "Vehicle";
    js "Pickup Address"; js "Destination Address"; js "Amount" ].

Record PdfData := {
  pd_rideId : jsstring;
  pd_pdfBase64 : bytes
}.

(** The [for (const pdfData of pdfDataArray)] loop shared by
    [generateSummaryPdf] and [handleDownloadInvoices]: the pages of
    [mergedPdf] and the effects of the loop. A payload that does not
    decode is reported on the console and skipped. *)
Fixpoint appendReceipts (merged : list Page) (pdfDataArray : list PdfData)
  : M (list Page) :=
  match pdfDataArray with
  | [] => ret merged
  | pdfData :: rest =>
      match pdfLoad L (pd_pdfBase64 pdfData) with
      | Some copiedPages => appendReceipts (merged ++ copiedPages) rest
      | None =>
          consoleLog (js "Failed to merge PDF for ride "
                      ++ pd_rideId pdfData ++ js ":") ;;;
          appendReceipts merged rest
      end
  end.

(** What [generateSummaryPdf] draws on [doc]: the title, the account and
    date line, and the table; [now] is [new Date()]. *)
Definition summaryDocument (summary : RidesSummary)
  (accountName : option jsstring) (now : Z) : SummaryDoc :=
  let dateStr := format L now (js "MMMM d, yyyy") in
  {| doc_title := js "Uber Expense Summary";
     doc_account :=
       match accountName with
       | Some name =>
           if truthy name then Some (js "Account: " ++ name) else None
       | None => None
       end;
     doc_generated := js "Generated: " ++ dateStr;
     doc_head := tableHead;
     doc_body := tableData summary |}.

(** [generateSummaryPdf]; [pdfDataArray] is the optional third
    argument. *)
Definition generateSummaryPdf (summary : RidesSummary)
  (accountName : option jsstring) (pdfDataArray : option (list PdfData))
  : M bytes :=
  fontBytes <- loadGoogleSansFont ;;
  now <- dateNow ;;
  let doc := summaryDocument summary accountName now in
  summaryPdfBytes <- outcome (jsPdfOutput L fontBytes doc) ;;
  (* If no receipt PDFs provided, return just the summary *)
  match pdfDataArray with
  | None | Some [] => ret summaryPdfBytes
  | Some pdfs =>
      (* Merge summary with receipt PDFs using pdf-lib *)
      match pdfLoad L summaryPdfBytes with
      | None => throw (ErrorObject (js "Failed to parse PDF document"))
      | Some summaryPages =>
          mergedPages <- appendReceipts summaryPages pdfs ;;
          ret (pdfSave L mergedPages)
      end
  end.

(** A quoted CSV field: every double quote of the text is doubled and
    the whole is put between double quotes. *)
Definition csvQuote (field : jsstring) : jsstring :=
  [34%N] ++ replaceAllUnit 34 [34%N; 34%N] field ++ [34%N].

Definition csvHeaders : list jsstring :=
  [ js "Ride ID"; js "Pickup"; js "Dropoff"; js "Driver";
    js "Vehicle Type"; js "Status"; js "Pickup Address";
    js "Destination Address"; js "Amount"; js "Currency" ].

Definition csvRow (ride : RideData) : list jsstring :=
  let startDate := safeParseDate (rd_startTime ride) in
  let endDate := safeParseDate (rd_endTime ride) in
  [ rd_rideId ride;
    match startDate with Some d => toISOString L d | None => [] end;
    match endDate with Some d => toISOString L d | None => [] end;
    csvQuote (rd_driverName ride);
    csvQuote (rd_vehicleType ride);
    csvQuote (rd_status ride);
    csvQuote (rd_startLocation ride);
    csvQuote (rd_endLocation ride);
    toFixed2 (rd_totalAmount ride);
    rd_currency ride ].

(** The total row pushed after the ride rows. *)
Definition csvTotalRow (summary : RidesSummary) : list jsstring :=
  [ []; []; []; []; []; []; []; js "Total:";
    toFixed2 (rs_totalAmount summary); rs_currency summary ].

Definition csvRows (summary : RidesSummary) : list (list jsstring) :=
  map csvRow (rs_rides summary) ++ [csvTotalRow summary].

(** [generateCsv] *)
Definition generateCsv (summary : RidesSummary) : jsstring :=
  join [10%N]
    (join (js ",") csvHeaders
     :: map (fun row => join (js ",") row) (csvRows summary)).
End PdfUtils.

(* ===================================================================== *)
(** * The dashboard (routes/index.tsx) *)
(* ===================================================================== *)

Inductive StatusFilter := FilterAll | FilterCompleted.

(** The [filteredRides] memo. *)
Definition filteredRides (statusFilter : StatusFilter)
  (rides : list TransformedRide) : list TransformedRide :=
  match statusFilter with
  | FilterAll => rides
  | FilterCompleted =>
      filter (fun ride => jseqb (status ride) (js "COMPLETED")) rides
  end.

(** The currency of an empty selection, as the source file spells it. *)
Definition fallbackCurrency : jsstring := js "â‚¹".

(** The [summary] memo; [rowSelection id] is the truth value of
    [rowSelection[id]]. *)
Definition summaryOf (filteredRides : list TransformedRide)
  (rowSelection : jsstring -> bool) : Summary :=
  let selectedRides :=
    filter (fun ride => rowSelection (rideId ride)) filteredRides in
  let totalAmount :=
    fold_left (fun sum ride => numAdd sum (totalAmount ride))
      selectedRides numZero in
  {| selectedCount := List.length selectedRides;
     sum_totalAmount := totalAmount;
     sum_currency :=
       orElse (match selectedRides with
               | first :: _ => currency first
               | [] => []
               end) fallbackCurrency;
     rides := selectedRides |}.

Definition batchSize : nat := 10.

(** [arr.slice(i, j)] for [0 <= i <= j]. *)
Definition slice {X} (i j : nat) (arr : list X) : list X :=
  firstn (j - i) (skipn i arr).

(** [batch.includes(id)] *)
Definition arrayIncludes (batch : list jsstring) (id : jsstring) : bool :=
  existsb (jseqb id) batch.

Section Dashboard.
Variable L : Libs.
Variable w : World.

(** Step 1 of [handleFetchRides], the [while (true)] loop. [answers] are
    the provider's answers to the successive page requests; the loop is
    still waiting ([None]) when they run out before it stops. *)
Fixpoint activityPager (auth : UberAuthCredentials)
  (startTimeMs endTimeMs : Z)
  (answers : list (Outcome UberActivitiesResponse))
  (pageToken : option jsstring) (allActivities : list TransformedRide)
  (st : ST) : option (Outcome (list TransformedRide) * ST) :=
  match answers with
  | [] => None
  | answer :: later =>
      match fetchActivities w auth (Some 50) pageToken
              (Some startTimeMs) (Some endTimeMs) answer st with
      | (Throw e, st') => Some (Throw e, st')
      | (Ok result, st') =>
          if truthyOpt (fa_error result) then
            Some ((consoleLog (js "Failed to fetch activities:") ;;;
                   ret allActivities) st')
          else
            (* Add all activities (API already filtered by date range) *)
            let allActivities' := allActivities ++ fa_activities result in
            (* Check if there are more pages *)
            if negb (truthyOpt (fa_nextPageToken result)) then
              Some (Ok allActivities', st')
            else
              activityPager auth startTimeMs endTimeMs later
                (fa_nextPageToken result) allActivities' st'
      end
  end.

(** One turn of the [for] loop of step 2: what is pushed to
    [enrichedRides] for a batch. *)
Definition enrichBatch (auth : UberAuthCredentials)
  (allActivities : list TransformedRide) (batch : list jsstring)
  : M (list TransformedRide) :=
  detailsResult <- fetchMultipleTripDetails w auth batch ;;
  match td_rides detailsResult with
  | _ :: _ => ret (td_rides detailsResult)
  | [] =>
      (* Fall back to basic activities for this batch *)
      ret (filter (fun a => arrayIncludes batch (rideId a)) allActivities)
  end.

(** [for (let i = 0; i < tripUUIDs.length; i += batchSize)]; [turns]
    bounds the number of turns. *)
Fixpoint enrichFrom (turns : nat) (auth : UberAuthCredentials)
  (allActivities : list TransformedRide) (tripUUIDs : list jsstring)
  (i : nat) (enrichedRides : list TransformedRide)
  : M (list TransformedRide) :=
  match turns with
  | O => ret enrichedRides
  | S turns' =>
      if (i <? List.length tripUUIDs)%nat then
        let batch := slice i (i + batchSize) tripUUIDs in
        pushed <- enrichBatch auth allActivities batch ;;
        enrichFrom turns' auth allActivities tripUUIDs (i + batchSize)
          (enrichedRides ++ pushed)
      else ret enrichedRides
  end.

(** Step 2 of [handleFetchRides]: the value given to [setRides]. The loop
    takes at most one turn per identifier. *)
Definition enrichRides (auth : UberAuthCredentials)
  (allActivities : list TransformedRide) : M (list TransformedRide) :=
  match allActivities with
  | [] => ret []
  | _ =>
      let tripUUIDs := map rideId allActivities in
      enrichFrom (S (List.length tripUUIDs)) auth allActivities tripUUIDs
        0 []
  end.

(** [handleFetchRides]: [Some rides] when [setRides(rides)] is reached.
    The progress messages and the loading flag are left out. *)
Definition handleFetchRides (auth : option UberAuthCredentials)
  (from to : option Z) (answers : list (Outcome UberActivitiesResponse))
  (st : ST) : option (option (list TransformedRide) * ST) :=
  match auth, from with
  | Some auth, Some from =>
      let startTimeMs := startOfDay L from in
      let endTimeMs :=
        endOfDay L (match to with Some t => t | None => clock st end) in
      match activityPager auth startTimeMs endTimeMs answers None [] st with
      | None => None
      | Some (Throw _, st1) =>
          Some (None, snd (consoleLog (js "Failed to fetch rides:") st1))
      | Some (Ok allActivities, st1) =>
          match enrichRides auth allActivities st1 with
          | (Ok enrichedRides, st2) => Some (Some enrichedRides, st2)
          | (Throw _, st2) =>
              Some (None, snd (consoleLog (js "Failed to fetch rides:") st2))
          end
      end
  | _, _ => Some (None, st)
  end.

(** [downloadBlob] *)
Definition downloadBlob (data : bytes + jsstring) (filename mime : jsstring)
  : M unit :=
  emit (EvDownload filename mime data).

(** The [rides: summary.rides.map((r) => ({...}))] of the handlers. *)
Definition toRideData (r : TransformedRide) : RideData :=
  {| rd_rideId := rideId r;
     rd_startTime := startTime r;
     rd_endTime := endTime r;
     rd_startLocation := startLocation r;
     rd_endLocation := endLocation r;
     rd_totalAmount := totalAmount r;
     rd_currency := currency r;
     rd_driverName := driverName r;
     rd_vehicleType := vehicleType r;
     rd_status := status r;
     rd_invoiceUrl := [] |}.

(** [pdfSummary] / [csvSummary] *)
Definition exportSummary (count : nat) (summary : Summary) : RidesSummary :=
  {| rs_selectedCount := count;
     rs_totalAmount := sum_totalAmount summary;
     rs_currency := sum_currency summary;
     rs_rides := map toRideData (rides summary) |}.

Definition accountNameOf (user : option UberCurrentUser) : option jsstring :=
  match user with
  | Some u => Some (firstName u ++ js " " ++ lastName u)
  | None => None
  end.

Definition tripRefs (summary : Summary) : list TripRef :=
  map (fun ride => {| tr_tripUUID := rideId ride;
                      tr_isAutoRide := isAutoRide ride |}) (rides summary).

(** [pdfs.filter((pdf) => pdf.pdfBase64 !== null)] *)
Fixpoint validPdfsOf (pdfs : list PdfEntry) : list PdfData :=
  match pdfs with
  | [] => []
  | pdf :: rest =>
      match pe_pdfBase64 pdf with
      | Some b =>
          {| pd_rideId := pe_rideId pdf; pd_pdfBase64 := b |}
            :: validPdfsOf rest
      | None => validPdfsOf rest
      end
  end.

Definition datedName (stem ext : jsstring) : M jsstring :=
  now <- dateNow ;;
  ret (stem ++ format L now (js "yyyy-MM-dd") ++ ext).

(** [handleDownloadReport] (summary + all receipts) *)
Definition handleDownloadReport (auth : option UberAuthCredentials)
  (summary : Summary) (user : option UberCurrentUser) : M unit :=
  match auth with
  | None => ret tt
  | Some auth =>
      if (selectedCount summary =? 0)%nat then ret tt
      else
        tryCatch
          (pdfs <- fetchMultipleReceiptPdfs w auth (tripRefs summary) ;;
           (* Filter out failed PDFs *)
           match validPdfsOf pdfs with
           | [] => consoleLog (js "No PDFs were successfully fetched")
           | validPdfs =>
               let pdfSummary :=
                 exportSummary (List.length validPdfs) summary in
               mergedPdf <- generateSummaryPdf L w pdfSummary
                              (accountNameOf user) (Some validPdfs) ;;
               filename <- datedName (js "uber_expenses_") (js ".pdf") ;;
               downloadBlob (inl mergedPdf) filename (js "application/pdf")
           end)
          (fun error => consoleLog (js "Failed to download receipts:"))
  end.

(** [handleDownloadInvoices] (receipts only, no summary) *)
Definition handleDownloadInvoices (auth : option UberAuthCredentials)
  (summary : Summary) : M unit :=
  match auth with
  | None => ret tt
  | Some auth =>
      if (selectedCount summary =? 0)%nat then ret tt
      else
        tryCatch
          (pdfs <- fetchMultipleReceiptPdfs w auth (tripRefs summary) ;;
           match validPdfsOf pdfs with
           | [] => consoleLog (js "No PDFs were successfully fetched")
           | validPdfs =>
               (* Merge all receipt PDFs without summary *)
               mergedPages <- appendReceipts L [] validPdfs ;;
               let mergedPdfBytes := pdfSave L mergedPages in
               filename <- datedName (js "uber_invoices_") (js ".pdf") ;;
               downloadBlob (inl mergedPdfBytes) filename
                 (js "application/pdf")
           end)
          (fun error => consoleLog (js "Failed to download invoices:"))
  end.

(** [handleDownloadSummaryPdf]: an error of [generateSummaryPdf] is not
    caught here. *)
Definition handleDownloadSummaryPdf (summary : Summary)
  (user : option UberCurrentUser) : M unit :=
  if (selectedCount summary =? 0)%nat then ret tt
  else
    let pdfSummary := exportSummary (selectedCount summary) summary in
    pdfBytes <- generateSummaryPdf L w pdfSummary (accountNameOf user)
                  None ;;
    filename <- datedName (js "uber_summary_") (js ".pdf") ;;
    downloadBlob (inl pdfBytes) filename (js "application/pdf").

(** [handleDownloadCsv] *)
Definition handleDownloadCsv (summary : Summary) : M unit :=
  if (selectedCount summary =? 0)%nat then ret tt
  else
    let csvSummary := exportSummary (selectedCount summary) summary in
    let csv := generateCsv L csvSummary in
    filename <- datedName (js "uber_expenses_") (js ".csv") ;;
    downloadBlob (inr csv) filename (js "text/csv").
End Dashboard.

(* ===================================================================== *)
(** * Further functions of the sources *)
(* ===================================================================== *)

Record TripDetailResult := {
  tdr_ride : option TransformedRide;
  tdr_error : option jsstring
}.

(** [fetchTripDetails] (server/uber-api.ts) *)
Definition fetchTripDetails (w : World) (auth : UberAuthCredentials)
  (tripUUID : jsstring) : M TripDetailResult :=
  requireAuth auth ;;;
  (if truthy tripUUID then ret tt
   else throw (ErrorObject (js "Trip UUID is required"))) ;;;
  tryCatch
    (response <- request w (ReqGetTrip tripUUID) (getTripAnswer w tripUUID) ;;
     ret {| tdr_ride := Some (rideOfTrip response); tdr_error := None |})
    (fun error =>
       consoleLog (js "Failed to fetch trip details:") ;;;
       ret {| tdr_ride := None;
              tdr_error := Some (errorMessage error (js "Unknown error")) |}).

(** [RowSelectionState]: the own keys of a plain object with their
    values, each key once. *)
Definition RowSelectionState := list (jsstring * bool).

(** The properties a plain object inherits from [Object.prototype] in a
    browser: each of them is a function or an object, hence truthy. *)
Definition inheritedKeys : list jsstring :=
  [ js "constructor"; js "hasOwnProperty"; js "isPrototypeOf";
    js "propertyIsEnumerable"; js "toLocaleString"; js "toString";
    js "valueOf"; js "__proto__"; js "__defineGetter__";
    js "__defineSetter__"; js "__lookupGetter__"; js "__lookupSetter__" ].

(** [rowSelection[id]] as a truth value: the own key, and the inherited
    property when there is none. *)
Fixpoint rowSelected (rowSelection : RowSelectionState) (id : jsstring)
  : bool :=
  match rowSelection with
  | [] => existsb (jseqb id) inheritedKeys
  | (key, value) :: rest =>
      if jseqb key id then value else rowSelected rest id
  end.

Fixpoint setKey (selection : RowSelectionState) (id : jsstring)
  (value : bool) : RowSelectionState :=
  match selection with
  | [] => [(id, value)]
  | (key, old) :: rest =>
      if jseqb key id then (key, value) :: rest
      else (key, old) :: setKey rest id value
  end.

(** [selection[id] = value] for a boolean [value]: the own key is set or
    added, except that an assignment of a primitive to [__proto__] goes to
    the inherited setter, which ignores it. *)
Definition assignKey (selection : RowSelectionState) (id : jsstring)
  (value : bool) : RowSelectionState :=
  if jseqb id (js "__proto__") then selection else setKey selection id value.

(** The click handler of the Select All / Deselect All button
    (routes/index.tsx): the new row selection. *)
Definition selectAllClick (rowSelection : RowSelectionState)
  (filteredRides : list TransformedRide) : RowSelectionState :=
  let allSelected :=
    (List.length rowSelection =? List.length filteredRides)%nat in
  if allSelected then []
  else
    fold_left (fun newSelection ride => assignKey newSelection (rideId ride) true)
      filteredRides [].

(* ===================================================================== *)
(** * Reference definitions the properties are stated against *)
(* ===================================================================== *)

(** The amount as the specification words it: the first run matching the
    amount pattern, with every thousands separator stripped. *)
Definition statedAmount (text : jsstring) : number :=
  match amountMatch text with
  | Some g => parseFloat (replaceAllUnit COMMA [] g)
  | None => numZero
  end.

(** [kw'] is [kw] in some letter case. *)
Definition caseVariant (kw' kw : jsstring) : Prop :=
  Forall2 (fun c k => lowerUnit c = [k]) kw' kw.

(** The shape of an ISO 4217 alphabetic code: three capital letters. *)
Definition isoCodeShape (s : jsstring) : bool :=
  (List.length s =? 3)%nat && forallb (fun c => ((65 <=? c) && (c <=? 90))%N) s.

(** A ride as the aggregation produces it: from a GetTrip answer or from an
    activity of the listing. *)
Definition enrichedRide (r : TransformedRide) : Prop :=
  (exists response, r = rideOfTrip response)
  \/ (exists w activity, r = transformActivity w activity).

(** The invoice listings asked for in a trace, oldest first. *)
Definition invoiceRequests (tr : list Event) : list jsstring :=
  flat_map (fun e => match e with
                     | EvRequest (ReqInvoiceFiles u) => [u]
                     | _ => []
                     end) tr.

(** The URLs fetched in a trace, oldest first. *)
Definition fetchedUrls (tr : list Event) : list jsstring :=
  flat_map (fun e => match e with
                     | EvRequest (ReqFetch u) => [u]
                     | _ => []
                     end) tr.

(** The trip details asked for in a trace, oldest first. *)
Definition tripRequests (tr : list Event) : list jsstring :=
  flat_map (fun e => match e with
                     | EvRequest (ReqGetTrip u) => [u]
                     | _ => []
                     end) tr.

(** The receipt resolution as the specification words it: the direct
    time-stamped URL for the simple flow; otherwise the first listed invoice
    file, and the direct URL (stamped after the listing was asked for) when
    the listing fails or is empty. *)
Definition statedUrl (w : World) (tripUUID : jsstring) (isAutoRide : bool)
  (st : ST) : jsstring :=
  if isAutoRide then receiptUrl tripUUID (clock st)
  else
    match invoiceFilesAnswer w tripUUID with
    | Ok (Some (file :: _)) => downloadURL file
    | _ =>
        receiptUrl tripUUID (clock st + roundTrip w (ReqInvoiceFiles tripUUID))
    end.

(** The state after a network call, and after a console message. *)
Definition afterRequest (w : World) (r : Request) (st : ST) : ST :=
  {| clock := clock st + roundTrip w r; ticks := ticks st;
     trace := trace st ++ [EvRequest r];
     cachedFontBytes := cachedFontBytes st |}.

Definition afterLog (label : jsstring) (st : ST) : ST :=
  {| clock := clock st; ticks := ticks st;
     trace := trace st ++ [EvConsole label];
     cachedFontBytes := cachedFontBytes st |}.

(** The page requests of a trace, oldest first, and its console messages. *)
Definition pageRequests (tr : list Event) : list ActivitiesVariables :=
  flat_map (fun e => match e with
                     | EvRequest (ReqActivities v) => [v]
                     | _ => []
                     end) tr.

Definition consoleLabels (tr : list Event) : list jsstring :=
  flat_map (fun e => match e with
                     | EvConsole l => [l]
                     | _ => []
                     end) tr.

(** A page answer carries a continuation token. *)
Definition hasMore (answer : Outcome UberActivitiesResponse) : bool :=
  match answer with
  | Ok r => truthyOpt (past_nextPageToken r)
  | Throw _ => false
  end.

Definition tokenOf (answer : Outcome UberActivitiesResponse)
  : option jsstring :=
  match answer with
  | Ok r => past_nextPageToken r
  | Throw _ => None
  end.

(** The rides of a page answer (none for a failed request), and their
    number. *)
Definition pageRides (w : World) (answer : Outcome UberActivitiesResponse)
  : list TransformedRide :=
  match answer with
  | Ok r => map (transformActivity w) (past_activities r)
  | Throw _ => []
  end.

Definition pageCount (answer : Outcome UberActivitiesResponse) : nat :=
  match answer with
  | Ok r => List.length (past_activities r)
  | Throw _ => 0
  end.

Definition isThrow {X} (o : Outcome X) : bool :=
  match o with Throw _ => true | Ok _ => false end.

(** The variables of the page request that carries [token]. *)
Definition pageVariables (startTimeMs endTimeMs : Z)
  (token : option jsstring) : ActivitiesVariables :=
  buildActivitiesVariables (Some 50) token (Some startTimeMs)
    (Some endTimeMs).

(** Contiguous batches of at most [size] elements, in order; [turns]
    bounds their number. *)
Fixpoint chunksOf {X} (size turns : nat) (l : list X) : list (list X) :=
  match turns with
  | O => []
  | S turns' =>
      match l with
      | [] => []
      | _ => firstn size l :: chunksOf size turns' (skipn size l)
      end
  end.

(** The batches of the enrichment. *)
Definition batches {X} (l : list X) : list (list X) :=
  chunksOf batchSize (List.length l) l.

(** The result of the detail request for one identifier. *)
Definition tripResultOf (w : World) (tripUUID : jsstring) : TripResult :=
  match getTripAnswer w tripUUID with
  | Ok response => TripSuccess (rideOfTrip response)
  | Throw error =>
      TripFailure (js "Failed to fetch " ++ tripUUID ++ js ": "
                   ++ errorMessage error (js "Unknown"))
  end.

(** The detail requests of a list of identifiers, as events. *)
Definition tripEvents (ids : list jsstring) : list Event :=
  map (fun id => EvRequest (ReqGetTrip id)) ids.

(** What the provider's answer for one identifier contributes to the
    enriched rides: the ride built from it, nothing when it fails. *)
Definition detailOf (w : World) (tripUUID : jsstring)
  : list TransformedRide :=
  match getTripAnswer w tripUUID with
  | Ok response => [rideOfTrip response]
  | Throw _ => []
  end.

Definition detailError (w : World) (tripUUID : jsstring) : list jsstring :=
  match getTripAnswer w tripUUID with
  | Ok _ => []
  | Throw error =>
      [js "Failed to fetch " ++ tripUUID ++ js ": "
       ++ errorMessage error (js "Unknown")]
  end.

(** The enrichment of a batch as the specification words it: the rides of
    the identifiers whose request succeeds; the summary records of the
    batch's identifiers when every request fails. *)
Definition statedBatch (w : World) (allActivities : list TransformedRide)
  (batch : list jsstring) : list TransformedRide :=
  match flat_map (detailOf w) batch with
  | [] => filter (fun a => arrayIncludes batch (rideId a)) allActivities
  | details => details
  end.

(** [c] is what one identifier of the input stands for in the output:
    nothing, the ride of its detail answer, or a summary record of it. *)
Definition fromIdentifier (w : World) (allActivities : list TransformedRide)
  (id : jsstring) (c : list TransformedRide) : Prop :=
  c = []
  \/ (exists response,
         getTripAnswer w id = Ok response /\ c = [rideOfTrip response])
  \/ (exists a, In a allActivities /\ rideId a = id /\ c = [a]).

(** The output follows the order of the input identifiers: it is the input
    with each identifier replaced, in place, by what it stands for. *)
Definition keepsIdentifierOrder (w : World)
  (allActivities output : list TransformedRide) : Prop :=
  exists contributions,
    Forall2 (fromIdentifier w allActivities) (map rideId allActivities)
      contributions
    /\ output = List.concat contributions.

(** The pages of the payloads that decode, in the order of the list. *)
Definition pagesOf (L : Libs) (pdfs : list PdfData) : list Page :=
  flat_map (fun d => match pdfLoad L (pd_pdfBase64 d) with
                     | Some pages => pages
                     | None => []
                     end) pdfs.

(** The console messages for the payloads that do not decode. *)
Definition mergeFailures (L : Libs) (pdfs : list PdfData) : list Event :=
  flat_map (fun d => match pdfLoad L (pd_pdfBase64 d) with
                     | Some _ => []
                     | None =>
                         [EvConsole (js "Failed to merge PDF for ride "
                                     ++ pd_rideId d ++ js ":")]
                     end) pdfs.

(** The artifacts handed to the browser in a trace, oldest first. *)
Definition downloads (tr : list Event) : list (bytes + jsstring) :=
  flat_map (fun e => match e with
                     | EvDownload _ _ data => [data]
                     | _ => []
                     end) tr.

(** An entry of [fetchMultipleReceiptPdfs] is a payload or a reported
    failure. *)
Definition entryOk (e : PdfEntry) : bool :=
  match pe_pdfBase64 e with Some _ => true | None => false end.

Definition entryReported (e : PdfEntry) : bool :=
  match pe_pdfBase64 e, pe_error e with
  | Some _, None => true
  | None, Some _ => true
  | _, _ => false
  end.

(** A reader of quoted CSV fields: the enclosing quotes are dropped and
    each doubled quote inside gives one quote. [None] when the text is not
    a quoted field. *)
Fixpoint unquoteBody (s : jsstring) : option jsstring :=
  match s with
  | [] => None
  | c :: t =>
      if unit_eqb c 34 then
        match t with
        | [] => Some []
        | d :: t' =>
            if unit_eqb d 34 then
              match unquoteBody t' with
              | Some r => Some (34%N :: r)
              | None => None
              end
            else None
        end
      else
        match unquoteBody t with
        | Some r => Some (c :: r)
        | None => None
        end
  end.

Definition unquote (field : jsstring) : option jsstring :=
  match field with
  | c :: t => if unit_eqb c 34 then unquoteBody t else None
  | [] => None
  end.

(** The units [sanitizeText] keeps. *)
Definition printable (code : N) : bool :=
  (((32 <=? code) && (code <=? 126)) || ((160 <=? code) && (code <=? 383)))%N.

(** A number that is not below zero: its sign is clear (NaN has none). *)
Definition notNegative (x : number) : bool :=
  match x with
  | S754_nan => true
  | S754_zero sg | S754_infinity sg | S754_finite sg _ _ => negb sg
  end.

Definition isNaN (x : number) : bool :=
  match x with S754_nan => true | _ => false end.

(** The bullet of the activity subtitles, U+2022. *)
Definition BULLET : N := 8226.

(** The requests of a trace, of any kind. *)
Definition requestsOf (tr : list Event) : list Request :=
  flat_map (fun e => match e with EvRequest r => [r] | _ => [] end) tr.

(** What a receipt download yields, from the answer to the fetch of its
    URL alone: the payload, or the error text. *)
Definition receiptOutcome (w : World) (pdfUrl : jsstring)
  : option bytes * option jsstring :=
  match fetchAnswer w pdfUrl with
  | Ok (inl body) => (Some body, None)
  | Ok (inr status) =>
      (None, Some (js "Failed to fetch PDF: " ++ decimalOfZ status))
  | Throw error => (None, Some (errorMessage error (js "Unknown error")))
  end.


(** A text that neither starts nor ends with white space. *)
Definition startsClean (s : jsstring) : bool :=
  match s with
  | c :: _ => negb (isStrWhiteSpace c)
  | [] => true
  end.

Definition trimmed (s : jsstring) : bool :=
  startsClean s && startsClean (rev s).


(** The units a matched amount can hold: digits, commas and points. *)
Definition isAmountChar (c : N) : bool :=
  isDigit c || unit_eqb c COMMA || unit_eqb c DOT.


(** The symbol a fare text is shown with. *)
Definition shownSymbol (text : jsstring) : jsstring :=
  if includes text (js "₹") then js "₹"
  else if includes text (js "€") then js "€"
  else if includes text (js "£") then js "£"
  else js "$".

(** A text without a bullet. *)
Definition bulletFree (s : jsstring) : bool :=
  forallb (fun c => negb (unit_eqb BULLET c)) s.


(** A selection without an own key [__proto__]. *)
Definition protoFree (selection : RowSelectionState) : bool :=
  forallb (fun kv => negb (jseqb (fst kv) (js "__proto__"))) selection.


(** A reader of CSV lines, for the round trip of the rows: a field that
    starts with a quote runs to its closing quote (a doubled quote inside
    stands for one quote), any other field runs to the next comma. *)
Fixpoint readQuoted (s : jsstring) : option (jsstring * jsstring) :=
  match s with
  | [] => None
  | c :: t =>
      if unit_eqb c 34 then
        match t with
        | d :: t' =>
            if unit_eqb d 34 then
              match readQuoted t' with
              | Some (r, rest) => Some (34%N :: r, rest)
              | None => None
              end
            else Some ([], t)
        | [] => Some ([], [])
        end
      else
        match readQuoted t with
        | Some (r, rest) => Some (c :: r, rest)
        | None => None
        end
  end.

Definition notComma (c : N) : bool := negb (unit_eqb c COMMA).

Fixpoint parseFields (fuel : nat) (s : jsstring) : option (list jsstring) :=
  match fuel with
  | O => None
  | S fuel' =>
      let continue (field rest : jsstring) :=
        match rest with
        | [] => Some [field]
        | c :: rest' =>
            if unit_eqb c COMMA then
              match parseFields fuel' rest' with
              | Some fields => Some (field :: fields)
              | None => None
              end
            else None
        end in
      match s with
      | c :: t =>
          if unit_eqb c 34 then
            match readQuoted t with
            | Some (field, rest) => continue field rest
            | None => None
            end
          else let '(field, rest) := span notComma s in continue field rest
      | [] => Some [[]]
      end
  end.

Definition parseLine (line : jsstring) : option (list jsstring) :=
  parseFields (S (List.length line)) line.

(** A text that can stand in a CSV line without quotes: no comma and no
    quote. *)
Definition plainChar (c : N) : bool :=
  negb (unit_eqb c COMMA) && negb (unit_eqb c 34).

Definition plain (s : jsstring) : bool := forallb plainChar s.

(** The texts a CSV row is written from. *)
Definition csvValues (L : Libs) (ride : RideData) : list jsstring :=
  [ rd_rideId ride;
    match safeParseDate L (rd_startTime ride) with
    | Some d => toISOString L d
    | None => []
    end;
    match safeParseDate L (rd_endTime ride) with
    | Some d => toISOString L d
    | None => []
    end;
    rd_driverName ride; rd_vehicleType ride; rd_status ride;
    rd_startLocation ride; rd_endLocation ride;
    toFixed2 (rd_totalAmount ride); rd_currency ride ].


(** What is written for a cell: its text, quoted or as it is. *)
Definition writtenCell (cell : bool * jsstring) : jsstring :=
  if fst cell then csvQuote (snd cell) else snd cell.


(** The pages of the cover document as [generateSummaryPdf] gets them in
    state [st]: the font is loaded (from the cache or from the site), jsPDF
    draws the document with it, and pdf-lib decodes the result. [None] when
    one of the three fails. *)
Definition coverPagesOf (L : Libs) (w : World) (summary : RidesSummary)
  (accountName : option jsstring) (st : ST) : option (list Page) :=
  match loadGoogleSansFont w st with
  | (Ok font, st1) =>
      match jsPdfOutput L font
              (summaryDocument L summary accountName (clock st1)) with
      | Ok cover => pdfLoad L cover
      | Throw _ => None
      end
  | (Throw _, _) => None
  end.


(** What is written to the console for the answer that ends the listing:
    by [fetchActivities] itself when the request fails, and by the loop of
    [handleFetchRides] when the result it gets carries an error text that
    is not empty. *)
Definition serverLabels (answer : Outcome UberActivitiesResponse)
  : list jsstring :=
  match answer with
  | Ok _ => []
  | Throw _ => [js "Failed to fetch activities:"]
  end.

Definition pagerLabels (answer : Outcome UberActivitiesResponse)
  : list jsstring :=
  match answer with
  | Ok _ => []
  | Throw error =>
      if truthy (errorMessage error (js "Unknown error"))
      then [js "Failed to fetch activities:"]
      else []
  end.


(* ===================================================================== *)
(** * Sample data *)
(* ===================================================================== *)

Definition sampleAuth : UberAuthCredentials :=
  {| cookie := js "sid=abc"; csrfToken := js "x" |}.

Definition st0 : ST :=
  {| clock := 1700000000000; ticks := 0; trace := [];
     cachedFontBytes := None |}.

Definition sampleTrip (id fareText label : string) : UberGetTripResponse :=
  {| trip := {| beginTripTime := js "2025-11-16T17:03:00.000Z";
                dropoffTime := js "2025-11-16T17:33:00.000Z";
                driver := js "Asha";
                fare := js fareText;
                trip_status := js "COMPLETED";
                trip_uuid := js id;
                waypoints := [js "MG Road"; js "Airport"] |};
     mapURL := js "https://maps.example/m.png";
     receipt_vehicleType := js label |}.

(** A provider that knows trips [t1] (a car) and [t2] (an auto), lists one
    invoice file for [t1], and serves every URL but those of trip [t9]. *)
Definition sampleWorld : World :=
  {| getTripAnswer := fun id =>
       if jseqb id (js "t1") then Ok (sampleTrip "t1" "₹84.38" "UberXL")
       else if jseqb id (js "t2") then Ok (sampleTrip "t2" "₹120.00" "Auto")
       else Throw (ErrorObject (js "Uber API error: 500 "));
     invoiceFilesAnswer := fun id =>
       if jseqb id (js "t1")
       then Ok (Some [ {| downloadURL := js "https://files.example/t1.pdf" |} ])
       else Ok (Some []);
     fetchAnswer := fun url =>
       if includes url (js "/trips/t9/") then Ok (inr 404)
       else Ok (inl url);
     roundTrip := fun _ => 120;
     completion := fun n => n;
     currentYear := 2025 |}.

(** Libraries whose date parsers know one time stamp, and whose PDF payloads
    are one page each unless empty. *)
Definition sampleLibs : Libs :=
  {| parseISO := fun s =>
       if jseqb s (js "2025-11-16T17:03:00.000Z") then Some 1763312580000
       else None;
     newDate := fun _ => None;
     format := fun _ f => f;
     toISOString := fun _ => js "2025-11-16T17:03:00.000Z";
     startOfDay := fun t => t;
     endOfDay := fun t => t;
     jsPdfOutput := fun font doc =>
       match font with
       | [] => Throw (ErrorObject (js "Cannot parse the font"))
       | _ => Ok (List.concat (doc_head doc))
       end;
     pdfLoad := fun b => match b with [] => None | _ => Some [b] end;
     pdfSave := fun pages => List.concat pages |}.

Definition sampleRide (id : string) (amount : number) (cur : string)
  (start : string) : TransformedRide :=
  {| rideId := js id; startTime := js start; endTime := js "later";
     startLocation := js "A"; endLocation := js "B";
     totalAmount := amount; currency := js cur; driverName := js "D";
     vehicleType := js "Car"; status := js "COMPLETED"; mapUrl := [];
     isAutoRide := false |}.

(** The selection of the end-to-end scenario: the rides the enrichment
    builds from fares ₹84.38 and ₹120.00. *)
Definition scenarioRides : list TransformedRide :=
  [ rideOfTrip (sampleTrip "t1" "₹84.38" "UberXL");
    rideOfTrip (sampleTrip "t2" "₹120.00" "Auto") ].

Definition scenarioSummary : Summary := summaryOf scenarioRides (fun _ => true).

(** A provider whose every request fails. *)
Definition downWorld : World :=
  {| getTripAnswer := fun _ => Throw (ErrorObject (js "fetch failed"));
     invoiceFilesAnswer := fun _ => Throw (ErrorObject (js "fetch failed"));
     fetchAnswer := fun _ => Throw (ErrorObject (js "fetch failed"));
     roundTrip := fun _ => 30000;
     completion := fun n => (2 * n + 1)%nat;
     currentYear := 2025 |}.

(** Summary records with the given identifiers; the start text tells the
    position in the list. *)
Definition summaryRecords (ids : list string) : list TransformedRide :=
  mapIndexed (fun i id =>
                {| rideId := js id;
                   startTime := decimalOfN (N.of_nat (i + 1)) ++ js " Nov 2025";
                   endTime := []; startLocation := js "Home";
                   endLocation := []; totalAmount := numZero;
                   currency := js "INR"; driverName := [];
                   vehicleType := js "Car"; status := js "COMPLETED";
                   mapUrl := []; isAutoRide := false |}) 0 ids.

(** Eleven activities, the first and the last with the same identifier. *)
Definition repeatedActivities : list TransformedRide :=
  summaryRecords ["x"; "a1"; "a2"; "a3"; "a4"; "a5"; "a6"; "a7"; "a8"; "a9";
                  "x"]%string.

(** Eleven activities with distinct identifiers. *)
Definition distinctActivities : list TransformedRide :=
  summaryRecords ["t1"; "a1"; "a2"; "a3"; "a4"; "a5"; "a6"; "a7"; "a8"; "t2";
                  "a9"]%string.

Definition sampleActivity (id image : string) : UberActivity :=
  {| act_uuid := js id; title := js "Home";
     subtitle := js "16 Nov • 22:33"; description := js "₹84.38";
     imageURL := {| light := js image; dark := [] |} |}.

(** Two pages of the listing: the first carries the token "p2". *)
Definition samplePages : list (Outcome UberActivitiesResponse) :=
  [ Ok {| past_activities :=
            [ sampleActivity "t1" "https://cdn.example/UberX.png";
              sampleActivity "t7" "https://cdn.example/TukTuk.png" ];
          past_nextPageToken := Some (js "p2") |};
    Ok {| past_activities :=
            [ sampleActivity "t2" "https://cdn.example/Auto.png" ];
          past_nextPageToken := None |} ].

(** A state in which the font has been loaded before. *)
Definition stFont : ST :=
  {| clock := 1700000000000; ticks := 0; trace := [];
     cachedFontBytes := Some [0; 1; 0; 0]%N |}.

(** A selection of three rides: [t1] has an invoice file, the receipt of
    [t9] cannot be fetched, [t2] uses the simple flow. *)
Definition threeRides : Summary :=
  summaryOf [ rideOfTrip (sampleTrip "t1" "₹84.38" "UberXL");
              rideOfTrip (sampleTrip "t9" "₹10.00" "UberX");
              rideOfTrip (sampleTrip "t2" "₹120.00" "Auto") ]
    (fun _ => true).

(** A selection of the one ride whose receipt cannot be fetched. *)
Definition oneRide : Summary :=
  summaryOf [ rideOfTrip (sampleTrip "t9" "₹10.00" "UberX") ] (fun _ => true).

(** A ride whose driver's name is written in Devanagari. *)
Definition devanagariRide : RideData :=
  {| rd_rideId := js "t1"; rd_startTime := js "2026-01-05T10:00:00Z";
     rd_endTime := []; rd_startLocation := js "A"; rd_endLocation := js "B";
     rd_totalAmount := numZero; rd_currency := js "INR";
     rd_driverName := js "राम"; rd_vehicleType := js "Auto";
     rd_status := js "COMPLETED"; rd_invoiceUrl := [] |}.


(** The sample provider, with a site that does not serve the font. *)
Definition noFontWorld : World :=
  {| getTripAnswer := getTripAnswer sampleWorld;
     invoiceFilesAnswer := invoiceFilesAnswer sampleWorld;
     fetchAnswer := fun url =>
       if jseqb url (js "/fonts/GoogleSansFlex.ttf") then Ok (inr 404)
       else fetchAnswer sampleWorld url;
     roundTrip := roundTrip sampleWorld;
     completion := completion sampleWorld;
     currentYear := currentYear sampleWorld |}.


(** A ride whose texts hold quotes, commas and a line break. *)
Definition awkwardRide : RideData :=
  {| rd_rideId := js "t1"; rd_startTime := js "2025-11-16T17:03:00.000Z";
     rd_endTime := [];
     rd_startLocation := js "12, Main St" ++ [10%N] ++ js "Pune";
     rd_endLocation := [34%N];
     rd_totalAmount := numOfDecimal 8438 (-2); rd_currency := js "INR";
     rd_driverName := js "Ann " ++ [34%N] ++ js "AJ" ++ [34%N] ++ js " Lee";
     rd_vehicleType := js "Auto"; rd_status := js "COMPLETED";
     rd_invoiceUrl := [] |}.


(* ===================================================================== *)
(** * Properties: strings *)
(* ===================================================================== *)

Lemma unit_eqb_refl (c : N) : unit_eqb c c = true.
Proof. apply N.eqb_refl. Qed.

Lemma unit_eqb_eq (a b : N) : unit_eqb a b = true <-> a = b.
Proof. apply N.eqb_eq. Qed.

Lemma jseqb_eq (a b : jsstring) : jseqb a b = true <-> a = b.
Proof.
  revert b; induction a as [|x a IH]; intros [|y b]; simpl;
    try (split; congruence).
  rewrite andb_true_iff, unit_eqb_eq, IH. split.
  - intros [-> ->]; reflexivity.
  - intros E; inversion E; auto.
Qed.

Lemma startsWith_app (p s : jsstring) : startsWith p (p ++ s) = true.
Proof.
  induction p as [|c p IH]; simpl.
  - destruct s; reflexivity.
  - now rewrite unit_eqb_refl, IH.
Qed.

Lemma includes_startsWith (s p : jsstring) :
  startsWith p s = true -> includes s p = true.
Proof. intros H. destruct s; simpl; rewrite H; reflexivity. Qed.

Lemma includes_app (pre kw post : jsstring) :
  includes (pre ++ kw ++ post) kw = true.
Proof.
  induction pre as [|c pre IH]; simpl.
  - apply includes_startsWith, startsWith_app.
  - rewrite IH. apply orb_true_r.
Qed.

Lemma toLowerCase_app (a b : jsstring) :
  toLowerCase (a ++ b) = toLowerCase a ++ toLowerCase b.
Proof. unfold toLowerCase. apply flat_map_app. Qed.

Lemma toLowerCase_caseVariant (kw' kw : jsstring) :
  caseVariant kw' kw -> toLowerCase kw' = kw.
Proof.
  induction 1 as [|c k kw' kw H _ IH]; simpl.
  - reflexivity.
  - fold (toLowerCase kw'). rewrite H, IH. reflexivity.
Qed.

Lemma includes_caseVariant (pre kw' post kw : jsstring) :
  caseVariant kw' kw ->
  includes (toLowerCase (pre ++ kw' ++ post)) kw = true.
Proof.
  intros H. rewrite !toLowerCase_app, (toLowerCase_caseVariant _ _ H).
  apply includes_app.
Qed.

(* ===================================================================== *)
(** * Properties: the amount and currency parser *)
(* ===================================================================== *)

(** The three fare texts of the specification. *)
Lemma parseAmount_examples :
  parseAmount (js "₹84.38") = numOfDecimal 8438 (-2)
  /\ detectCurrency (js "₹84.38") = js "INR"
  /\ parseAmount (js "$12.50") = numOfDecimal 1250 (-2)
  /\ detectCurrency (js "$12.50") = js "USD"
  /\ parseAmount (js "no symbol 10") = numOfDecimal 10 0
  /\ detectCurrency (js "no symbol 10") = js "USD"
  /\ parseAmount (js "free ride") = numZero.
Proof. repeat split; vm_compute; reflexivity. Qed.

Lemma replaceFirst_comma_head (s : jsstring) :
  replaceFirst [COMMA] [] (COMMA :: s) = s.
Proof. reflexivity. Qed.

Lemma replaceFirst_comma_other (c : N) (s : jsstring) :
  c <> COMMA ->
  replaceFirst [COMMA] [] (c :: s) = c :: replaceFirst [COMMA] [] s.
Proof.
  intros Hc. cbn [replaceFirst startsWith]. unfold unit_eqb.
  destruct (N.eqb_spec COMMA c) as [E|_]; [congruence|]. reflexivity.
Qed.

Lemma replaceAllUnit_absent (u : N) (s : jsstring) :
  count_occ N.eq_dec s u = 0%nat -> replaceAllUnit u [] s = s.
Proof.
  induction s as [|d s IH]; simpl; intros H.
  - reflexivity.
  - destruct (N.eq_dec d u) as [E|E]; [discriminate|].
    unfold unit_eqb. destruct (N.eqb_spec d u); [congruence|].
    simpl. now rewrite IH.
Qed.

(** The two ways of removing commas agree on a text that has at most one. *)
Lemma replaceFirst_single_comma (g : jsstring) :
  (count_occ N.eq_dec g COMMA <= 1)%nat ->
  replaceFirst (js ",") [] g = replaceAllUnit COMMA [] g.
Proof.
  change (js ",") with [COMMA].
  induction g as [|c g IH]; intros H.
  - reflexivity.
  - simpl in H. destruct (N.eq_dec c COMMA) as [->|Hc].
    + rewrite replaceFirst_comma_head. simpl.
      rewrite replaceAllUnit_absent by lia. reflexivity.
    + rewrite replaceFirst_comma_other by assumption.
      simpl. unfold unit_eqb at 1.
      destruct (N.eqb_spec c COMMA); [congruence|].
      simpl. f_equal. apply IH. lia.
Qed.

(** The parser computes the stated amount whenever the matched run holds
    at most one thousands separator. *)
Lemma parseAmount_stated (text g : jsstring) :
  amountMatch text = Some g ->
  (count_occ N.eq_dec g COMMA <= 1)%nat ->
  parseAmount text = statedAmount text.
Proof.
  intros Hm Hc. unfold parseAmount, statedAmount. rewrite Hm.
  now rewrite replaceFirst_single_comma.
Qed.

(** Without a match both are zero. *)
Lemma parseAmount_no_match (text : jsstring) :
  amountMatch text = None ->
  parseAmount text = numZero /\ statedAmount text = numZero.
Proof. intros H. unfold parseAmount, statedAmount. now rewrite H. Qed.

(** C6 (the code departs from the claim). The claim: the amount is the
    floating value of the first run matching the amount pattern with its
    thousands separators stripped, and the currency is chosen from the
    symbol in the text. On the fare [₹1,234,567.89] the pattern matches
    the whole number, but only the first comma is removed before
    [parseFloat], which then stops at the second one: the parser returns
    1234 where the stated amount is 1234567.89. The currency is INR as
    claimed. *)
Theorem C6_amount_keeps_later_separators :
  let text := js "₹1,234,567.89" in
  amountMatch text = Some (js "1,234,567.89")
  /\ replaceFirst (js ",") [] (js "1,234,567.89") = js "1234,567.89"
  /\ parseAmount text = numOfDecimal 1234 0
  /\ statedAmount text = numOfDecimal 123456789 (-2)
  /\ parseAmount text <> statedAmount text
  /\ toFixed2 (parseAmount text) = js "1234.00"
  /\ detectCurrency text = js "INR".
Proof.
  cbv zeta. repeat split; try (vm_compute; reflexivity).
  vm_compute. discriminate.
Qed.

(* ===================================================================== *)
(** * Properties: the vehicle classifier *)
(* ===================================================================== *)

Lemma vehicleCategory_flags (label : jsstring) :
  isBike (getVehicleInfo label)
  = match vehicleCategory label with Bike => true | _ => false end
  /\ isAuto (getVehicleInfo label)
     = match vehicleCategory label with Standard => false | _ => true end.
Proof.
  unfold getVehicleInfo, vehicleCategory; cbn [isBike isAuto].
  destruct (includes (toLowerCase label) (js "moto")
            || includes (toLowerCase label) (js "bike"));
    destruct (includes (toLowerCase label) (js "auto")
              || includes (toLowerCase label) (js "tuk"));
    split; reflexivity.
Qed.

(** C7 (as amended). Classification of a label is a search for keywords in
    the lower-cased label: a label holding "moto" or "bike" in any letter
    case is a bike, otherwise one holding "auto" or "tuk" is an auto,
    anything else is standard ("UberXL" is standard, "Moto" a bike, "Auto"
    an auto); the simple receipt flow is on exactly for autos and bikes.
    From an image URL only the flag is derived, by a case-sensitive search
    for "TukTuk", "Auto" or "Moto" in the light image URL, and the ride is
    labelled "Auto" or "Car". *)
Theorem C7_vehicle_classifier :
  (forall label,
      let lower := toLowerCase label in
      let bikeWord :=
        includes lower (js "moto") || includes lower (js "bike") in
      let autoWord :=
        includes lower (js "auto") || includes lower (js "tuk") in
      (vehicleCategory label = Bike <-> bikeWord = true)
      /\ (vehicleCategory label = Auto
          <-> bikeWord = false /\ autoWord = true)
      /\ (vehicleCategory label = Standard
          <-> bikeWord = false /\ autoWord = false)
      /\ (isAuto (getVehicleInfo label) = true
          <-> vehicleCategory label = Auto \/ vehicleCategory label = Bike)
      /\ (isBike (getVehicleInfo label) = true
          <-> vehicleCategory label = Bike))
  /\ (forall pre kw' post kw,
         caseVariant kw' kw ->
         (kw = js "moto" \/ kw = js "bike" ->
          vehicleCategory (pre ++ kw' ++ post) = Bike)
         /\ (kw = js "auto" \/ kw = js "tuk" ->
             vehicleCategory (pre ++ kw' ++ post) <> Standard
             /\ isAuto (getVehicleInfo (pre ++ kw' ++ post)) = true))
  /\ (vehicleCategory (js "UberXL") = Standard
      /\ isAuto (getVehicleInfo (js "UberXL")) = false
      /\ vehicleCategory (js "Moto") = Bike
      /\ isAuto (getVehicleInfo (js "Moto")) = true
      /\ vehicleCategory (js "Auto") = Auto
      /\ isAuto (getVehicleInfo (js "Auto")) = true)
  /\ (forall w activity,
         let url := light (imageURL activity) in
         let ride := transformActivity w activity in
         isAutoRide ride
         = (includes url (js "TukTuk") || includes url (js "Auto")
            || includes url (js "Moto"))
         /\ vehicleType ride
            = if isAutoRide ride then js "Auto" else js "Car").
Proof.
  split; [|split; [|split]].
  - intros label lower bikeWord autoWord.
    destruct (vehicleCategory_flags label) as [Hb Ha].
    rewrite Hb, Ha. unfold vehicleCategory.
    fold lower. fold bikeWord. fold autoWord.
    destruct bikeWord, autoWord; simpl;
      repeat split; intros; try discriminate; try tauto;
      repeat match goal with
             | H : _ /\ _ |- _ => destruct H
             | H : _ \/ _ |- _ => destruct H
             end; try discriminate; auto.
  - intros pre kw' post kw Hv.
    pose proof (includes_caseVariant pre kw' post kw Hv) as Hin.
    split.
    + intros Hk. unfold vehicleCategory.
      destruct Hk as [-> | ->]; rewrite Hin; simpl;
        [reflexivity | now rewrite orb_true_r].
    + intros Hk.
      destruct (vehicleCategory_flags (pre ++ kw' ++ post)) as [_ Ha].
      assert (Hc : vehicleCategory (pre ++ kw' ++ post) <> Standard).
      { unfold vehicleCategory.
        destruct (includes (toLowerCase (pre ++ kw' ++ post)) (js "moto")
                  || includes (toLowerCase (pre ++ kw' ++ post)) (js "bike"));
          [discriminate|].
        destruct Hk as [-> | ->]; rewrite Hin; simpl;
          [discriminate | rewrite orb_true_r; discriminate]. }
      split; [exact Hc|].
      rewrite Ha.
      destruct (vehicleCategory (pre ++ kw' ++ post)); congruence.
  - repeat split; vm_compute; reflexivity.
  - intros w activity url ride. split; reflexivity.
Qed.

(** A label in mixed case, between other words. *)
Lemma C7_vehicle_classifier_witness :
  caseVariant (js "MoTo") (js "moto")
  /\ vehicleCategory (js "Uber " ++ js "MoTo" ++ js " Saver") = Bike.
Proof.
  split.
  - repeat constructor.
  - apply (proj1 (proj2 C7_vehicle_classifier)
             (js "Uber ") (js "MoTo") (js " Saver") (js "moto")).
    + repeat constructor.
    + left; reflexivity.
Defined.

(** C7 (the claim as stated fails). The claim has the image URL searched
    for the same keywords as a label. A URL naming a bike in lower case is
    not a simple-flow ride for [fetchActivities], while the same text as a
    label is. *)
Lemma C7_image_url_counterexample :
  let url := js "https://cdn.example/vehicles/bike.png" in
  let activity :=
    {| act_uuid := js "a1"; title := js "Home"; subtitle := js "16 Nov";
       description := js "₹40.00";
       imageURL := {| light := url; dark := url |} |} in
  isAutoRide (transformActivity sampleWorld activity) = false
  /\ isAuto (getVehicleInfo url) = true
  /\ vehicleCategory url = Bike.
Proof. cbv zeta. repeat split; vm_compute; reflexivity. Qed.

(* ===================================================================== *)
(** * Properties: dates that do not parse *)
(* ===================================================================== *)

Lemma safeFormatDate_unparsed (L : Libs) (dateStr fmt : jsstring)
  (fallback : option jsstring) :
  safeParseDate L dateStr = None ->
  safeFormatDate L dateStr fmt fallback
  = orElse (match fallback with Some f => f | None => [] end)
      (orElse dateStr (js "N/A")).
Proof. intros H. unfold safeFormatDate. now rewrite H. Qed.

(** C8 (as amended). When the start or end time of a ride does not parse,
    neither renderer raises (both are total) and each fills the cell with
    its own default: the PDF table shows the original start text in the
    pickup cell ("N/A" when that text is empty) and "N/A" in the dropoff
    cell; the CSV leaves the pickup or dropoff cell empty. *)
Theorem C8_unparsed_dates (L : Libs) (index : nat) (ride : RideData) :
  (safeParseDate L (rd_startTime ride) = None ->
   nth 1 (tableRow L index ride) [] = orElse (rd_startTime ride) (js "N/A")
   /\ (rd_startTime ride <> [] ->
       nth 1 (tableRow L index ride) [] = rd_startTime ride)
   /\ nth 1 (csvRow L ride) [] = [])
  /\ (safeParseDate L (rd_endTime ride) = None ->
      nth 2 (tableRow L index ride) [] = js "N/A"
      /\ nth 2 (csvRow L ride) [] = []).
Proof.
  split; intros H.
  - assert (E : nth 1 (tableRow L index ride) []
                = orElse (rd_startTime ride) (js "N/A")).
    { unfold tableRow. cbn [nth].
      now rewrite safeFormatDate_unparsed by assumption. }
    repeat split.
    + exact E.
    + intros Hne. rewrite E. unfold orElse.
      destruct (rd_startTime ride); [contradiction | reflexivity].
    + unfold csvRow. cbn [nth]. now rewrite H.
  - split.
    + unfold tableRow. cbn [nth].
      now rewrite safeFormatDate_unparsed by assumption.
    + unfold csvRow. cbn [nth]. now rewrite H.
Qed.

(** A ride of the activity listing: a start text without a usable format
    and an end text that is no date. *)
Lemma C8_unparsed_dates_witness :
  let ride := toRideData (sampleRide "r1" numZero "INR" "16 Nov 22:33") in
  safeParseDate sampleLibs (rd_startTime ride) = None
  /\ safeParseDate sampleLibs (rd_endTime ride) = None
  /\ nth 1 (tableRow sampleLibs 0 ride) [] = js "16 Nov 22:33"
  /\ nth 2 (tableRow sampleLibs 0 ride) [] = js "N/A"
  /\ nth 1 (csvRow sampleLibs ride) [] = []
  /\ nth 2 (csvRow sampleLibs ride) [] = [].
Proof.
  cbv zeta.
  set (ride := toRideData (sampleRide "r1" numZero "INR" "16 Nov 22:33")).
  assert (P1 : safeParseDate sampleLibs (rd_startTime ride) = None)
    by reflexivity.
  assert (P2 : safeParseDate sampleLibs (rd_endTime ride) = None)
    by reflexivity.
  destruct (C8_unparsed_dates sampleLibs 0 ride) as [Hs He].
  destruct (Hs P1) as [_ [H1 H2]]. destruct (He P2) as [H3 H4].
  split; [exact P1|]. split; [exact P2|].
  split; [apply H1; discriminate|]. split; [exact H3|].
  split; [exact H2 | exact H4].
Defined.

(** C8 (the claim as stated fails). The claim has both renderers fall back
    to the original text. For an end time "later" that does not parse, the
    PDF dropoff cell reads "N/A" and the CSV dropoff cell is empty; for a
    start time that does not parse the CSV pickup cell is empty too. *)
Lemma C8_original_text_counterexample :
  let ride := toRideData (sampleRide "r1" numZero "INR" "16 Nov 22:33") in
  safeParseDate sampleLibs (rd_endTime ride) = None
  /\ rd_endTime ride = js "later"
  /\ nth 2 (tableRow sampleLibs 0 ride) [] <> rd_endTime ride
  /\ nth 2 (csvRow sampleLibs ride) [] <> rd_endTime ride
  /\ safeParseDate sampleLibs (rd_startTime ride) = None
  /\ nth 1 (csvRow sampleLibs ride) [] <> rd_startTime ride.
Proof.
  cbv zeta. repeat split; try reflexivity; vm_compute; discriminate.
Qed.


(* ===================================================================== *)
(** * Properties: the selection summary *)
(* ===================================================================== *)

Lemma detectCurrency_codes (text : jsstring) :
  In (detectCurrency text) [js "INR"; js "EUR"; js "GBP"; js "USD"].
Proof.
  unfold detectCurrency.
  destruct (includes text (js "₹")); [now left|].
  destruct (includes text (js "€")); [now right; left|].
  destruct (includes text (js "£")); [now right; right; left|].
  now right; right; right; left.
Qed.

(** The currency of an aggregated ride is one of the four codes. *)
Lemma enrichedRide_currency (r : TransformedRide) :
  enrichedRide r ->
  In (currency r) [js "INR"; js "EUR"; js "GBP"; js "USD"].
Proof.
  intros [[response ->] | [w [activity ->]]]; apply detectCurrency_codes.
Qed.

Lemma enrichedRide_currency_truthy (r : TransformedRide) :
  enrichedRide r -> truthy (currency r) = true.
Proof.
  intros H. apply enrichedRide_currency in H. simpl in H.
  destruct H as [<- | [<- | [<- | [<- | []]]]]; reflexivity.
Qed.

Lemma fold_left_amounts (l : list TransformedRide) (acc : number) :
  fold_left (fun sum ride => numAdd sum (totalAmount ride)) l acc
  = fold_left numAdd (map totalAmount l) acc.
Proof.
  revert acc; induction l as [|r l IH]; intros acc; simpl; auto.
Qed.

(* ===================================================================== *)
(** * Properties: the empty selection *)
(* ===================================================================== *)

Lemma summaryOf_count (filtered : list TransformedRide)
  (rowSelection : jsstring -> bool) :
  selectedCount (summaryOf filtered rowSelection) = 0%nat ->
  filter (fun ride => rowSelection (rideId ride)) filtered = [].
Proof.
  unfold summaryOf; cbn [selectedCount]. intros H.
  now apply length_zero_iff_nil.
Qed.

(** C10. With nothing selected every export handler returns at once: the
    state is unchanged, so no request was made and nothing was downloaded.
    The summary of an empty selection has total 0 and, whatever rides are
    listed, the same built-in currency text (the three code units U+00E2,
    U+201A, U+00B9), which does not have the shape of an ISO currency
    code. *)
Theorem C10_empty_selection :
  (forall L w auth user (summary : Summary) (st : ST),
      selectedCount summary = 0%nat ->
      handleDownloadReport L w auth summary user st = (Ok tt, st)
      /\ handleDownloadInvoices L w auth summary st = (Ok tt, st)
      /\ handleDownloadSummaryPdf L w summary user st = (Ok tt, st)
      /\ handleDownloadCsv L summary st = (Ok tt, st))
  /\ (forall filtered rowSelection,
         selectedCount (summaryOf filtered rowSelection) = 0%nat ->
         summaryOf filtered rowSelection
         = {| selectedCount := 0; sum_totalAmount := numZero;
              sum_currency := fallbackCurrency; rides := [] |})
  /\ fallbackCurrency = [226; 8218; 185]%N
  /\ isoCodeShape fallbackCurrency = false.
Proof.
  split; [|split; [|split]].
  - intros L w auth user summary st H.
    unfold handleDownloadReport, handleDownloadInvoices,
      handleDownloadSummaryPdf, handleDownloadCsv.
    rewrite H. cbn [Nat.eqb].
    destruct auth; repeat split; reflexivity.
  - intros filtered rowSelection H.
    apply summaryOf_count in H. unfold summaryOf. rewrite H. reflexivity.
  - reflexivity.
  - reflexivity.
Qed.

(** A list of rides none of which is selected. *)
Lemma C10_empty_selection_witness :
  let s := summaryOf scenarioRides (fun _ => false) in
  selectedCount s = 0%nat
  /\ sum_currency s = fallbackCurrency
  /\ handleDownloadReport sampleLibs sampleWorld (Some sampleAuth) s None st0
     = (Ok tt, st0)
  /\ handleDownloadCsv sampleLibs s st0 = (Ok tt, st0).
Proof.
  cbv zeta.
  set (s := summaryOf scenarioRides (fun _ => false)).
  assert (H : selectedCount s = 0%nat) by reflexivity.
  destruct (proj1 C10_empty_selection sampleLibs sampleWorld
              (Some sampleAuth) None s st0 H) as [H1 [_ [_ H4]]].
  pose proof (proj1 (proj2 C10_empty_selection) scenarioRides
                (fun _ => false) H) as H5.
  split; [exact H|]. split; [fold s in H5; rewrite H5; reflexivity|].
  split; [exact H1 | exact H4].
Defined.

(** With a selection the same handlers do reach the network and the
    download: the report for the two rides of the scenario. *)
Lemma download_report_scenario :
  let '(r, st) :=
    handleDownloadReport sampleLibs sampleWorld (Some sampleAuth)
      scenarioSummary None st0 in
  r = Ok tt
  /\ List.length (filter (fun e => match e with EvRequest _ => true
                                          | _ => false end) (trace st))
     = 4%nat
  /\ exists data,
      last (trace st) (EvConsole [])
      = EvDownload (js "uber_expenses_yyyy-MM-dd.pdf")
          (js "application/pdf") data.
Proof. vm_compute. repeat split. eexists; reflexivity. Qed.


(* ===================================================================== *)
(** * Properties: Promise.all *)
(* ===================================================================== *)

Lemma removeAt_perm {X} (l : list X) (k : nat) (x : X) :
  nth_error l k = Some x -> Permutation l (x :: removeAt k l).
Proof.
  revert k; induction l as [|y l IH]; intros [|k] H; simpl in *;
    try discriminate.
  - injection H as ->. reflexivity.
  - rewrite perm_swap. constructor. now apply IH.
Qed.

Lemma removeAt_length {X} (l : list X) (k : nat) :
  (k < List.length l)%nat ->
  List.length l = S (List.length (removeAt k l)).
Proof.
  revert k; induction l as [|y l IH]; intros [|k] H; simpl in *; try lia.
  rewrite <- IH by lia. reflexivity.
Qed.

Lemma setNth_length {X} (i : nat) (x : X) (l : list X) :
  List.length (setNth i x l) = List.length l.
Proof.
  revert i; induction l as [|y l IH]; intros [|i]; simpl; auto.
Qed.

Lemma nth_error_setNth_same {X} (i : nat) (x : X) (l : list X) :
  (i < List.length l)%nat -> nth_error (setNth i x l) i = Some x.
Proof.
  revert i; induction l as [|y l IH]; intros [|i] H; simpl in *; try lia.
  - reflexivity.
  - apply IH. lia.
Qed.

Lemma nth_error_setNth_other {X} (i j : nat) (x : X) (l : list X) :
  i <> j -> nth_error (setNth i x l) j = nth_error l j.
Proof.
  revert i j; induction l as [|y l IH]; intros [|i] [|j] H; simpl;
    try reflexivity; try congruence.
  apply IH. congruence.
Qed.

Lemma combine_seq_nth {X} (items : list X) (s i : nat) (a : X) :
  In (i, a) (combine (seq s (List.length items)) items) ->
  (s <= i)%nat /\ nth_error items (i - s) = Some a.
Proof.
  revert s; induction items as [|x items IH]; intros s H; simpl in *.
  - contradiction.
  - destruct H as [H | H].
    + injection H as -> ->. rewrite Nat.sub_diag. split; [lia | reflexivity].
    + apply IH in H as [Hle Hn]. split; [lia|].
      replace (i - s)%nat with (S (i - S s)) by lia. exact Hn.
Qed.

Lemma combine_seq_fst {X} (items : list X) (s : nat) :
  map fst (combine (seq s (List.length items)) items)
  = seq s (List.length items).
Proof.
  revert s; induction items as [|x items IH]; intros s; simpl.
  - reflexivity.
  - now rewrite IH.
Qed.

Lemma combine_seq_snd {X} (items : list X) (s : nat) :
  map snd (combine (seq s (List.length items)) items) = items.
Proof.
  revert s; induction items as [|x items IH]; intros s; simpl.
  - reflexivity.
  - now rewrite IH.
Qed.

Section PromiseAllFacts.
Context {A B : Type}.
Variable w : World.
Variable task : A -> ST -> B * ST.

(** The loop is a run of the step relation. *)
Lemma settle_Settles (n : nat) (pending : list (nat * A))
  (slots : list (option B)) (st : ST) :
  n = List.length pending ->
  Settles task pending slots st (settle w task n pending slots st).
Proof.
  revert pending slots st; induction n as [|n IH]; intros pending slots st Hn.
  - destruct pending; [constructor | discriminate].
  - cbn [settle].
    set (k := Nat.modulo (completion w (ticks st)) (List.length pending)).
    assert (Hk : (k < List.length pending)%nat).
    { apply Nat.mod_upper_bound. lia. }
    destruct (nth_error pending k) as [[i a]|] eqn:E.
    + destruct (task a st) as [b st'] eqn:T.
      eapply Settles_step; eauto.
      apply IH. pose proof (removeAt_length pending k Hk). lia.
    + apply nth_error_None in E. lia.
Qed.

(** Whatever holds of the state before, and is kept by every task and by
    the bookkeeping, holds after. *)
Lemma Settles_invariant (P : ST -> Prop) pending slots st r :
  Settles task pending slots st r ->
  (forall s, P s -> P (tick s)) ->
  (forall a s, In a (map snd pending) -> P s -> P (snd (task a s))) ->
  P st -> P (snd r).
Proof.
  induction 1 as [|pending slots st k i a b st' r Hnth Htask _ IH];
    intros Htick Hrun HP.
  - exact HP.
  - pose proof (Permutation_map snd (removeAt_perm _ _ _ Hnth)) as Hperm.
    apply IH; auto.
    + intros a' s Hin. apply Hrun.
      apply (Permutation_in _ (Permutation_sym Hperm)). now right.
    + apply Htick. replace st' with (snd (task a st)) by now rewrite Htask.
      apply Hrun; auto.
      apply (Permutation_in _ (Permutation_sym Hperm)). now left.
Qed.

Section Results.
Variable R : A -> B -> Prop.
Hypothesis task_R : forall a s, R a (fst (task a s)).

Lemma Settles_slots (items : list A) pending slots st r :
  Settles task pending slots st r ->
  List.length slots = List.length items ->
  NoDup (map fst pending) ->
  (forall i a, In (i, a) pending -> nth_error items i = Some a) ->
  (forall i, (i < List.length items)%nat -> ~ In i (map fst pending) ->
             exists a b, nth_error items i = Some a
                         /\ nth_error slots i = Some (Some b) /\ R a b) ->
  forall i, (i < List.length items)%nat ->
            exists a b, nth_error items i = Some a
                        /\ nth_error (fst r) i = Some (Some b) /\ R a b.
Proof.
  induction 1 as [|pending slots st k i a b st' r Hnth Htask _ IH];
    intros Hlen Hnd Hpend Hdone j Hj.
  - apply Hdone; auto.
  - pose proof (removeAt_perm _ _ _ Hnth) as Hperm.
    pose proof (Permutation_map fst Hperm) as Hpermf. cbn [map fst] in Hpermf.
    pose proof (Permutation_NoDup Hpermf Hnd) as Hnd'.
    inversion Hnd' as [|? ? Hnotin Hnd'']; subst.
    assert (Hia : nth_error items i = Some a).
    { apply Hpend. eapply nth_error_In; eauto. }
    apply IH; auto.
    + now rewrite setNth_length.
    + intros i' a' Hin. apply Hpend.
      apply (Permutation_in _ (Permutation_sym Hperm)). now right.
    + intros i' Hi' Hnot.
      destruct (Nat.eq_dec i i') as [<-|Hne].
      * exists a, b. split; [exact Hia|]. split.
        -- apply nth_error_setNth_same. lia.
        -- replace b with (fst (task a st)) by now rewrite Htask.
           apply task_R.
      * rewrite nth_error_setNth_other by assumption.
        apply Hdone; auto.
        intros Hin. apply (Permutation_in _ Hpermf) in Hin.
        destruct Hin as [Hin|Hin]; [congruence | contradiction].
Qed.

Lemma settled_Forall2 (items : list A) (slots : list (option B)) :
  List.length slots = List.length items ->
  (forall i, (i < List.length items)%nat ->
             exists a b, nth_error items i = Some a
                         /\ nth_error slots i = Some (Some b) /\ R a b) ->
  Forall2 R items (settled slots).
Proof.
  revert slots; induction items as [|x items IH]; intros [|o slots] Hlen H;
    simpl in *; try discriminate.
  - constructor.
  - destruct (H 0%nat ltac:(lia)) as [a [b [Ha [Hb HR]]]].
    simpl in Ha, Hb. injection Ha as ->. injection Hb as ->.
    simpl. constructor; [exact HR|].
    apply IH; [lia|].
    intros i Hi. apply (H (S i)). lia.
Qed.

(** The results come in the order of the inputs, whatever the order of
    completion. *)
Lemma promiseAll_results (items : list A) (st : ST) :
  Forall2 R items (fst (promiseAll w task items st)).
Proof.
  unfold promiseAll.
  set (n := List.length items).
  pose proof (settle_Settles n (combine (seq 0 n) items) (repeat None n) st)
    as HS.
  destruct (settle w task n (combine (seq 0 n) items) (repeat None n) st)
    as [slots st'] eqn:E.
  cbn [fst].
  assert (Hlen0 : n = List.length (combine (seq 0 n) items)).
  { rewrite length_combine, length_seq. unfold n. lia. }
  specialize (HS Hlen0).
  assert (Hslots : List.length slots = List.length items).
  { enough (forall pending sl s r, Settles task pending sl s r ->
                                   List.length (fst r) = List.length sl) as Hl.
    { pose proof (Hl _ _ _ _ HS) as X. cbn [fst] in X. rewrite X.
      apply repeat_length. }
    clear. induction 1; cbn [fst]; [reflexivity|].
    rewrite IHSettles. apply setNth_length. }
  apply settled_Forall2; [exact Hslots|].
  intros i Hi.
  apply (Settles_slots items _ _ _ _ HS); auto.
  - apply repeat_length.
  - unfold n. rewrite combine_seq_fst. apply seq_NoDup.
  - intros j a Hin. unfold n in Hin. apply combine_seq_nth in Hin as [_ Hn].
    now rewrite Nat.sub_0_r in Hn.
  - intros j Hj Hnot. exfalso. apply Hnot.
    unfold n. rewrite combine_seq_fst. apply in_seq. lia.
Qed.
End Results.

(** A task whose result does not depend on the state it starts in. *)
Lemma promiseAll_map (f : A -> B) (items : list A) (st : ST) :
  (forall a s, fst (task a s) = f a) ->
  fst (promiseAll w task items st) = map f items.
Proof.
  intros Hf.
  pose proof (promiseAll_results (fun a b => b = f a)
                (fun a s => Hf a s) items st) as H.
  induction H as [|a b items res Hab _ IH]; simpl.
  - reflexivity.
  - now rewrite Hab, IH.
Qed.

Lemma promiseAll_invariant (P : ST -> Prop) (items : list A) (st : ST) :
  (forall s, P s -> P (tick s)) ->
  (forall a s, In a items -> P s -> P (snd (task a s))) ->
  P st -> P (snd (promiseAll w task items st)).
Proof.
  intros Htick Hrun HP. unfold promiseAll.
  set (n := List.length items).
  pose proof (settle_Settles n (combine (seq 0 n) items) (repeat None n) st)
    as HS.
  destruct (settle w task n (combine (seq 0 n) items) (repeat None n) st)
    as [slots st'] eqn:E.
  cbn [snd].
  change st' with (snd (slots, st')).
  eapply Settles_invariant; eauto.
  - apply HS. rewrite length_combine, length_seq. unfold n. lia.
  - intros a s Hin. apply Hrun.
    unfold n in Hin. now rewrite combine_seq_snd in Hin.
Qed.

(** A view of the trace to which every task appends its own part: the view
    of the whole is made of the parts of the tasks, each task's together,
    in the order of completion. *)
Lemma Settles_view {X} (view : list Event -> list X) (delta : A -> list X)
  pending slots st r :
  (forall a s, view (trace (snd (task a s))) = view (trace s) ++ delta a) ->
  Settles task pending slots st r ->
  exists order, Permutation order (map snd pending)
                /\ view (trace (snd r))
                   = view (trace st) ++ flat_map delta order.
Proof.
  intros Hd. induction 1 as [|pending slots st k i a b st' r Hnth Htask _ IH].
  - exists []. split; [constructor|]. simpl. now rewrite app_nil_r.
  - destruct IH as [order [Hperm Htr]].
    exists (a :: order). split.
    + pose proof (Permutation_map snd (removeAt_perm _ _ _ Hnth)) as Hp.
      cbn [map snd] in Hp. rewrite Hp. now constructor.
    + rewrite Htr. cbn [tick trace flat_map].
      replace st' with (snd (task a st)) by now rewrite Htask.
      rewrite Hd. now rewrite <- app_assoc.
Qed.

Lemma promiseAll_view {X} (view : list Event -> list X) (delta : A -> list X)
  (items : list A) (st : ST) :
  (forall a s, view (trace (snd (task a s))) = view (trace s) ++ delta a) ->
  exists order, Permutation order items
                /\ view (trace (snd (promiseAll w task items st)))
                   = view (trace st) ++ flat_map delta order.
Proof.
  intros Hd. unfold promiseAll.
  set (n := List.length items).
  pose proof (settle_Settles n (combine (seq 0 n) items) (repeat None n) st)
    as HS.
  destruct (settle w task n (combine (seq 0 n) items) (repeat None n) st)
    as [slots st'] eqn:E.
  cbn [snd].
  destruct (Settles_view view delta _ _ _ _ Hd
              (HS ltac:(rewrite length_combine, length_seq; unfold n; lia)))
    as [order [Hperm Htr]].
  exists order. split; [|exact Htr].
  unfold n in Hperm. now rewrite combine_seq_snd in Hperm.
Qed.
End PromiseAllFacts.

(* ===================================================================== *)
(** * Properties: the receipt resolver *)
(* ===================================================================== *)

Lemma invoiceRequests_app (a b : list Event) :
  invoiceRequests (a ++ b) = invoiceRequests a ++ invoiceRequests b.
Proof. apply flat_map_app. Qed.

Lemma fetchedUrls_app (a b : list Event) :
  fetchedUrls (a ++ b) = fetchedUrls a ++ fetchedUrls b.
Proof. apply flat_map_app. Qed.

(** The views of a trace distribute over its parts. *)
Create Rewrite HintDb views.
#[local] Hint Rewrite invoiceRequests_app fetchedUrls_app : views.

(** The effect operations, unfolded. *)
Ltac unfold_effects :=
  unfold bind, tryCatch, request, dateNow, ret, throw, consoleLog, emit.

(** The URL is the stated one; deciding it asks for the invoice listing
    exactly when the flag is off, and fetches nothing. *)
Lemma choosePdfUrl_stated (w : World) (warning tripUUID : jsstring)
  (isAutoRide : bool) (st : ST) :
  exists st',
    choosePdfUrl w warning tripUUID isAutoRide st
    = (Ok (statedUrl w tripUUID isAutoRide st), st')
    /\ invoiceRequests (trace st')
       = invoiceRequests (trace st) ++ (if isAutoRide then [] else [tripUUID])
    /\ fetchedUrls (trace st') = fetchedUrls (trace st)
    /\ (isAutoRide = true -> st' = st).
Proof.
  unfold choosePdfUrl, statedUrl.
  destruct isAutoRide.
  - exists st. cbn. rewrite app_nil_r. auto.
  - unfold_effects.
    destruct (invoiceFilesAnswer w tripUUID) as [[[|file files]|]|e];
      cbn [fst snd trace clock];
      eexists; (split; [reflexivity|]);
      cbn [trace]; autorewrite with views;
      cbn; rewrite ?app_nil_r; repeat split; discriminate.
Qed.

Lemma downloadPdf_trace (w : World) (pdfUrl : jsstring) (st : ST) :
  trace (snd (downloadPdf w pdfUrl st))
  = trace st ++ [EvRequest (ReqFetch pdfUrl)].
Proof.
  unfold downloadPdf. unfold_effects.
  destruct (fetchAnswer w pdfUrl) as [[body|status]|e]; reflexivity.
Qed.

(** One task of [fetchMultipleReceiptPdfs]: the invoice listing is asked
    for exactly when the flag is off, and the stated URL is fetched. *)
Lemma receiptTask_views (w : World) (t : TripRef) (st : ST) :
  invoiceRequests (trace (snd (receiptTask w t st)))
  = invoiceRequests (trace st)
    ++ (if tr_isAutoRide t then [] else [tr_tripUUID t])
  /\ fetchedUrls (trace (snd (receiptTask w t st)))
     = fetchedUrls (trace st)
       ++ [statedUrl w (tr_tripUUID t) (tr_isAutoRide t) st].
Proof.
  unfold receiptTask.
  destruct (choosePdfUrl_stated w
              (js "Invoice fetch failed for " ++ tr_tripUUID t
               ++ js ", falling back to receipt:")
              (tr_tripUUID t) (tr_isAutoRide t) st)
    as [st1 [Hc [Hi [Hf _]]]].
  unfold bind. rewrite Hc.
  pose proof (downloadPdf_trace w
                (statedUrl w (tr_tripUUID t) (tr_isAutoRide t) st) st1) as Hd.
  destruct (downloadPdf w (statedUrl w (tr_tripUUID t) (tr_isAutoRide t) st)
              st1) as [[base64|e] st2]; unfold ret; cbn [snd] in *;
    rewrite Hd, invoiceRequests_app, fetchedUrls_app, Hi, Hf; cbn;
    rewrite ?app_nil_r; split; reflexivity.
Qed.

Lemma requireAuth_ok (auth : UberAuthCredentials) (st : ST) :
  truthy (cookie auth) && truthy (csrfToken auth) = true ->
  requireAuth auth st = (Ok tt, st).
Proof. intros H. unfold requireAuth. now rewrite H. Qed.

(** [fetchReceiptPdf] on valid input: the URL is chosen, then fetched, and
    only a console message may follow. *)
Lemma fetchReceiptPdf_run (w : World) (auth : UberAuthCredentials)
  (tripUUID : jsstring) (isAutoRide : bool) (st : ST) :
  truthy (cookie auth) && truthy (csrfToken auth) = true ->
  truthy tripUUID = true ->
  exists st1 label,
    choosePdfUrl w (js "Invoice fetch failed, falling back to receipt:")
      tripUUID isAutoRide st
    = (Ok (statedUrl w tripUUID isAutoRide st), st1)
    /\ trace (snd (fetchReceiptPdf w auth tripUUID isAutoRide st))
       = trace st1
         ++ EvRequest (ReqFetch (statedUrl w tripUUID isAutoRide st))
            :: map EvConsole label.
Proof.
  intros Hauth Hid.
  destruct (choosePdfUrl_stated w
              (js "Invoice fetch failed, falling back to receipt:")
              tripUUID isAutoRide st) as [st1 [Hc _]].
  exists st1.
  unfold fetchReceiptPdf, tryCatch, bind.
  rewrite (requireAuth_ok _ _ Hauth), Hid. unfold ret at 1. rewrite Hc.
  pose proof (downloadPdf_trace w (statedUrl w tripUUID isAutoRide st) st1)
    as Hd.
  destruct (downloadPdf w (statedUrl w tripUUID isAutoRide st) st1)
    as [[base64|e] st2]; cbn [snd] in Hd.
  - exists []. split; [reflexivity|]. unfold ret. cbn [snd map]. exact Hd.
  - exists [js "Failed to fetch receipt PDF:"]. split; [reflexivity|].
    unfold consoleLog, emit, ret. cbn [snd trace map].
    rewrite Hd, <- app_assoc. reflexivity.
Qed.

Lemma invoiceRequests_console (labels : list jsstring) :
  invoiceRequests (map EvConsole labels) = [].
Proof. induction labels; simpl; auto. Qed.

Lemma fetchedUrls_console (labels : list jsstring) :
  fetchedUrls (map EvConsole labels) = [].
Proof. induction labels; simpl; auto. Qed.

(** [fetchReceiptPdf] on valid input: the same two views. *)
Lemma fetchReceiptPdf_views (w : World) (auth : UberAuthCredentials)
  (tripUUID : jsstring) (isAutoRide : bool) (st : ST) :
  truthy (cookie auth) && truthy (csrfToken auth) = true ->
  truthy tripUUID = true ->
  invoiceRequests (trace (snd (fetchReceiptPdf w auth tripUUID isAutoRide st)))
  = invoiceRequests (trace st) ++ (if isAutoRide then [] else [tripUUID])
  /\ fetchedUrls (trace (snd (fetchReceiptPdf w auth tripUUID isAutoRide st)))
     = fetchedUrls (trace st) ++ [statedUrl w tripUUID isAutoRide st].
Proof.
  intros Hauth Hid.
  destruct (fetchReceiptPdf_run w auth tripUUID isAutoRide st Hauth Hid)
    as [st1 [label [Hc Htr]]].
  destruct (choosePdfUrl_stated w
              (js "Invoice fetch failed, falling back to receipt:")
              tripUUID isAutoRide st) as [st1' [Hc' [Hi [Hf _]]]].
  rewrite Hc in Hc'. injection Hc' as <-.
  rewrite Htr, invoiceRequests_app, fetchedUrls_app, Hi, Hf.
  change (EvRequest (ReqFetch (statedUrl w tripUUID isAutoRide st))
            :: map EvConsole label)
    with ([EvRequest (ReqFetch (statedUrl w tripUUID isAutoRide st))]
            ++ map EvConsole label).
  rewrite invoiceRequests_app, fetchedUrls_app, invoiceRequests_console,
    fetchedUrls_console.
  cbn. rewrite ?app_nil_r. split; reflexivity.
Qed.

Lemma invoiceDelta_filter (trips : list TripRef) :
  flat_map (fun t => if tr_isAutoRide t then [] else [tr_tripUUID t]) trips
  = map tr_tripUUID (filter (fun t => negb (tr_isAutoRide t)) trips).
Proof.
  induction trips as [|t trips IH]; simpl.
  - reflexivity.
  - destruct (tr_isAutoRide t); simpl; now rewrite IH.
Qed.

(** [fetchMultipleReceiptPdfs] asks for the invoice listing of the trips
    whose flag is off, once each, and of no other trip. *)
Lemma fetchMultipleReceiptPdfs_invoices (w : World)
  (auth : UberAuthCredentials) (trips : list TripRef) (st : ST) :
  truthy (cookie auth) && truthy (csrfToken auth) = true ->
  trips <> [] ->
  Permutation
    (invoiceRequests (trace (snd (fetchMultipleReceiptPdfs w auth trips st))))
    (invoiceRequests (trace st)
     ++ map tr_tripUUID (filter (fun t => negb (tr_isAutoRide t)) trips)).
Proof.
  intros Hauth Hne. unfold fetchMultipleReceiptPdfs, bind.
  rewrite (requireAuth_ok _ _ Hauth).
  destruct trips as [|t0 trips0]; [contradiction|].
  set (trips := t0 :: trips0).
  destruct (promiseAll_view w (receiptTask w) invoiceRequests
              (fun t => if tr_isAutoRide t then [] else [tr_tripUUID t])
              trips st (fun a s => proj1 (receiptTask_views w a s)))
    as [order [Hperm Hview]].
  destruct (promiseAll w (receiptTask w) trips st) as [pdfs st'].
  cbn [snd] in *. rewrite Hview.
  apply Permutation_app_head.
  rewrite <- invoiceDelta_filter.
  now apply Permutation_flat_map.
Qed.

(** C1. The receipt resolver. With the flag on, the URL is the direct
    time-stamped receipt URL and no invoice listing is asked for. With the
    flag off the listing is asked for first: its first file gives the URL
    when it has one, whatever follows it; when the request fails or lists
    no file the URL is the same direct receipt URL, stamped at that moment.
    This holds of [fetchReceiptPdf] and of every task of
    [fetchMultipleReceiptPdfs], which fetch that URL and no other. *)
Theorem C1_receipt_resolution (w : World) :
  (forall tripUUID st,
      statedUrl w tripUUID true st = receiptUrl tripUUID (clock st)
      /\ (forall file files,
             invoiceFilesAnswer w tripUUID = Ok (Some (file :: files)) ->
             statedUrl w tripUUID false st = downloadURL file)
      /\ (invoiceFilesAnswer w tripUUID = Ok (Some [])
          \/ invoiceFilesAnswer w tripUUID = Ok None
          \/ (exists e, invoiceFilesAnswer w tripUUID = Throw e) ->
          statedUrl w tripUUID false st
          = receiptUrl tripUUID
              (clock st + roundTrip w (ReqInvoiceFiles tripUUID))))
  /\ (forall warning tripUUID isAutoRide st,
         exists st',
           choosePdfUrl w warning tripUUID isAutoRide st
           = (Ok (statedUrl w tripUUID isAutoRide st), st')
           /\ invoiceRequests (trace st')
              = invoiceRequests (trace st)
                ++ (if isAutoRide then [] else [tripUUID])
           /\ fetchedUrls (trace st') = fetchedUrls (trace st)
           /\ (isAutoRide = true -> st' = st))
  /\ (forall t st,
         invoiceRequests (trace (snd (receiptTask w t st)))
         = invoiceRequests (trace st)
           ++ (if tr_isAutoRide t then [] else [tr_tripUUID t])
         /\ fetchedUrls (trace (snd (receiptTask w t st)))
            = fetchedUrls (trace st)
              ++ [statedUrl w (tr_tripUUID t) (tr_isAutoRide t) st])
  /\ (forall auth tripUUID isAutoRide st,
         truthy (cookie auth) && truthy (csrfToken auth) = true ->
         truthy tripUUID = true ->
         invoiceRequests
           (trace (snd (fetchReceiptPdf w auth tripUUID isAutoRide st)))
         = invoiceRequests (trace st)
           ++ (if isAutoRide then [] else [tripUUID])
         /\ fetchedUrls
              (trace (snd (fetchReceiptPdf w auth tripUUID isAutoRide st)))
            = fetchedUrls (trace st) ++ [statedUrl w tripUUID isAutoRide st])
  /\ (forall auth trips st,
         truthy (cookie auth) && truthy (csrfToken auth) = true ->
         trips <> [] ->
         Permutation
           (invoiceRequests
              (trace (snd (fetchMultipleReceiptPdfs w auth trips st))))
           (invoiceRequests (trace st)
            ++ map tr_tripUUID
                 (filter (fun t => negb (tr_isAutoRide t)) trips))).
Proof.
  split; [|split; [|split; [|split]]].
  - intros tripUUID st. unfold statedUrl. split; [reflexivity|]. split.
    + intros file files H. now rewrite H.
    + intros [H | [H | [e H]]]; now rewrite H.
  - intros. apply choosePdfUrl_stated.
  - intros. apply receiptTask_views.
  - intros. now apply fetchReceiptPdf_views.
  - intros. now apply fetchMultipleReceiptPdfs_invoices.
Qed.

(** Three trips against the sample provider: [t1] has an invoice file,
    [t2] uses the simple flow, [t3] has no invoice file. *)
Lemma C1_receipt_resolution_witness :
  let trips := [ {| tr_tripUUID := js "t1"; tr_isAutoRide := false |};
                 {| tr_tripUUID := js "t2"; tr_isAutoRide := true |};
                 {| tr_tripUUID := js "t3"; tr_isAutoRide := false |} ] in
  truthy (cookie sampleAuth) && truthy (csrfToken sampleAuth) = true
  /\ trips <> []
  /\ Permutation
       (invoiceRequests
          (trace (snd (fetchMultipleReceiptPdfs sampleWorld sampleAuth
                         trips st0))))
       [js "t1"; js "t3"]
  /\ statedUrl sampleWorld (js "t1") false st0
     = js "https://files.example/t1.pdf"
  /\ statedUrl sampleWorld (js "t2") true st0
     = js "https://riders.uber.com/trips/t2/receipt?contentType=PDF&timestamp=1700000000000"
  /\ statedUrl sampleWorld (js "t3") false st0
     = js "https://riders.uber.com/trips/t3/receipt?contentType=PDF&timestamp=1700000000120".
Proof.
  cbv zeta.
  assert (Hauth : truthy (cookie sampleAuth) && truthy (csrfToken sampleAuth)
                  = true) by reflexivity.
  split; [exact Hauth|]. split; [discriminate|]. split.
  - pose proof (proj2 (proj2 (proj2 (proj2 (C1_receipt_resolution sampleWorld))))
             sampleAuth
             [ {| tr_tripUUID := js "t1"; tr_isAutoRide := false |};
               {| tr_tripUUID := js "t2"; tr_isAutoRide := true |};
               {| tr_tripUUID := js "t3"; tr_isAutoRide := false |} ]
             st0 Hauth ltac:(discriminate)) as H.
    vm_compute in H. vm_compute. exact H.
  - destruct (proj1 (C1_receipt_resolution sampleWorld) (js "t1") st0)
      as [_ [H1 _]].
    destruct (proj1 (C1_receipt_resolution sampleWorld) (js "t2") st0)
      as [H2 _].
    destruct (proj1 (C1_receipt_resolution sampleWorld) (js "t3") st0)
      as [_ [_ H3]].
    split;
      [rewrite (H1 {| downloadURL := js "https://files.example/t1.pdf" |} []
                  eq_refl); vm_compute; reflexivity|].
    split; [rewrite H2; vm_compute; reflexivity|].
    rewrite H3; [vm_compute; reflexivity | left; reflexivity].
Defined.


(* ===================================================================== *)
(** * Properties: the activity pager *)
(* ===================================================================== *)

Lemma pageRequests_app (a b : list Event) :
  pageRequests (a ++ b) = pageRequests a ++ pageRequests b.
Proof. apply flat_map_app. Qed.

Lemma consoleLabels_app (a b : list Event) :
  consoleLabels (a ++ b) = consoleLabels a ++ consoleLabels b.
Proof. apply flat_map_app. Qed.

#[local] Hint Rewrite pageRequests_app consoleLabels_app : views.

(** One call of [fetchActivities] with valid credentials: one request, and
    a console message when it fails. *)
Lemma fetchActivities_run (w : World) (auth : UberAuthCredentials)
  (token : option jsstring) (s e : Z)
  (answer : Outcome UberActivitiesResponse) (st : ST) :
  truthy (cookie auth) && truthy (csrfToken auth) = true ->
  fetchActivities w auth (Some 50) token (Some s) (Some e) answer st
  = let st1 := afterRequest w (ReqActivities (pageVariables s e token)) st in
    match answer with
    | Ok r =>
        (Ok {| fa_activities := pageRides w answer;
               fa_nextPageToken := past_nextPageToken r;
               fa_error := None |}, st1)
    | Throw err =>
        (Ok {| fa_activities := [];
               fa_nextPageToken := None;
               fa_error := Some (errorMessage err (js "Unknown error")) |},
         afterLog (js "Failed to fetch activities:") st1)
    end.
Proof.
  intros Hauth. unfold fetchActivities, bind, tryCatch.
  rewrite (requireAuth_ok _ _ Hauth).
  destruct answer as [r|err]; reflexivity.
Qed.

Lemma pageRides_length (w : World) (answers : list (Outcome UberActivitiesResponse)) :
  List.length (flat_map (pageRides w) answers)
  = list_sum (map pageCount answers).
Proof.
  induction answers as [|a answers IH]; simpl.
  - reflexivity.
  - rewrite length_app, IH. f_equal.
    destruct a; simpl; [apply length_map | reflexivity].
Qed.

(** The loop run from any turn: pages that carry a token are accumulated
    and followed; the first page that fails or carries none ends it. *)
Lemma activityPager_run (w : World) (auth : UberAuthCredentials) (s e : Z)
  (pre : list (Outcome UberActivitiesResponse))
  (last : Outcome UberActivitiesResponse)
  (rest : list (Outcome UberActivitiesResponse)) :
  truthy (cookie auth) && truthy (csrfToken auth) = true ->
  forallb hasMore pre = true ->
  hasMore last = false ->
  forall token acc st,
  exists st',
    activityPager w auth s e (pre ++ last :: rest) token acc st
    = Some (Ok (acc ++ flat_map (pageRides w) (pre ++ [last])), st')
    /\ pageRequests (trace st')
       = pageRequests (trace st)
         ++ map (pageVariables s e) (token :: map tokenOf pre)
    /\ consoleLabels (trace st')
       = consoleLabels (trace st) ++ serverLabels last ++ pagerLabels last.
Proof.
  intros Hauth Hpre Hlast.
  induction pre as [|page pre IH]; intros token acc st.
  - cbn [app activityPager].
    rewrite (fetchActivities_run _ _ _ _ _ _ _ Hauth). cbv zeta.
    destruct last as [r|err].
    + cbn [fa_error truthyOpt fa_nextPageToken fa_activities].
      simpl in Hlast. rewrite Hlast. cbn [negb].
      eexists. split; [cbn; rewrite app_nil_r; reflexivity|].
      cbn [afterRequest trace]. autorewrite with views.
      cbn. rewrite !app_nil_r. split; reflexivity.
    + cbn [fa_error truthyOpt fa_nextPageToken fa_activities].
      unfold serverLabels, pagerLabels.
      destruct (truthy (errorMessage err (js "Unknown error"))).
      * eexists. split; [cbn; rewrite !app_nil_r; reflexivity|].
        unfold bind, consoleLog, emit, ret;
          cbn [snd trace afterLog afterRequest].
        autorewrite with views.
        cbn. rewrite !app_nil_r. split; [reflexivity|].
        now rewrite <- app_assoc.
      * cbn [negb]. eexists.
        split; [cbn; rewrite !app_nil_r; reflexivity|].
        cbn [trace afterLog afterRequest].
        autorewrite with views.
        cbn. rewrite !app_nil_r. split; reflexivity.
  - cbn [forallb] in Hpre. apply andb_true_iff in Hpre as [Hpage Hpre].
    specialize (IH Hpre).
    cbn [app activityPager].
    rewrite (fetchActivities_run _ _ _ _ _ _ _ Hauth). cbv zeta.
    destruct page as [r|err]; [|discriminate].
    cbn [fa_error truthyOpt fa_nextPageToken fa_activities].
    simpl in Hpage. rewrite Hpage. cbn [negb].
    destruct (IH (past_nextPageToken r) (acc ++ pageRides w (Ok r))
                (afterRequest w (ReqActivities (pageVariables s e token)) st))
      as [st' [Hrun [Hreq Hlog]]].
    exists st'. split.
    + rewrite Hrun. cbn [flat_map app]. now rewrite <- app_assoc.
    + split.
      * rewrite Hreq. cbn [afterRequest trace]. rewrite pageRequests_app.
        cbn. rewrite <- app_assoc. reflexivity.
      * rewrite Hlog. cbn [afterRequest trace].
        rewrite consoleLabels_app. cbn. now rewrite app_nil_r.
Qed.

(** While every answer carries a token the loop goes on asking. *)
Lemma activityPager_waits (w : World) (auth : UberAuthCredentials) (s e : Z)
  (answers : list (Outcome UberActivitiesResponse)) :
  truthy (cookie auth) && truthy (csrfToken auth) = true ->
  forallb hasMore answers = true ->
  forall token acc st, activityPager w auth s e answers token acc st = None.
Proof.
  intros Hauth. induction answers as [|page answers IH]; intros H token acc st.
  - reflexivity.
  - cbn [forallb] in H. apply andb_true_iff in H as [Hpage H].
    cbn [activityPager].
    rewrite (fetchActivities_run _ _ _ _ _ _ _ Hauth). cbv zeta.
    destruct page as [r|err]; [|discriminate].
    cbn [fa_error truthyOpt fa_nextPageToken fa_activities].
    simpl in Hpage. rewrite Hpage. cbn [negb]. now apply IH.
Qed.




(* ===================================================================== *)
(** * Properties: batches *)
(* ===================================================================== *)

Section Chunks.
Context {X : Type}.
Variable size : nat.
Hypothesis size_pos : (0 < size)%nat.

Lemma chunksOf_concat (turns : nat) (l : list X) :
  (List.length l <= turns)%nat -> List.concat (chunksOf size turns l) = l.
Proof.
  revert l; induction turns as [|t IH]; intros l H.
  - destruct l; [reflexivity | simpl in H; lia].
  - destruct l as [|x l]; [reflexivity|].
    cbn [chunksOf List.concat]. rewrite IH.
    + apply firstn_skipn.
    + rewrite length_skipn. cbn [List.length] in *. lia.
Qed.

Lemma chunksOf_fuel (t1 t2 : nat) (l : list X) :
  (List.length l <= t1)%nat -> (List.length l <= t2)%nat ->
  chunksOf size t1 l = chunksOf size t2 l.
Proof.
  revert t2 l; induction t1 as [|t1 IH]; intros t2 l H1 H2.
  - destruct l; [destruct t2; reflexivity | simpl in H1; lia].
  - destruct l as [|x l]; [destruct t2; reflexivity|].
    destruct t2 as [|t2]; [simpl in H2; lia|].
    cbn [chunksOf]. f_equal.
    apply IH; rewrite length_skipn; cbn [List.length] in *; lia.
Qed.

Lemma chunksOf_length (turns : nat) (l : list X) :
  (List.length l <= turns)%nat ->
  List.length (chunksOf size turns l)
  = ((List.length l + size - 1) / size)%nat.
Proof.
  revert l; induction turns as [|t IH]; intros l H.
  - destruct l; [|simpl in H; lia]. simpl.
    symmetry. apply Nat.div_small. lia.
  - destruct l as [|x l].
    + simpl. symmetry. apply Nat.div_small. lia.
    + assert (Hn : (0 < List.length (x :: l))%nat) by (simpl; lia).
      change (chunksOf size (S t) (x :: l))
        with (firstn size (x :: l) :: chunksOf size t (skipn size (x :: l))).
      remember (x :: l) as l' eqn:El. clear El.
      cbn [List.length]. rewrite IH by (rewrite length_skipn; lia).
      rewrite length_skipn.
      set (n := List.length l') in *.
      destruct (Nat.le_gt_cases size n) as [Hle|Hgt].
      * replace (n + size - 1)%nat with ((n - size + size - 1) + 1 * size)%nat
          by lia.
        rewrite Nat.div_add by lia. lia.
      * replace (n - size)%nat with 0%nat by lia.
        replace (0 + size - 1)%nat with (size - 1)%nat by lia.
        rewrite (Nat.div_small (size - 1)) by lia.
        replace (n + size - 1)%nat with ((n - 1) + 1 * size)%nat by lia.
        rewrite Nat.div_add by lia.
        rewrite (Nat.div_small (n - 1)) by lia. reflexivity.
Qed.

Lemma chunksOf_nth (turns : nat) (l : list X) (k : nat) :
  (List.length l <= turns)%nat ->
  nth k (chunksOf size turns l) [] = slice (k * size) (k * size + size) l.
Proof.
  unfold slice. replace (k * size + size - k * size)%nat with size by lia.
  revert l k; induction turns as [|t IH]; intros l k H.
  - destruct l; [|simpl in H; lia].
    rewrite skipn_nil, firstn_nil. destruct k; reflexivity.
  - destruct l as [|x l].
    + rewrite skipn_nil, firstn_nil. destruct k; reflexivity.
    + cbn [chunksOf]. destruct k as [|k].
      * reflexivity.
      * cbn [nth]. rewrite IH by (rewrite length_skipn; cbn [List.length] in *; lia).
        rewrite skipn_skipn. f_equal. f_equal. lia.
Qed.

Lemma chunksOf_sizes (turns : nat) (l : list X) :
  Forall (fun c => (1 <= List.length c <= size)%nat) (chunksOf size turns l).
Proof.
  revert l; induction turns as [|t IH]; intros l.
  - constructor.
  - destruct l as [|x l]; [constructor|].
    cbn [chunksOf]. constructor; [|apply IH].
    rewrite length_firstn. simpl. lia.
Qed.

Lemma chunksOf_segment (turns : nat) (l c : list X) :
  In c (chunksOf size turns l) -> exists pre post, l = pre ++ c ++ post.
Proof.
  revert l; induction turns as [|t IH]; intros l H.
  - contradiction.
  - destruct l as [|x l]; [contradiction|].
    cbn [chunksOf] in H. destruct H as [<- | H].
    + exists [], (skipn size (x :: l)). cbn [app]. symmetry.
      apply firstn_skipn.
    + apply IH in H as [pre [post E]].
      exists (firstn size (x :: l) ++ pre), post.
      rewrite <- app_assoc, <- E. symmetry. apply firstn_skipn.
Qed.

Lemma chunksOf_map {Y} (f : X -> Y) (turns : nat) (l : list X) :
  chunksOf size turns (map f l) = map (map f) (chunksOf size turns l).
Proof.
  revert l; induction turns as [|t IH]; intros l.
  - reflexivity.
  - destruct l as [|x l]; [reflexivity|].
    change (map f (x :: l)) with (f x :: map f l) at 1.
    cbn [chunksOf map]. change (f x :: map f l) with (map f (x :: l)).
    now rewrite firstn_map, skipn_map, IH.
Qed.
End Chunks.

Lemma list_sum_concat {X} (ls : list (list X)) :
  list_sum (map (@List.length X) ls) = List.length (List.concat ls).
Proof.
  induction ls as [|c ls IH]; simpl.
  - reflexivity.
  - now rewrite length_app, IH.
Qed.


(* ===================================================================== *)
(** * Properties: the detail enricher *)
(* ===================================================================== *)

Lemma tripDetailTask_run (w : World) (tripUUID : jsstring) (st : ST) :
  tripDetailTask w tripUUID st
  = (tripResultOf w tripUUID, afterRequest w (ReqGetTrip tripUUID) st).
Proof.
  unfold tripDetailTask, tripResultOf, request.
  destruct (getTripAnswer w tripUUID); reflexivity.
Qed.

Lemma collectTripResults_map (w : World) (ids : list jsstring) :
  collectTripResults (map (tripResultOf w) ids)
  = {| td_rides := flat_map (detailOf w) ids;
       td_errors := flat_map (detailError w) ids |}.
Proof.
  induction ids as [|id ids IH]; cbn [map collectTripResults flat_map].
  - reflexivity.
  - rewrite IH. unfold tripResultOf, detailOf, detailError.
    destruct (getTripAnswer w id); reflexivity.
Qed.

(** [fetchMultipleTripDetails] on valid input never fails: it returns the
    rides of the identifiers whose request succeeded, in the order of the
    identifiers, and one error text for each of the others; every
    identifier is asked for once, in the order of completion. *)
Lemma fetchMultipleTripDetails_run (w : World) (auth : UberAuthCredentials)
  (batch : list jsstring) (st : ST) :
  truthy (cookie auth) && truthy (csrfToken auth) = true ->
  batch <> [] ->
  exists st' order,
    fetchMultipleTripDetails w auth batch st
    = (Ok {| td_rides := flat_map (detailOf w) batch;
             td_errors := flat_map (detailError w) batch |}, st')
    /\ Permutation order batch
    /\ trace st' = trace st ++ tripEvents order.
Proof.
  intros Hauth Hne. unfold fetchMultipleTripDetails, bind.
  rewrite (requireAuth_ok _ _ Hauth).
  destruct batch as [|id0 batch0]; [contradiction|].
  set (batch := id0 :: batch0).
  pose proof (promiseAll_map w (tripDetailTask w) (tripResultOf w) batch st
                (fun a s => f_equal fst (tripDetailTask_run w a s))) as Hres.
  destruct (promiseAll_view w (tripDetailTask w) (fun tr => tr)
              (fun id => [EvRequest (ReqGetTrip id)]) batch st
              (fun a s => f_equal (fun p => trace (snd p))
                            (tripDetailTask_run w a s)))
    as [order [Hperm Htr]].
  destruct (promiseAll w (tripDetailTask w) batch st) as [results st'].
  cbn [fst snd] in *. subst results.
  exists st', order. rewrite collectTripResults_map.
  split; [reflexivity|]. split; [exact Hperm|].
  rewrite Htr. unfold tripEvents. apply f_equal.
  clear. induction order as [|id order IH]; simpl; [reflexivity|].
  now rewrite IH.
Qed.

Lemma enrichBatch_run (w : World) (auth : UberAuthCredentials)
  (allActivities : list TransformedRide) (batch : list jsstring) (st : ST) :
  truthy (cookie auth) && truthy (csrfToken auth) = true ->
  batch <> [] ->
  exists st' order,
    enrichBatch w auth allActivities batch st
    = (Ok (statedBatch w allActivities batch), st')
    /\ Permutation order batch
    /\ trace st' = trace st ++ tripEvents order.
Proof.
  intros Hauth Hne.
  destruct (fetchMultipleTripDetails_run w auth batch st Hauth Hne)
    as [st' [order [Hrun [Hperm Htr]]]].
  exists st', order. split; [|split; assumption].
  unfold enrichBatch, bind. rewrite Hrun. cbn [td_rides].
  unfold statedBatch. destruct (flat_map (detailOf w) batch); reflexivity.
Qed.

(** The loop of step 2 from index [i]: the batches of the identifiers from
    [i] on are enriched one after the other. *)
Lemma enrichFrom_run (w : World) (auth : UberAuthCredentials)
  (allActivities : list TransformedRide) (tripUUIDs : list jsstring) :
  truthy (cookie auth) && truthy (csrfToken auth) = true ->
  forall turns i acc st,
    (List.length (skipn i tripUUIDs) <= turns)%nat ->
    exists st' segments,
      enrichFrom w turns auth allActivities tripUUIDs i acc st
      = (Ok (acc ++ flat_map (statedBatch w allActivities)
                      (chunksOf batchSize turns (skipn i tripUUIDs))), st')
      /\ Forall2 (fun batch segment => Permutation segment batch)
           (chunksOf batchSize turns (skipn i tripUUIDs)) segments
      /\ trace st' = trace st ++ tripEvents (List.concat segments).
Proof.
  intros Hauth. induction turns as [|t IH]; intros i acc st Hlen.
  - exists st, []. cbn. rewrite !app_nil_r. repeat split; try constructor.
  - cbn [enrichFrom].
    destruct (Nat.ltb_spec i (List.length tripUUIDs)) as [Hi|Hi].
    + assert (Hrest : skipn i tripUUIDs <> []).
      { intros E. apply (f_equal (@List.length _)) in E.
        rewrite length_skipn in E. simpl in E. lia. }
      assert (Hslice : slice i (i + batchSize) tripUUIDs
                       = firstn batchSize (skipn i tripUUIDs)).
      { unfold slice. f_equal. lia. }
      rewrite Hslice.
      assert (Hbatch : firstn batchSize (skipn i tripUUIDs) <> []).
      { destruct (skipn i tripUUIDs); [contradiction | discriminate]. }
      destruct (enrichBatch_run w auth allActivities _ st Hauth Hbatch)
        as [st1 [order [Hrun [Hperm Htr]]]].
      unfold bind at 1. rewrite Hrun.
      destruct (IH (i + batchSize)%nat
                  (acc ++ statedBatch w allActivities
                            (firstn batchSize (skipn i tripUUIDs))) st1)
        as [st' [segments [Hrec [Hsegs Htr']]]].
      { rewrite length_skipn in *. unfold batchSize. lia. }
      replace (skipn (i + batchSize) tripUUIDs)
        with (skipn batchSize (skipn i tripUUIDs)) in *
        by (rewrite skipn_skipn; f_equal; lia).
      exists st', (order :: segments). rewrite Hrec.
      destruct (skipn i tripUUIDs) as [|x rest] eqn:E; [contradiction|].
      cbn [chunksOf flat_map List.concat]. split.
      * now rewrite <- app_assoc.
      * split; [constructor; assumption|].
        rewrite Htr', Htr. unfold tripEvents.
        now rewrite map_app, <- app_assoc.
    + rewrite skipn_all2 by lia.
      exists st, []. cbn. rewrite !app_nil_r. repeat split; try constructor.
Qed.

(** Step 2 as a whole. *)
Lemma enrichRides_run (w : World) (auth : UberAuthCredentials)
  (allActivities : list TransformedRide) (st : ST) :
  truthy (cookie auth) && truthy (csrfToken auth) = true ->
  exists st' segments,
    enrichRides w auth allActivities st
    = (Ok (flat_map (statedBatch w allActivities)
             (batches (map rideId allActivities))), st')
    /\ Forall2 (fun batch segment => Permutation segment batch)
         (batches (map rideId allActivities)) segments
    /\ trace st' = trace st ++ tripEvents (List.concat segments).
Proof.
  intros Hauth. unfold enrichRides.
  destruct allActivities as [|a0 acts0].
  - exists st, []. cbn. rewrite app_nil_r. repeat split; try constructor.
  - set (acts := a0 :: acts0).
    destruct (enrichFrom_run w auth acts (map rideId acts) Hauth
                (S (List.length (map rideId acts))) 0 [] st)
      as [st' [segments [Hrun [Hsegs Htr]]]].
    { cbn [skipn]. lia. }
    cbn [skipn app] in Hrun, Hsegs.
    assert (E : chunksOf batchSize (S (List.length (map rideId acts)))
                  (map rideId acts) = batches (map rideId acts)).
    { unfold batches. apply chunksOf_fuel; unfold batchSize; lia. }
    rewrite E in Hrun, Hsegs.
    exists st', segments. repeat split; assumption.
Qed.

Lemma detailOf_all_fail (w : World) (batch : list jsstring) :
  (forall id, In id batch -> isThrow (getTripAnswer w id) = true) ->
  flat_map (detailOf w) batch = [].
Proof.
  induction batch as [|id batch IH]; intros H; cbn [flat_map].
  - reflexivity.
  - rewrite IH by (intros; apply H; now right).
    unfold detailOf. specialize (H id (or_introl eq_refl)).
    destruct (getTripAnswer w id); [discriminate | reflexivity].
Qed.

Lemma detailOf_some_success (w : World) (batch : list jsstring)
  (id : jsstring) :
  In id batch -> isThrow (getTripAnswer w id) = false ->
  flat_map (detailOf w) batch <> [].
Proof.
  intros Hin Hok E.
  assert (Hall : forall x, In x (flat_map (detailOf w) batch) -> False)
    by (rewrite E; intros x []).
  unfold detailOf in Hall.
  destruct (getTripAnswer w id) as [response|] eqn:Ha; [|discriminate].
  apply (Hall (rideOfTrip response)).
  apply in_flat_map. exists id. split; [exact Hin|]. rewrite Ha. now left.
Qed.

(** C2. The detail enricher, batch by batch. With valid credentials a
    batch never fails, whatever its identifiers do. When every detail
    request of the batch fails, the summary records of the batch's
    identifiers are pushed instead of nothing. When some succeed, the rides
    of those are pushed, in the order of the identifiers, and the
    identifiers that failed give no ride and no summary record (only an
    error text in the result of the server function). The enrichment as a
    whole is the batches' results one after the other, so no batch is
    affected by a failure in another. *)
Theorem C2_detail_fallback (w : World) (auth : UberAuthCredentials)
  (allActivities : list TransformedRide) :
  truthy (cookie auth) && truthy (csrfToken auth) = true ->
  (forall batch st,
      batch <> [] ->
      exists st',
        fetchMultipleTripDetails w auth batch st
        = (Ok {| td_rides := flat_map (detailOf w) batch;
                 td_errors := flat_map (detailError w) batch |}, st')
        /\ enrichBatch w auth allActivities batch st
           = (Ok (statedBatch w allActivities batch), st'))
  /\ (forall batch,
         (forall id, In id batch -> isThrow (getTripAnswer w id) = true) ->
         statedBatch w allActivities batch
         = filter (fun a => arrayIncludes batch (rideId a)) allActivities)
  /\ (forall batch id,
         In id batch -> isThrow (getTripAnswer w id) = false ->
         statedBatch w allActivities batch = flat_map (detailOf w) batch
         /\ forall failed,
             isThrow (getTripAnswer w failed) = true ->
             detailOf w failed = [])
  /\ (forall st,
         exists st',
           enrichRides w auth allActivities st
           = (Ok (flat_map (statedBatch w allActivities)
                    (batches (map rideId allActivities))), st')).
Proof.
  intros Hauth. split; [|split; [|split]].
  - intros batch st Hne.
    destruct (fetchMultipleTripDetails_run w auth batch st Hauth Hne)
      as [st' [order [Hrun _]]].
    exists st'. split; [exact Hrun|].
    unfold enrichBatch, bind. rewrite Hrun. cbn [td_rides].
    unfold statedBatch. destruct (flat_map (detailOf w) batch); reflexivity.
  - intros batch H. unfold statedBatch.
    now rewrite (detailOf_all_fail w batch H).
  - intros batch id Hin Hok. split.
    + pose proof (detailOf_some_success w batch id Hin Hok) as Hne.
      unfold statedBatch.
      destruct (flat_map (detailOf w) batch); [contradiction | reflexivity].
    + intros failed Hf. unfold detailOf.
      destruct (getTripAnswer w failed); [discriminate | reflexivity].
  - intros st.
    destruct (enrichRides_run w auth allActivities st Hauth)
      as [st' [segments [Hrun _]]].
    exists st'. exact Hrun.
Qed.

(** Summary records of four trips, of which the provider knows [t1] and
    [t2]: a batch of [t1] and [t7] keeps the ride of [t1] only, a batch of
    [t7] and [t8] falls back to their two summary records. *)
Lemma C2_detail_fallback_witness :
  let acts := [ sampleRide "t1" numZero "INR" "16 Nov 2025 22:33";
                sampleRide "t7" numZero "INR" "17 Nov 2025 08:10";
                sampleRide "t2" numZero "INR" "18 Nov 2025 09:00";
                sampleRide "t8" numZero "INR" "19 Nov 2025 10:00" ] in
  truthy (cookie sampleAuth) && truthy (csrfToken sampleAuth) = true
  /\ statedBatch sampleWorld acts [js "t1"; js "t7"]
     = [rideOfTrip (sampleTrip "t1" "₹84.38" "UberXL")]
  /\ statedBatch sampleWorld acts [js "t7"; js "t8"]
     = [ sampleRide "t7" numZero "INR" "17 Nov 2025 08:10";
         sampleRide "t8" numZero "INR" "19 Nov 2025 10:00" ]
  /\ exists st',
      enrichBatch sampleWorld sampleAuth acts [js "t7"; js "t8"] st0
      = (Ok [ sampleRide "t7" numZero "INR" "17 Nov 2025 08:10";
              sampleRide "t8" numZero "INR" "19 Nov 2025 10:00" ], st').
Proof.
  cbv zeta.
  set (acts := [ sampleRide "t1" numZero "INR" "16 Nov 2025 22:33";
                 sampleRide "t7" numZero "INR" "17 Nov 2025 08:10";
                 sampleRide "t2" numZero "INR" "18 Nov 2025 09:00";
                 sampleRide "t8" numZero "INR" "19 Nov 2025 10:00" ]).
  assert (Hauth : truthy (cookie sampleAuth) && truthy (csrfToken sampleAuth)
                  = true) by reflexivity.
  destruct (C2_detail_fallback sampleWorld sampleAuth acts Hauth)
    as [Hbatch [Hfail [Hsome _]]].
  split; [exact Hauth|]. split; [|split].
  - destruct (Hsome [js "t1"; js "t7"] (js "t1") (or_introl eq_refl) eq_refl)
      as [E _].
    rewrite E. reflexivity.
  - rewrite Hfail; [reflexivity|].
    intros id [<- | [<- | []]]; reflexivity.
  - destruct (Hbatch [js "t7"; js "t8"] st0 ltac:(discriminate))
      as [st' [_ E]].
    exists st'. rewrite E, Hfail; [reflexivity|].
    intros id [<- | [<- | []]]; reflexivity.
Defined.

(** The two steps together on the sample provider: three activities on two
    pages; the detail of [t7] fails and its ride is dropped (the sample
    provider answers [t2] before [t7]); the start text of an activity is
    its date with the year of the server's clock. *)
Lemma handleFetchRides_scenario :
  startTime (transformActivity sampleWorld
               (sampleActivity "t1" "https://cdn.example/UberX.png"))
  = js "16 Nov 2025 22:33"
  /\ exists enriched st,
      handleFetchRides sampleLibs sampleWorld (Some sampleAuth)
        (Some 1763251200000) None samplePages st0
      = Some (Some enriched, st)
      /\ map rideId enriched = [js "t1"; js "t2"]
      /\ map isAutoRide enriched = [false; true]
      /\ List.length (pageRequests (trace st)) = 2%nat
      /\ Permutation (tripRequests (trace st)) [js "t1"; js "t7"; js "t2"].
Proof.
  split; [vm_compute; reflexivity|].
  eexists _, _. split; [vm_compute; reflexivity|].
  split; [vm_compute; reflexivity|]. split; [vm_compute; reflexivity|].
  split; [vm_compute; reflexivity|].
  vm_compute. apply perm_skip, perm_swap.
Qed.

(* ===================================================================== *)
(** * Properties: batching and order *)
(* ===================================================================== *)

Lemma arrayIncludes_In (batch : list jsstring) (id : jsstring) :
  arrayIncludes batch id = true <-> In id batch.
Proof.
  unfold arrayIncludes. rewrite existsb_exists. split.
  - intros [x [Hin Hx]]. apply jseqb_eq in Hx. now subst.
  - intros Hin. exists id. split; [exact Hin | now apply jseqb_eq].
Qed.

Lemma filter_all {X} (f : X -> bool) (l : list X) :
  (forall x, In x l -> f x = true) -> filter f l = l.
Proof.
  induction l as [|x l IH]; intros H; simpl.
  - reflexivity.
  - rewrite (H x (or_introl eq_refl)), IH; auto.
    intros; apply H; now right.
Qed.

Lemma filter_none {X} (f : X -> bool) (l : list X) :
  (forall x, In x l -> f x = false) -> filter f l = [].
Proof.
  induction l as [|x l IH]; intros H; simpl.
  - reflexivity.
  - rewrite (H x (or_introl eq_refl)), IH; auto.
    intros; apply H; now right.
Qed.

Lemma NoDup_app_disjoint {X} (l1 l2 : list X) (x : X) :
  NoDup (l1 ++ l2) -> In x l1 -> In x l2 -> False.
Proof.
  induction l1 as [|y l1 IH]; intros Hnd H1 H2.
  - contradiction.
  - cbn [app] in Hnd. inversion Hnd as [|? ? Hnot Hnd']; subst.
    destruct H1 as [-> | H1].
    + apply Hnot. apply in_or_app. now right.
    + now apply IH.
Qed.

(** With distinct identifiers, the summary records selected by the
    identifiers of a stretch of the list are that stretch. *)
Lemma filter_segment (pre mid post : list TransformedRide) :
  NoDup (map rideId (pre ++ mid ++ post)) ->
  filter (fun a => arrayIncludes (map rideId mid) (rideId a))
    (pre ++ mid ++ post) = mid.
Proof.
  intros Hnd. rewrite !map_app in Hnd. rewrite !filter_app.
  rewrite filter_none, filter_all, filter_none.
  - now rewrite app_nil_r.
  - intros a Ha. apply not_true_is_false. intros Hin.
    apply arrayIncludes_In in Hin.
    apply NoDup_app_remove_l in Hnd.
    apply (NoDup_app_disjoint _ _ (rideId a) Hnd Hin). now apply in_map.
  - intros a Ha. apply arrayIncludes_In. now apply in_map.
  - intros a Ha. apply not_true_is_false. intros Hin.
    apply arrayIncludes_In in Hin.
    apply (NoDup_app_disjoint _ _ (rideId a) Hnd).
    + now apply in_map.
    + apply in_or_app. now left.
Qed.

(** What a batch gives is made of what its identifiers stand for, in
    order. *)
Lemma statedBatch_contributions (w : World)
  (allActivities chunk : list TransformedRide) :
  (forall a, In a chunk -> In a allActivities) ->
  filter (fun a => arrayIncludes (map rideId chunk) (rideId a)) allActivities
  = chunk ->
  exists contributions,
    Forall2 (fromIdentifier w allActivities) (map rideId chunk) contributions
    /\ statedBatch w allActivities (map rideId chunk)
       = List.concat contributions.
Proof.
  intros Hsub Hfilter. unfold statedBatch. rewrite Hfilter.
  destruct (flat_map (detailOf w) (map rideId chunk)) as [|d ds] eqn:E.
  - exists (map (fun a => [a]) chunk). split.
    + clear -Hsub. induction chunk as [|a chunk IH]; simpl; constructor.
      * right; right. exists a. repeat split. apply Hsub. now left.
      * apply IH. intros; apply Hsub; now right.
    + clear. induction chunk as [|a chunk IH]; simpl; congruence.
  - rewrite <- E. exists (map (detailOf w) (map rideId chunk)). split.
    + clear. induction (map rideId chunk) as [|id ids IH]; simpl;
        constructor; [|exact IH].
      unfold detailOf, fromIdentifier.
      destruct (getTripAnswer w id) as [response|]; [|now left].
      right; left. exists response. split; reflexivity.
    + apply flat_map_concat_map.
Qed.

Lemma statedBatches_contributions (w : World)
  (allActivities : list TransformedRide)
  (chunks : list (list TransformedRide)) :
  (forall chunk, In chunk chunks ->
     (forall a, In a chunk -> In a allActivities)
     /\ filter (fun a => arrayIncludes (map rideId chunk) (rideId a))
          allActivities = chunk) ->
  exists contributions,
    Forall2 (fromIdentifier w allActivities)
      (map rideId (List.concat chunks)) contributions
    /\ flat_map (statedBatch w allActivities) (map (map rideId) chunks)
       = List.concat contributions.
Proof.
  induction chunks as [|chunk chunks IH]; intros H.
  - exists []. split; [constructor | reflexivity].
  - destruct (H chunk (or_introl eq_refl)) as [Hsub Hfilter].
    destruct (statedBatch_contributions w allActivities chunk Hsub Hfilter)
      as [c1 [F1 E1]].
    destruct IH as [c2 [F2 E2]]; [intros; apply H; now right|].
    exists (c1 ++ c2). cbn [List.concat map flat_map].
    rewrite map_app, concat_app, E1, E2.
    split; [now apply Forall2_app | reflexivity].
Qed.

(** With distinct identifiers the enriched rides follow the order of the
    identifiers. *)
Lemma statedBatches_keep_order (w : World)
  (allActivities : list TransformedRide) :
  NoDup (map rideId allActivities) ->
  keepsIdentifierOrder w allActivities
    (flat_map (statedBatch w allActivities)
       (batches (map rideId allActivities))).
Proof.
  intros Hnd. unfold keepsIdentifierOrder, batches.
  rewrite length_map, chunksOf_map.
  destruct (statedBatches_contributions w allActivities
              (chunksOf batchSize (List.length allActivities) allActivities))
    as [contributions [F E]].
  - intros chunk Hin.
    apply chunksOf_segment in Hin as [pre [post Hacts]].
    split.
    + intros a Ha. rewrite Hacts. apply in_or_app. right.
      apply in_or_app. now left.
    + rewrite Hacts. apply filter_segment. now rewrite <- Hacts.
  - exists contributions. split; [|exact E].
    rewrite chunksOf_concat in F; [exact F | unfold batchSize; lia | lia].
Qed.


Lemma fromIdentifier_length (w : World) (allActivities : list TransformedRide)
  (id : jsstring) (c : list TransformedRide) :
  fromIdentifier w allActivities id c -> (List.length c <= 1)%nat.
Proof.
  intros [-> | [[response [_ ->]] | [a [_ [_ ->]]]]]; simpl; lia.
Qed.

Lemma keepsIdentifierOrder_length (w : World)
  (allActivities output : list TransformedRide) :
  keepsIdentifierOrder w allActivities output ->
  (List.length output <= List.length allActivities)%nat.
Proof.
  intros [contributions [F ->]].
  rewrite <- (length_map rideId allActivities).
  induction F as [|id c ids cs H _ IH]; simpl.
  - lia.
  - rewrite length_app. apply fromIdentifier_length in H. lia.
Qed.

(** C4 (as amended). The identifiers are cut into ceil(n/10) batches (the
    least number of tens that covers n); batch
    [k] is the slice from [10k] to [10k+10], so the batches are contiguous,
    in order, and together the whole list; each holds between 1 and 10
    identifiers and the sizes add up to n. The detail requests of a batch
    all come before those of the next batch. With pairwise distinct
    identifiers the enriched rides follow the order of the identifiers:
    each identifier is replaced, in place, by the ride of its detail
    answer, by its summary record, or by nothing. *)
Theorem C4_batched_enrichment (w : World) (auth : UberAuthCredentials)
  (allActivities : list TransformedRide) (st : ST) :
  truthy (cookie auth) && truthy (csrfToken auth) = true ->
  let ids := map rideId allActivities in
  let bs := batches ids in
  List.length bs = ((List.length ids + 9) / 10)%nat
  /\ (List.length ids <= 10 * List.length bs < List.length ids + 10)%nat
  /\ List.concat bs = ids
  /\ (forall k, nth k bs [] = slice (k * 10) (k * 10 + 10) ids)
  /\ Forall (fun b => (1 <= List.length b <= 10)%nat) bs
  /\ list_sum (map (@List.length jsstring) bs) = List.length ids
  /\ (exists st' segments,
         enrichRides w auth allActivities st
         = (Ok (flat_map (statedBatch w allActivities) bs), st')
         /\ Forall2 (fun batch segment => Permutation segment batch)
              bs segments
         /\ trace st' = trace st ++ tripEvents (List.concat segments))
  /\ (NoDup ids ->
      keepsIdentifierOrder w allActivities
        (flat_map (statedBatch w allActivities) bs)).
Proof.
  intros Hauth ids bs.
  assert (Hpos : (0 < batchSize)%nat) by (unfold batchSize; lia).
  assert (Hconcat : List.concat bs = ids)
    by (apply chunksOf_concat; [exact Hpos | lia]).
  assert (Hlen : List.length bs = ((List.length ids + 9) / 10)%nat).
  { unfold bs, batches. rewrite chunksOf_length by (auto; lia).
    unfold batchSize. f_equal. lia. }
  split; [|split; [|split; [|split; [|split; [|split; [|split]]]]]].
  - exact Hlen.
  - rewrite Hlen.
    pose proof (Nat.div_mod_eq (List.length ids + 9) 10) as Hdiv.
    pose proof (Nat.mod_upper_bound (List.length ids + 9) 10
                  ltac:(discriminate)) as Hmod.
    lia.
  - exact Hconcat.
  - intros k. unfold bs, batches.
    rewrite (chunksOf_nth batchSize Hpos) by lia. reflexivity.
  - apply (chunksOf_sizes batchSize Hpos).
  - rewrite list_sum_concat. now rewrite Hconcat.
  - apply enrichRides_run. exact Hauth.
  - apply statedBatches_keep_order.
Qed.

(** Eleven distinct identifiers against the sample provider: two batches,
    of ten and of one. *)
Lemma C4_batched_enrichment_witness :
  truthy (cookie sampleAuth) && truthy (csrfToken sampleAuth) = true
  /\ NoDup (map rideId distinctActivities)
  /\ map (@List.length jsstring) (batches (map rideId distinctActivities))
     = [10; 1]%nat
  /\ keepsIdentifierOrder sampleWorld distinctActivities
       (flat_map (statedBatch sampleWorld distinctActivities)
          (batches (map rideId distinctActivities)))
  /\ map rideId
       (flat_map (statedBatch sampleWorld distinctActivities)
          (batches (map rideId distinctActivities)))
     = [js "t1"; js "t2"; js "a9"].
Proof.
  assert (Hauth : truthy (cookie sampleAuth) && truthy (csrfToken sampleAuth)
                  = true) by reflexivity.
  assert (Hnd : NoDup (map rideId distinctActivities)).
  { vm_compute.
    repeat (constructor;
            [intros H; simpl in H;
             repeat (destruct H as [H|H]; [discriminate|]); exact H|]).
    constructor. }
  destruct (C4_batched_enrichment sampleWorld sampleAuth distinctActivities
              st0 Hauth) as [_ [_ [_ [_ [_ [_ [_ Horder]]]]]]].
  split; [exact Hauth|]. split; [exact Hnd|]. split; [reflexivity|].
  split; [exact (Horder Hnd)|]. vm_compute. reflexivity.
Defined.

(** C4 (the claim as stated fails). Eleven activities whose first and last
    share an identifier, and a provider that is down: each of the two
    batches falls back to every summary record with one of its
    identifiers, so the output holds thirteen rides for eleven identifiers,
    with the first activity again after the last. *)
Lemma C4_repeated_identifier_counterexample :
  let acts := repeatedActivities in
  let d := sampleRide "" numZero "" "" in
  fst (enrichRides downWorld sampleAuth acts st0)
  = Ok (acts ++ [nth 0 acts d; nth 10 acts d])
  /\ nth 0 acts d <> nth 10 acts d
  /\ ~ keepsIdentifierOrder downWorld acts
        (acts ++ [nth 0 acts d; nth 10 acts d]).
Proof.
  cbv zeta. split; [vm_compute; reflexivity|].
  split; [vm_compute; discriminate|].
  intros H. apply keepsIdentifierOrder_length in H.
  vm_compute in H. lia.
Qed.


(* ===================================================================== *)
(** * Properties: the document merge *)
(* ===================================================================== *)

(** The merge loop never fails: it appends the pages of every payload that
    decodes, in the order of the list, and writes one console message for
    each payload that does not. *)
Lemma appendReceipts_run (L : Libs) (pdfs : list PdfData) :
  forall merged st,
    appendReceipts L merged pdfs st
    = (Ok (merged ++ pagesOf L pdfs),
       {| clock := clock st; ticks := ticks st;
          trace := trace st ++ mergeFailures L pdfs;
          cachedFontBytes := cachedFontBytes st |}).
Proof.
  induction pdfs as [|d pdfs IH]; intros merged st.
  - cbn. rewrite !app_nil_r. destruct st; reflexivity.
  - cbn [appendReceipts pagesOf mergeFailures flat_map].
    destruct (pdfLoad L (pd_pdfBase64 d)) as [pages|].
    + rewrite IH. fold (pagesOf L pdfs). fold (mergeFailures L pdfs).
      now rewrite <- app_assoc.
    + unfold bind, consoleLog, emit. rewrite IH.
      fold (pagesOf L pdfs). fold (mergeFailures L pdfs).
      cbn [clock ticks trace cachedFontBytes app].
      now rewrite <- app_assoc.
Qed.

Lemma loadGoogleSansFont_effects (w : World) (st : ST) :
  trace (snd (loadGoogleSansFont w st))
  = trace st ++ match cachedFontBytes st with
                | Some _ => []
                | None => [EvRequest (ReqFetch fontUrl)]
                end
  /\ (forall e, fst (loadGoogleSansFont w st) = Throw e ->
                cachedFontBytes st = None).
Proof.
  unfold loadGoogleSansFont.
  destruct (cachedFontBytes st) as [cached|].
  - cbn [fst snd]. rewrite app_nil_r. split; [reflexivity | discriminate].
  - unfold request.
    destruct (fetchAnswer w fontUrl) as [[body|status]|e]; auto.
Qed.

(** [generateSummaryPdf], step by step: the font is loaded, jsPDF draws the
    cover with it, and with receipts the cover is decoded and the receipts
    are appended. *)
Lemma generateSummaryPdf_run (L : Libs) (w : World)
  (summary : RidesSummary) (accountName : option jsstring)
  (pdfDataArray : option (list PdfData)) (st : ST) :
  generateSummaryPdf L w summary accountName pdfDataArray st
  = match loadGoogleSansFont w st with
    | (Throw e, st1) => (Throw e, st1)
    | (Ok font, st1) =>
        match jsPdfOutput L font
                (summaryDocument L summary accountName (clock st1)) with
        | Throw e => (Throw e, st1)
        | Ok cover =>
            match pdfDataArray with
            | None | Some [] => (Ok cover, st1)
            | Some pdfs =>
                match pdfLoad L cover with
                | None =>
                    (Throw (ErrorObject (js "Failed to parse PDF document")),
                     st1)
                | Some coverPages =>
                    (Ok (pdfSave L (coverPages ++ pagesOf L pdfs)),
                     {| clock := clock st1; ticks := ticks st1;
                        trace := trace st1 ++ mergeFailures L pdfs;
                        cachedFontBytes := cachedFontBytes st1 |})
                end
            end
        end
    end.
Proof.
  unfold generateSummaryPdf, bind at 1.
  destruct (loadGoogleSansFont w st) as [[font|e] st1]; [|reflexivity].
  unfold bind at 1. unfold dateNow at 1. unfold bind at 1, outcome at 1.
  destruct (jsPdfOutput L font _) as [cover|e]; [|reflexivity].
  destruct pdfDataArray as [[|d pdfs]|]; try reflexivity.
  destruct (pdfLoad L cover) as [coverPages|]; [|reflexivity].
  unfold bind. rewrite appendReceipts_run. reflexivity.
Qed.

Lemma pagesOf_app (L : Libs) (a b : list PdfData) :
  pagesOf L (a ++ b) = pagesOf L a ++ pagesOf L b.
Proof. apply flat_map_app. Qed.

Lemma choosePdfUrl_font (w : World) (warning tripUUID : jsstring)
  (isAutoRide : bool) (st : ST) :
  cachedFontBytes (snd (choosePdfUrl w warning tripUUID isAutoRide st))
  = cachedFontBytes st.
Proof.
  unfold choosePdfUrl. destruct isAutoRide; [reflexivity|].
  unfold bind, tryCatch, request, dateNow, ret, consoleLog, emit.
  destruct (invoiceFilesAnswer w tripUUID) as [[[|file files]|]|e];
    reflexivity.
Qed.

(** A task of [fetchMultipleReceiptPdfs] always yields an entry for its own
    trip, holding a payload or an error text, and leaves the font cache
    alone. *)
Lemma receiptTask_entry (w : World) (t : TripRef) (st : ST) :
  pe_rideId (fst (receiptTask w t st)) = tr_tripUUID t
  /\ entryReported (fst (receiptTask w t st)) = true
  /\ cachedFontBytes (snd (receiptTask w t st)) = cachedFontBytes st.
Proof.
  unfold receiptTask.
  pose proof (choosePdfUrl_font w
                (js "Invoice fetch failed for " ++ tr_tripUUID t
                 ++ js ", falling back to receipt:")
                (tr_tripUUID t) (tr_isAutoRide t) st) as Hfont.
  unfold bind.
  destruct (choosePdfUrl w _ (tr_tripUUID t) (tr_isAutoRide t) st)
    as [[pdfUrl|e] st1]; cbn [snd] in Hfont.
  - unfold downloadPdf, bind, request, ret, throw.
    destruct (fetchAnswer w pdfUrl) as [[body|status]|e];
      cbn; auto.
  - cbn; auto.
Qed.

(** The entries come in the order of the trips, whatever the order in which
    the fetches complete. *)
Lemma fetchMultipleReceiptPdfs_entries (w : World)
  (auth : UberAuthCredentials) (trips : list TripRef) (st : ST) :
  truthy (cookie auth) && truthy (csrfToken auth) = true ->
  trips <> [] ->
  exists entries st',
    fetchMultipleReceiptPdfs w auth trips st = (Ok entries, st')
    /\ Forall2 (fun t e => pe_rideId e = tr_tripUUID t
                           /\ entryReported e = true) trips entries
    /\ cachedFontBytes st' = cachedFontBytes st.
Proof.
  intros Hauth Hne. unfold fetchMultipleReceiptPdfs, bind.
  rewrite (requireAuth_ok _ _ Hauth).
  destruct trips as [|t0 trips0]; [contradiction|].
  set (trips := t0 :: trips0).
  pose proof (promiseAll_results w (receiptTask w)
                (fun t e => pe_rideId e = tr_tripUUID t
                            /\ entryReported e = true)
                (fun a s => conj (proj1 (receiptTask_entry w a s))
                              (proj1 (proj2 (receiptTask_entry w a s))))
                trips st) as Hres.
  pose proof (promiseAll_invariant w (receiptTask w)
                (fun s => cachedFontBytes s = cachedFontBytes st) trips st
                (fun s H => H)
                (fun a s _ H =>
                   eq_trans (proj2 (proj2 (receiptTask_entry w a s))) H)
                eq_refl) as Hfont.
  destruct (promiseAll w (receiptTask w) trips st) as [entries st'].
  exists entries, st'. cbn [fst snd] in *. repeat split; assumption.
Qed.

Lemma validPdfsOf_ids (entries : list PdfEntry) :
  map pd_rideId (validPdfsOf entries)
  = map pe_rideId (filter entryOk entries).
Proof.
  induction entries as [|e entries IH]; simpl.
  - reflexivity.
  - unfold entryOk at 1. destruct (pe_pdfBase64 e); simpl; now rewrite IH.
Qed.

Lemma downloads_app (a b : list Event) :
  downloads (a ++ b) = downloads a ++ downloads b.
Proof. apply flat_map_app. Qed.

Lemma downloads_mergeFailures (L : Libs) (pdfs : list PdfData) :
  downloads (mergeFailures L pdfs) = [].
Proof.
  unfold mergeFailures. induction pdfs as [|d pdfs IH]; cbn [flat_map].
  - reflexivity.
  - rewrite downloads_app, IH.
    destruct (pdfLoad L (pd_pdfBase64 d)); reflexivity.
Qed.

Lemma receiptTask_downloads (w : World) (t : TripRef) (st : ST) :
  downloads (trace (snd (receiptTask w t st))) = downloads (trace st) ++ [].
Proof.
  rewrite app_nil_r.
  unfold receiptTask, choosePdfUrl, downloadPdf.
  destruct (tr_isAutoRide t).
  - unfold_effects.
    destruct (fetchAnswer w _) as [[body|status]|e];
      cbn [snd trace]; rewrite downloads_app; cbn; apply app_nil_r.
  - unfold_effects.
    destruct (invoiceFilesAnswer w (tr_tripUUID t))
      as [[[|file files]|]|e0]; cbn [fst snd trace clock];
      destruct (fetchAnswer w _) as [[body|status]|e];
      cbn [snd trace]; repeat rewrite downloads_app; cbn;
      now rewrite ?app_nil_r.
Qed.

Lemma fetchMultipleReceiptPdfs_downloads (w : World)
  (auth : UberAuthCredentials) (trips : list TripRef) (st : ST) :
  downloads (trace (snd (fetchMultipleReceiptPdfs w auth trips st)))
  = downloads (trace st).
Proof.
  unfold fetchMultipleReceiptPdfs, bind, requireAuth.
  destruct (truthy (cookie auth) && truthy (csrfToken auth));
    [|reflexivity].
  unfold ret. destruct trips as [|t0 trips0]; [reflexivity|].
  destruct (promiseAll_view w (receiptTask w) downloads (fun _ => [])
              (t0 :: trips0) st (receiptTask_downloads w))
    as [order [_ Hview]].
  destruct (promiseAll w (receiptTask w) (t0 :: trips0) st) as [pdfs st'].
  cbn [snd] in *. rewrite Hview.
  clear. induction order; cbn; [apply app_nil_r | assumption].
Qed.

Lemma downloads_font (w : World) (st : ST) :
  downloads (trace (snd (loadGoogleSansFont w st))) = downloads (trace st).
Proof.
  rewrite (proj1 (loadGoogleSansFont_effects w st)), downloads_app.
  destruct (cachedFontBytes st); cbn; apply app_nil_r.
Qed.

(** The report, from the fetched entries on. *)
Lemma handleDownloadReport_cases (L : Libs) (w : World)
  (auth : UberAuthCredentials) (summary : Summary)
  (user : option UberCurrentUser) (st : ST)
  (entries : list PdfEntry) (st1 : ST) :
  selectedCount summary <> 0%nat ->
  fetchMultipleReceiptPdfs w auth (tripRefs summary) st = (Ok entries, st1) ->
  handleDownloadReport L w (Some auth) summary user st
  = match validPdfsOf entries with
    | [] => (Ok tt, afterLog (js "No PDFs were successfully fetched") st1)
    | valid =>
        match generateSummaryPdf L w
                (exportSummary (List.length valid) summary)
                (accountNameOf user) (Some valid) st1 with
        | (Ok mergedPdf, st2) =>
            (Ok tt,
             {| clock := clock st2; ticks := ticks st2;
                trace :=
                  trace st2
                  ++ [EvDownload
                        (js "uber_expenses_"
                         ++ format L (clock st2) (js "yyyy-MM-dd")
                         ++ js ".pdf")
                        (js "application/pdf") (inl mergedPdf)];
                cachedFontBytes := cachedFontBytes st2 |})
        | (Throw _, st2) =>
            (Ok tt, afterLog (js "Failed to download receipts:") st2)
        end
    end.
Proof.
  intros Hcount Hfetch. unfold handleDownloadReport.
  apply Nat.eqb_neq in Hcount. rewrite Hcount.
  unfold tryCatch, bind at 1. rewrite Hfetch.
  destruct (validPdfsOf entries) as [|d valid]; [reflexivity|].
  unfold bind at 1.
  destruct (generateSummaryPdf L w _ _ _ st1) as [[mergedPdf|e] st2];
    reflexivity.
Qed.

(** C3 (as amended). The merge loop appends to the cover's pages the pages
    of each document in list order, and a payload that does not decode is
    skipped (with a console message) without stopping the loop. The merged
    document is the cover's pages followed by the pages of the documents,
    whether the font was cached or is fetched for this export; without a
    cover (the font does not load, jsPDF throws, or the cover does not
    decode) there is no merged document. The documents are listed in the
    order of the selected trips whatever the order in which the fetches
    complete, and each fetch that fails is reported in its entry. The
    report handler downloads exactly one artifact, the cover's pages
    followed by the pages of the fetched documents in selection order,
    when at least one document was fetched and the cover was produced;
    when no document was fetched it writes "No PDFs were successfully
    fetched" and returns, and when the cover was not produced it writes
    "Failed to download receipts:" and returns: in both cases nothing is
    downloaded. *)
Theorem C3_document_merge (L : Libs) (w : World) :
  (forall merged pdfs st,
      fst (appendReceipts L merged pdfs st) = Ok (merged ++ pagesOf L pdfs))
  /\ (forall before d after,
         pdfLoad L (pd_pdfBase64 d) = None ->
         pagesOf L (before ++ d :: after)
         = pagesOf L before ++ pagesOf L after)
  /\ (forall summary accountName pdfs st,
         pdfs <> [] ->
         match coverPagesOf L w summary accountName st with
         | Some coverPages =>
             fst (generateSummaryPdf L w summary accountName (Some pdfs) st)
             = Ok (pdfSave L (coverPages ++ pagesOf L pdfs))
         | None =>
             isThrow (fst (generateSummaryPdf L w summary accountName
                             (Some pdfs) st)) = true
         end)
  /\ (forall auth trips st,
         truthy (cookie auth) && truthy (csrfToken auth) = true ->
         trips <> [] ->
         exists entries st',
           fetchMultipleReceiptPdfs w auth trips st = (Ok entries, st')
           /\ map pe_rideId entries = map tr_tripUUID trips
           /\ forallb entryReported entries = true
           /\ map pd_rideId (validPdfsOf entries)
              = map pe_rideId (filter entryOk entries))
  /\ (forall auth summary user st entries st1,
         selectedCount summary <> 0%nat ->
         fetchMultipleReceiptPdfs w auth (tripRefs summary) st
         = (Ok entries, st1) ->
         exists st',
           handleDownloadReport L w (Some auth) summary user st = (Ok tt, st')
           /\ downloads (trace st')
              = downloads (trace st)
                ++ match validPdfsOf entries with
                   | [] => []
                   | valid =>
                       match coverPagesOf L w
                               (exportSummary (List.length valid) summary)
                               (accountNameOf user) st1 with
                       | Some coverPages =>
                           [inl (pdfSave L (coverPages ++ pagesOf L valid))]
                       | None => []
                       end
                   end
           /\ (validPdfsOf entries = [] ->
               st' = afterLog (js "No PDFs were successfully fetched") st1)
           /\ (validPdfsOf entries <> [] ->
               coverPagesOf L w
                 (exportSummary (List.length (validPdfsOf entries)) summary)
                 (accountNameOf user) st1 = None ->
               st' = afterLog (js "Failed to download receipts:")
                       (snd (loadGoogleSansFont w st1)))).
Proof.
  split; [|split; [|split; [|split]]].
  - intros. now rewrite appendReceipts_run.
  - intros before d after H. rewrite pagesOf_app.
    change (d :: after) with ([d] ++ after). rewrite pagesOf_app.
    unfold pagesOf at 2. cbn [flat_map]. now rewrite H.
  - intros summary accountName pdfs st Hne.
    rewrite generateSummaryPdf_run. unfold coverPagesOf.
    destruct (loadGoogleSansFont w st) as [[font|e] st1]; [|reflexivity].
    destruct (jsPdfOutput L font _) as [cover|e]; [|reflexivity].
    destruct pdfs as [|d pdfs]; [contradiction|].
    destruct (pdfLoad L cover) as [coverPages|]; reflexivity.
  - intros auth trips st Hauth Hne.
    destruct (fetchMultipleReceiptPdfs_entries w auth trips st Hauth Hne)
      as [entries [st' [Hrun [F _]]]].
    exists entries, st'. split; [exact Hrun|].
    split; [|split; [|apply validPdfsOf_ids]].
    + clear -F. induction F as [|t e ts es [H _] _ IH]; simpl; congruence.
    + clear -F. induction F as [|t e ts es [_ H] _ IH]; simpl;
        [reflexivity | now rewrite H, IH].
  - intros auth summary user st entries st1 Hcount Hfetch.
    rewrite (handleDownloadReport_cases L w auth summary user st entries st1
               Hcount Hfetch).
    pose proof (fetchMultipleReceiptPdfs_downloads w auth (tripRefs summary)
                  st) as Hdl.
    rewrite Hfetch in Hdl. cbn [snd] in Hdl.
    destruct (validPdfsOf entries) as [|d valid] eqn:Ev.
    + eexists. split; [reflexivity|].
      cbn [afterLog trace]. rewrite downloads_app, Hdl.
      split; [reflexivity|]. split; [reflexivity|]. intros H. contradiction.
    + cbv beta iota zeta. rewrite generateSummaryPdf_run.
      unfold coverPagesOf.
      pose proof (downloads_font w st1) as Hf.
      destruct (loadGoogleSansFont w st1) as [[font|e] st2]; cbn [snd] in *.
      * destruct (jsPdfOutput L font _) as [cover|e].
        -- destruct (pdfLoad L cover) as [coverPages|].
           ++ eexists. split; [reflexivity|]. cbn [trace].
              rewrite !downloads_app, downloads_mergeFailures, Hf, Hdl.
              split; [now rewrite app_nil_r|].
              split; intros; discriminate.
           ++ eexists. split; [reflexivity|]. cbn [afterLog trace].
              rewrite downloads_app, Hf, Hdl.
              split; [reflexivity|]. split; [discriminate | reflexivity].
        -- eexists. split; [reflexivity|]. cbn [afterLog trace].
           rewrite downloads_app, Hf, Hdl.
           split; [reflexivity|]. split; [discriminate | reflexivity].
      * eexists. split; [reflexivity|]. cbn [afterLog trace].
        rewrite downloads_app, Hf, Hdl.
        split; [reflexivity|]. split; [discriminate | reflexivity].
Qed.

(** Three selected rides, the second of which cannot be fetched, in a
    session that has not loaded the font yet: the font is fetched, and the
    report holds the cover and the documents of the other two, in selection
    order. *)
Lemma C3_document_merge_witness :
  exists entries st1 coverPages st',
    fetchMultipleReceiptPdfs sampleWorld sampleAuth (tripRefs threeRides)
      st0 = (Ok entries, st1)
    /\ cachedFontBytes st1 = None
    /\ map entryOk entries = [true; false; true]
    /\ map pd_rideId (validPdfsOf entries) = [js "t1"; js "t2"]
    /\ coverPagesOf sampleLibs sampleWorld
         (exportSummary (List.length (validPdfsOf entries)) threeRides)
         (accountNameOf None) st1 = Some coverPages
    /\ handleDownloadReport sampleLibs sampleWorld (Some sampleAuth)
         threeRides None st0 = (Ok tt, st')
    /\ downloads (trace st')
       = [inl (pdfSave sampleLibs
                 (coverPages ++ pagesOf sampleLibs (validPdfsOf entries)))].
Proof.
  eassert (E : fetchMultipleReceiptPdfs sampleWorld sampleAuth
                 (tripRefs threeRides) st0 = (Ok _, _))
    by (vm_compute; reflexivity).
  assert (Hcount : selectedCount threeRides <> 0%nat) by discriminate.
  destruct (proj2 (proj2 (proj2 (proj2
              (C3_document_merge sampleLibs sampleWorld))))
              sampleAuth threeRides None st0 _ _ Hcount E)
    as [st' [Hrun [Hdl _]]].
  match type of E with
  | _ = (Ok ?fetched, ?s1) =>
      eassert (C : coverPagesOf sampleLibs sampleWorld
                     (exportSummary (List.length (validPdfsOf fetched))
                        threeRides)
                     (accountNameOf None) s1 = Some _)
        by (vm_compute; reflexivity)
  end.
  eexists _, _, _, st'. split; [exact E|].
  split; [reflexivity|]. split; [reflexivity|]. split; [reflexivity|].
  split; [exact C|]. split; [exact Hrun|].
  rewrite Hdl. vm_compute. reflexivity.
Defined.

(** C3 (the claim as stated fails). The claim has one failed fetch among N
    selected trips give an artifact with the other N-1 documents. For a
    single selected ride whose receipt cannot be fetched (N = 1) the
    failure is reported in the entry, the handler writes "No PDFs were
    successfully fetched" and returns: nothing is downloaded, not even the
    cover. *)
Lemma C3_single_failure_counterexample :
  selectedCount oneRide = 1%nat
  /\ (exists st1,
        fetchMultipleReceiptPdfs sampleWorld sampleAuth (tripRefs oneRide)
          stFont
        = (Ok [ {| pe_rideId := js "t9"; pe_pdfBase64 := None;
                   pe_error := Some (js "Failed to fetch PDF: 404") |} ],
           st1))
  /\ fst (handleDownloadReport sampleLibs sampleWorld (Some sampleAuth)
            oneRide None stFont) = Ok tt
  /\ downloads
       (trace (snd (handleDownloadReport sampleLibs sampleWorld
                      (Some sampleAuth) oneRide None stFont))) = []
  /\ consoleLabels
       (trace (snd (handleDownloadReport sampleLibs sampleWorld
                      (Some sampleAuth) oneRide None stFont)))
     = [js "No PDFs were successfully fetched"].
Proof.
  split; [reflexivity|]. split; [eexists; vm_compute; reflexivity|].
  repeat split; vm_compute; reflexivity.
Qed.

(* ===================================================================== *)
(** * Properties: the selection summary in the exports *)
(* ===================================================================== *)

Lemma generateSummaryPdf_cover (L : Libs) (w : World)
  (summary : RidesSummary) (accountName : option jsstring) (st : ST) :
  generateSummaryPdf L w summary accountName None st
  = match loadGoogleSansFont w st with
    | (Ok font, st1) =>
        (jsPdfOutput L font (summaryDocument L summary accountName (clock st1)),
         st1)
    | (Throw e, st1) => (Throw e, st1)
    end.
Proof.
  rewrite generateSummaryPdf_run.
  destruct (loadGoogleSansFont w st) as [[font|e] st1]; [|reflexivity].
  destruct (jsPdfOutput L font _); reflexivity.
Qed.

Lemma handleDownloadSummaryPdf_run (L : Libs) (w : World)
  (summary : Summary) (user : option UberCurrentUser) (st : ST) :
  (selectedCount summary =? 0)%nat = false ->
  handleDownloadSummaryPdf L w summary user st
  = match loadGoogleSansFont w st with
    | (Ok font, st1) =>
        match jsPdfOutput L font
                (summaryDocument L
                   (exportSummary (selectedCount summary) summary)
                   (accountNameOf user) (clock st1)) with
        | Ok cover =>
            (Ok tt,
             {| clock := clock st1; ticks := ticks st1;
                trace :=
                  trace st1
                  ++ [EvDownload
                        (js "uber_summary_"
                         ++ format L (clock st1) (js "yyyy-MM-dd")
                         ++ js ".pdf")
                        (js "application/pdf") (inl cover)];
                cachedFontBytes := cachedFontBytes st1 |})
        | Throw e => (Throw e, st1)
        end
    | (Throw e, st1) => (Throw e, st1)
    end.
Proof.
  intros Hsel. unfold handleDownloadSummaryPdf. rewrite Hsel.
  unfold bind at 1. rewrite generateSummaryPdf_cover.
  destruct (loadGoogleSansFont w st) as [[font|e] st1]; [|reflexivity].
  destruct (jsPdfOutput L font _); reflexivity.
Qed.

Lemma handleDownloadCsv_run (L : Libs) (summary : Summary) (st : ST) :
  (selectedCount summary =? 0)%nat = false ->
  handleDownloadCsv L summary st
  = (Ok tt,
     {| clock := clock st; ticks := ticks st;
        trace :=
          trace st
          ++ [EvDownload
                (js "uber_expenses_"
                 ++ format L (clock st) (js "yyyy-MM-dd") ++ js ".csv")
                (js "text/csv")
                (inr (generateCsv L
                        (exportSummary (selectedCount summary) summary)))];
        cachedFontBytes := cachedFontBytes st |}).
Proof.
  intros Hsel. unfold handleDownloadCsv. rewrite Hsel. reflexivity.
Qed.

Lemma join_snoc (sep : jsstring) (parts : list jsstring) (p : jsstring) :
  parts <> [] -> join sep (parts ++ [p]) = join sep parts ++ sep ++ p.
Proof.
  induction parts as [|q [|q' rest] IH]; intros Hne; [contradiction| |].
  - reflexivity.
  - change (join sep ((q :: q' :: rest) ++ [p]))
      with (q ++ sep ++ join sep ((q' :: rest) ++ [p])).
    rewrite IH by discriminate.
    change (join sep (q :: q' :: rest))
      with (q ++ sep ++ join sep (q' :: rest)).
    now rewrite <- !app_assoc.
Qed.

(** The CSV text ends with a line break and the total row. *)
Lemma generateCsv_total (L : Libs) (summary : RidesSummary) :
  generateCsv L summary
  = join [10%N]
      (join (js ",") csvHeaders
       :: map (fun row => join (js ",") row) (map (csvRow L) (rs_rides summary)))
    ++ [10%N] ++ join (js ",") (csvTotalRow summary).
Proof.
  unfold generateCsv, csvRows. rewrite map_app. cbn [map].
  rewrite app_comm_cons. apply join_snoc. discriminate.
Qed.

(** C9. For a non-empty selection of aggregated rides the summary counts
    the selected rides, its total is the sum of their amounts (added left to
    right from zero; the currencies play no part in it), and its currency is
    that of the first selected ride. Whatever the summary, the CSV text
    that [generateCsv] returns ends with its total row, and the table that
    [generateSummaryPdf] hands to jsPDF ends with its grand total row. For
    the two rides of 84.38 INR and 120.00 INR the CSV text is the header
    line, the two ride lines and the line [,,,,,,,Total:,204.38,INR]; the
    table of the cover is the two ride rows and the row reading
    [Grand Total:] and [₹204.38]; and the handlers hand over that CSV text
    and the document drawn from that table. *)
Theorem C9_selection_summary :
  (forall (filtered : list TransformedRide) (rowSelection : jsstring -> bool),
      let selected :=
        filter (fun ride => rowSelection (rideId ride)) filtered in
      let s := summaryOf filtered rowSelection in
      selected <> [] ->
      Forall enrichedRide selected ->
      selectedCount s = List.length selected
      /\ rides s = selected
      /\ sum_totalAmount s
         = fold_left numAdd (map totalAmount selected) numZero
      /\ sum_currency s = currency (hd (sampleRide "" numZero "" "") selected))
  /\ (forall (L : Libs) (summary : RidesSummary) accountName now,
         (exists lines,
             generateCsv L summary
             = lines ++ [10%N] ++ join (js ",") (csvTotalRow summary))
         /\ doc_head (summaryDocument L summary accountName now) = tableHead
         /\ doc_body (summaryDocument L summary accountName now)
            = mapIndexed (tableRow L) 0 (rs_rides summary)
              ++ [grandTotalRow summary])
  /\ (forall (L : Libs) count,
         let s := exportSummary count scenarioSummary in
         let ride1 :=
           toRideData (rideOfTrip (sampleTrip "t1" "₹84.38" "UberXL")) in
         let ride2 :=
           toRideData (rideOfTrip (sampleTrip "t2" "₹120.00" "Auto")) in
         map totalAmount scenarioRides
         = [numOfDecimal 8438 (-2); numOfDecimal 120 0]
         /\ map currency scenarioRides = [js "INR"; js "INR"]
         /\ selectedCount scenarioSummary = 2%nat
         /\ csvTotalRow s
            = [[]; []; []; []; []; []; []; js "Total:"; js "204.38"; js "INR"]
         /\ join (js ",") (csvTotalRow s) = js ",,,,,,,Total:,204.38,INR"
         /\ grandTotalRow s
            = [[]; []; []; []; []; []; js "Grand Total:"; js "₹204.38"]
         /\ generateCsv L s
            = join (js ",") csvHeaders ++ [10%N]
              ++ join (js ",") (csvRow L ride1) ++ [10%N]
              ++ join (js ",") (csvRow L ride2) ++ [10%N]
              ++ js ",,,,,,,Total:,204.38,INR"
         /\ (forall accountName now,
                doc_body (summaryDocument L s accountName now)
                = [ tableRow L 0 ride1; tableRow L 1 ride2;
                    [[]; []; []; []; []; []; js "Grand Total:";
                     js "₹204.38"] ]))
  /\ (forall (L : Libs) (w : World) user st,
         let s := exportSummary 2 scenarioSummary in
         handleDownloadCsv L scenarioSummary st
         = (Ok tt,
            {| clock := clock st; ticks := ticks st;
               trace :=
                 trace st
                 ++ [EvDownload
                       (js "uber_expenses_"
                        ++ format L (clock st) (js "yyyy-MM-dd")
                        ++ js ".csv")
                       (js "text/csv") (inr (generateCsv L s))];
               cachedFontBytes := cachedFontBytes st |})
         /\ (forall font st1 cover,
                loadGoogleSansFont w st = (Ok font, st1) ->
                jsPdfOutput L font
                  (summaryDocument L s (accountNameOf user) (clock st1))
                = Ok cover ->
                fst (generateSummaryPdf L w s (accountNameOf user) None st)
                = Ok cover
                /\ downloads
                     (trace (snd (handleDownloadSummaryPdf L w scenarioSummary
                                    user st)))
                   = downloads (trace st) ++ [inl cover])).
Proof.
  split; [|split; [|split]].
  - intros filtered rowSelection selected s Hne Hall.
    unfold s, summaryOf. fold selected. cbn [selectedCount rides
      sum_totalAmount sum_currency].
    repeat split.
    + apply fold_left_amounts.
    + destruct selected as [|first rest]; [contradiction|].
      cbn [hd]. inversion Hall as [|? ? Hfirst _]; subst.
      unfold orElse. now rewrite (enrichedRide_currency_truthy _ Hfirst).
  - intros L summary accountName now. split; [|split; reflexivity].
    eexists. apply generateCsv_total.
  - intros L count s ride1 ride2.
    split; [vm_compute; reflexivity|]. split; [vm_compute; reflexivity|].
    split; [vm_compute; reflexivity|]. split; [vm_compute; reflexivity|].
    split; [vm_compute; reflexivity|]. split; [vm_compute; reflexivity|].
    split.
    + rewrite generateCsv_total.
      assert (E : join (js ",") (csvTotalRow s)
                  = js ",,,,,,,Total:,204.38,INR") by (vm_compute; reflexivity).
      rewrite E.
      change (rs_rides s) with [ride1; ride2].
      cbn [map join]. now rewrite <- !app_assoc.
    + intros accountName now.
      assert (E : grandTotalRow s
                  = [[]; []; []; []; []; []; js "Grand Total:";
                     js "₹204.38"]) by (vm_compute; reflexivity).
      cbn [summaryDocument doc_body]. unfold tableData. rewrite E.
      reflexivity.
  - intros L w user st s. split.
    + exact (handleDownloadCsv_run L scenarioSummary st eq_refl).
    + intros font st1 cover Hfont Hdraw.
      rewrite generateSummaryPdf_cover,
        (handleDownloadSummaryPdf_run L w scenarioSummary user st eq_refl),
        Hfont.
      change (exportSummary (selectedCount scenarioSummary) scenarioSummary)
        with s.
      rewrite Hdraw. split; [reflexivity|].
      pose proof (downloads_font w st) as Hf. rewrite Hfont in Hf.
      cbn [snd trace] in *. rewrite downloads_app, Hf. reflexivity.
Qed.

(** The selection of the scenario, taken out of a longer list, and its
    export in a session that has not loaded the font yet. *)
Lemma C9_selection_summary_witness :
  let filtered := scenarioRides ++ [rideOfTrip (sampleTrip "t3" "$9.00" "Moto")] in
  let rowSelection := fun id => negb (jseqb id (js "t3")) in
  filter (fun ride => rowSelection (rideId ride)) filtered = scenarioRides
  /\ selectedCount (summaryOf filtered rowSelection) = 2%nat
  /\ toFixed2 (sum_totalAmount (summaryOf filtered rowSelection)) = js "204.38"
  /\ sum_currency (summaryOf filtered rowSelection) = js "INR"
  /\ exists font st1 cover,
      loadGoogleSansFont sampleWorld st0 = (Ok font, st1)
      /\ jsPdfOutput sampleLibs font
           (summaryDocument sampleLibs (exportSummary 2 scenarioSummary)
              (accountNameOf None) (clock st1)) = Ok cover
      /\ downloads
           (trace (snd (handleDownloadSummaryPdf sampleLibs sampleWorld
                          scenarioSummary None st0)))
         = [inl cover].
Proof.
  cbv zeta.
  set (filtered :=
         scenarioRides ++ [rideOfTrip (sampleTrip "t3" "$9.00" "Moto")]).
  set (rowSelection := fun id => negb (jseqb id (js "t3"))).
  assert (Hsel : filter (fun ride => rowSelection (rideId ride)) filtered
                 = scenarioRides) by reflexivity.
  assert (Hne : filter (fun ride => rowSelection (rideId ride)) filtered <> [])
    by (rewrite Hsel; discriminate).
  assert (Hall : Forall enrichedRide
                   (filter (fun ride => rowSelection (rideId ride)) filtered)).
  { rewrite Hsel. unfold scenarioRides.
    apply Forall_cons; [left; eexists; reflexivity|].
    apply Forall_cons; [left; eexists; reflexivity|].
    apply Forall_nil. }
  destruct (proj1 C9_selection_summary filtered rowSelection Hne Hall)
    as [Hcount [_ [Hsum Hcur]]].
  split; [exact Hsel|]. split; [rewrite Hcount, Hsel; reflexivity|].
  split; [rewrite Hsum, Hsel; vm_compute; reflexivity|].
  split; [rewrite Hcur, Hsel; reflexivity|].
  eassert (Hfont : loadGoogleSansFont sampleWorld st0 = (Ok _, _))
    by (vm_compute; reflexivity).
  match type of Hfont with
  | _ = (Ok ?font, ?st1) =>
      eassert (Hdraw : jsPdfOutput sampleLibs font
                         (summaryDocument sampleLibs
                            (exportSummary 2 scenarioSummary)
                            (accountNameOf None) (clock st1)) = Ok _)
        by (vm_compute; reflexivity)
  end.
  eexists _, _, _. split; [exact Hfont|]. split; [exact Hdraw|].
  exact (proj2 (proj2 (proj2 (proj2 (proj2 C9_selection_summary))
                         sampleLibs sampleWorld None st0)
                  _ _ _ Hfont Hdraw)).
Defined.


(* ===================================================================== *)
(** * Further properties: the server functions *)
(* ===================================================================== *)

Lemma requireAuth_missing (auth : UberAuthCredentials) (st : ST) :
  truthy (cookie auth) && truthy (csrfToken auth) = false ->
  requireAuth auth st
  = (Throw (ErrorObject (js "Auth credentials are required")), st).
Proof. intros H. unfold requireAuth. now rewrite H. Qed.

(** X1. A server function called with an empty cookie or an empty
    anti-forgery token throws "Auth credentials are required" and leaves the
    state as it was: no request is made. *)
Theorem missing_credentials_abort (w : World) (auth : UberAuthCredentials)
  (st : ST) :
  truthy (cookie auth) && truthy (csrfToken auth) = false ->
  (forall lim token startMs endMs answer,
      fetchActivities w auth lim token startMs endMs answer st
      = (Throw (ErrorObject (js "Auth credentials are required")), st))
  /\ (forall tripUUID,
         fetchTripDetails w auth tripUUID st
         = (Throw (ErrorObject (js "Auth credentials are required")), st))
  /\ (forall tripUUIDs,
         fetchMultipleTripDetails w auth tripUUIDs st
         = (Throw (ErrorObject (js "Auth credentials are required")), st))
  /\ (forall tripUUID isAutoRide,
         fetchReceiptPdf w auth tripUUID isAutoRide st
         = (Throw (ErrorObject (js "Auth credentials are required")), st))
  /\ (forall trips,
         fetchMultipleReceiptPdfs w auth trips st
         = (Throw (ErrorObject (js "Auth credentials are required")), st)).
Proof.
  intros H. pose proof (requireAuth_missing auth st H) as E.
  repeat split; intros;
    unfold fetchActivities, fetchTripDetails, fetchMultipleTripDetails,
      fetchReceiptPdf, fetchMultipleReceiptPdfs, bind;
    rewrite E; reflexivity.
Qed.

Lemma missing_credentials_abort_witness :
  let auth := {| cookie := []; csrfToken := js "x" |} in
  truthy (cookie auth) && truthy (csrfToken auth) = false
  /\ fetchMultipleTripDetails sampleWorld auth [js "t1"] st0
     = (Throw (ErrorObject (js "Auth credentials are required")), st0).
Proof.
  cbv zeta. split; [reflexivity|].
  exact (proj1 (proj2 (proj2
           (missing_credentials_abort sampleWorld
              {| cookie := []; csrfToken := js "x" |} st0 eq_refl)))
           [js "t1"]).
Defined.

(** X2. With credentials but without an identifier (an empty trip
    identifier, an empty list of identifiers or of trips) the server
    functions throw their own error and make no request. *)
Theorem missing_identifiers_abort (w : World) (auth : UberAuthCredentials)
  (st : ST) :
  truthy (cookie auth) && truthy (csrfToken auth) = true ->
  fetchTripDetails w auth [] st
  = (Throw (ErrorObject (js "Trip UUID is required")), st)
  /\ (forall isAutoRide,
         fetchReceiptPdf w auth [] isAutoRide st
         = (Throw (ErrorObject (js "Trip UUID is required")), st))
  /\ fetchMultipleTripDetails w auth [] st
     = (Throw (ErrorObject (js "Trip UUIDs are required")), st)
  /\ fetchMultipleReceiptPdfs w auth [] st
     = (Throw (ErrorObject (js "At least one trip is required")), st).
Proof.
  intros H. pose proof (requireAuth_ok auth st H) as E.
  repeat split; intros;
    unfold fetchTripDetails, fetchMultipleTripDetails,
      fetchReceiptPdf, fetchMultipleReceiptPdfs, bind;
    rewrite E; reflexivity.
Qed.

Lemma missing_identifiers_abort_witness :
  truthy (cookie sampleAuth) && truthy (csrfToken sampleAuth) = true
  /\ fetchMultipleReceiptPdfs sampleWorld sampleAuth [] st0
     = (Throw (ErrorObject (js "At least one trip is required")), st0).
Proof.
  split; [reflexivity|].
  exact (proj2 (proj2 (proj2
           (missing_identifiers_abort sampleWorld sampleAuth st0 eq_refl)))).
Defined.

Lemma tripRequests_app (a b : list Event) :
  tripRequests (a ++ b) = tripRequests a ++ tripRequests b.
Proof. apply flat_map_app. Qed.

Lemma tripRequests_tripEvents (ids : list jsstring) :
  tripRequests (tripEvents ids) = ids.
Proof.
  induction ids as [|id ids IH]; simpl; [reflexivity | now rewrite IH].
Qed.

Lemma detail_partition (w : World) (ids : list jsstring) :
  (List.length (flat_map (detailOf w) ids)
   + List.length (flat_map (detailError w) ids))%nat = List.length ids.
Proof.
  induction ids as [|id ids IH]; cbn [flat_map List.length].
  - reflexivity.
  - rewrite !length_app. unfold detailOf at 1, detailError at 1.
    destruct (getTripAnswer w id); cbn [List.length]; lia.
Qed.

(** X3. [fetchMultipleTripDetails] on valid input accounts for every
    identifier: it asks for each identifier exactly once, and the rides and
    the error texts it returns are together as many as the identifiers. *)
Theorem trip_details_account_for_all (w : World) (auth : UberAuthCredentials)
  (tripUUIDs : list jsstring) (st : ST) :
  truthy (cookie auth) && truthy (csrfToken auth) = true ->
  tripUUIDs <> [] ->
  exists result st',
    fetchMultipleTripDetails w auth tripUUIDs st = (Ok result, st')
    /\ (List.length (td_rides result) + List.length (td_errors result))%nat
       = List.length tripUUIDs
    /\ Permutation (tripRequests (trace st'))
         (tripRequests (trace st) ++ tripUUIDs)
    /\ List.length (requestsOf (trace st'))
       = (List.length (requestsOf (trace st)) + List.length tripUUIDs)%nat.
Proof.
  intros Hauth Hne.
  destruct (fetchMultipleTripDetails_run w auth tripUUIDs st Hauth Hne)
    as [st' [order [Hrun [Hperm Htr]]]].
  eexists _, st'. split; [exact Hrun|]. cbn [td_rides td_errors].
  split; [apply detail_partition|]. split.
  - rewrite Htr, tripRequests_app, tripRequests_tripEvents.
    now apply Permutation_app_head.
  - rewrite Htr. unfold requestsOf. rewrite flat_map_app, length_app.
    f_equal. rewrite <- (Permutation_length Hperm).
    clear. unfold tripEvents.
    induction order as [|id order IH]; simpl; [reflexivity | now rewrite IH].
Qed.

Lemma trip_details_account_for_all_witness :
  truthy (cookie sampleAuth) && truthy (csrfToken sampleAuth) = true
  /\ [js "t1"; js "t7"; js "t2"] <> []
  /\ exists result st',
      fetchMultipleTripDetails sampleWorld sampleAuth
        [js "t1"; js "t7"; js "t2"] st0 = (Ok result, st')
      /\ (List.length (td_rides result) + List.length (td_errors result))%nat
         = 3%nat.
Proof.
  assert (Hne : [js "t1"; js "t7"; js "t2"] <> []) by discriminate.
  split; [reflexivity|]. split; [exact Hne|].
  destruct (trip_details_account_for_all sampleWorld sampleAuth
              [js "t1"; js "t7"; js "t2"] st0 eq_refl Hne)
    as [result [st' [Hrun [Hlen _]]]].
  exists result, st'. split; [exact Hrun | exact Hlen].
Defined.

(** [fetchTripDetails] on valid input: one request, and the ride or the
    error message of the answer. *)
Lemma fetchTripDetails_run (w : World) (auth : UberAuthCredentials)
  (tripUUID : jsstring) (st : ST) :
  truthy (cookie auth) && truthy (csrfToken auth) = true ->
  truthy tripUUID = true ->
  fetchTripDetails w auth tripUUID st
  = match getTripAnswer w tripUUID with
    | Ok response =>
        (Ok {| tdr_ride := Some (rideOfTrip response); tdr_error := None |},
         afterRequest w (ReqGetTrip tripUUID) st)
    | Throw error =>
        (Ok {| tdr_ride := None;
               tdr_error := Some (errorMessage error (js "Unknown error")) |},
         afterLog (js "Failed to fetch trip details:")
           (afterRequest w (ReqGetTrip tripUUID) st))
    end.
Proof.
  intros Hauth Hid. unfold fetchTripDetails, bind, tryCatch.
  rewrite (requireAuth_ok _ _ Hauth), Hid.
  unfold ret at 1. unfold request.
  destruct (getTripAnswer w tripUUID); reflexivity.
Qed.

(** X4. The single and the batched detail functions agree: for one
    identifier, [fetchTripDetails] returns a ride exactly when
    [fetchMultipleTripDetails] on that identifier alone returns it as its
    only ride, and an error exactly when the batch returns one error text
    and no ride. *)
Theorem trip_details_single_and_batch (w : World)
  (auth : UberAuthCredentials) (tripUUID : jsstring) (st : ST) :
  truthy (cookie auth) && truthy (csrfToken auth) = true ->
  truthy tripUUID = true ->
  exists single batch st1 st2,
    fetchTripDetails w auth tripUUID st = (Ok single, st1)
    /\ fetchMultipleTripDetails w auth [tripUUID] st = (Ok batch, st2)
    /\ td_rides batch
       = match tdr_ride single with Some ride => [ride] | None => [] end
    /\ List.length (td_errors batch)
       = match tdr_error single with Some _ => 1%nat | None => 0%nat end
    /\ tripRequests (trace st1) = tripRequests (trace st) ++ [tripUUID]
    /\ tripRequests (trace st2) = tripRequests (trace st) ++ [tripUUID].
Proof.
  intros Hauth Hid.
  destruct (fetchMultipleTripDetails_run w auth [tripUUID] st Hauth
              ltac:(discriminate)) as [st2 [order [Hrun [Hperm Htr]]]].
  apply Permutation_sym, Permutation_length_1_inv in Hperm. subst order.
  pose proof (fetchTripDetails_run w auth tripUUID st Hauth Hid) as Hs.
  cbn [flat_map] in Hrun. rewrite !app_nil_r in Hrun.
  unfold detailOf, detailError in Hrun.
  destruct (getTripAnswer w tripUUID) as [response|error];
    eexists _, _, _, st2; (split; [exact Hs|]); (split; [exact Hrun|]);
    cbn [td_rides td_errors tdr_ride tdr_error List.length];
    repeat split; try reflexivity;
    rewrite ?Htr; cbn [afterLog afterRequest trace];
    repeat rewrite tripRequests_app; cbn; rewrite ?app_nil_r; reflexivity.
Qed.

Lemma trip_details_single_and_batch_witness :
  truthy (cookie sampleAuth) && truthy (csrfToken sampleAuth) = true
  /\ truthy (js "t7") = true
  /\ exists single st1,
      fetchTripDetails sampleWorld sampleAuth (js "t7") st0 = (Ok single, st1)
      /\ tdr_ride single = None.
Proof.
  split; [reflexivity|]. split; [reflexivity|].
  destruct (trip_details_single_and_batch sampleWorld sampleAuth (js "t7") st0
              eq_refl eq_refl)
    as [single [batch [st1 [st2 [Hs _]]]]].
  exists single, st1. split; [exact Hs|].
  vm_compute in Hs. injection Hs as <- _. reflexivity.
Defined.

Lemma requestsOf_app (a b : list Event) :
  requestsOf (a ++ b) = requestsOf a ++ requestsOf b.
Proof. apply flat_map_app. Qed.

(** A receipt task, step by step: the URL is chosen, fetched, and the
    entry holds what the fetch gave. *)
Lemma receiptTask_outcome (w : World) (t : TripRef) (st : ST) :
  let url := statedUrl w (tr_tripUUID t) (tr_isAutoRide t) st in
  (pe_pdfBase64 (fst (receiptTask w t st)), pe_error (fst (receiptTask w t st)))
  = receiptOutcome w url
  /\ List.length (requestsOf (trace (snd (receiptTask w t st))))
     = (List.length (requestsOf (trace st))
        + (if tr_isAutoRide t then 1 else 2))%nat.
Proof.
  cbv zeta. unfold receiptTask, receiptOutcome, choosePdfUrl, statedUrl,
    downloadPdf.
  destruct (tr_isAutoRide t).
  - unfold_effects.
    destruct (fetchAnswer w _) as [[body|status]|e];
      cbn [fst snd trace pe_pdfBase64 pe_error];
      rewrite requestsOf_app, length_app; split; reflexivity.
  - unfold_effects.
    destruct (invoiceFilesAnswer w (tr_tripUUID t))
      as [[[|file files]|]|e0]; cbn [fst snd trace clock];
      destruct (fetchAnswer w _) as [[body|status]|e];
      cbn [fst snd trace pe_pdfBase64 pe_error];
      repeat rewrite requestsOf_app; repeat rewrite length_app;
      cbn [requestsOf flat_map List.length app]; split;
      try reflexivity; lia.
Qed.

(** X5. What a receipt download returns depends only on the answer to the
    fetch of the resolved URL: its body, the text "Failed to fetch PDF: "
    with the status, or the message of the transport error. A failed
    invoice listing is never the reported error. [fetchReceiptPdf] and the
    task of [fetchMultipleReceiptPdfs] for the same trip agree on it. *)
Theorem receipt_outcome_is_the_fetch (w : World) (auth : UberAuthCredentials)
  (tripUUID : jsstring) (isAutoRide : bool) (st : ST) :
  truthy (cookie auth) && truthy (csrfToken auth) = true ->
  truthy tripUUID = true ->
  exists result st',
    fetchReceiptPdf w auth tripUUID isAutoRide st = (Ok result, st')
    /\ (rr_pdfBase64 result, rr_error result)
       = receiptOutcome w (statedUrl w tripUUID isAutoRide st)
    /\ (let entry :=
          fst (receiptTask w {| tr_tripUUID := tripUUID;
                                tr_isAutoRide := isAutoRide |} st) in
        pe_rideId entry = tripUUID
        /\ pe_pdfBase64 entry = rr_pdfBase64 result
        /\ pe_error entry = rr_error result).
Proof.
  intros Hauth Hid.
  pose proof (receiptTask_outcome w
                {| tr_tripUUID := tripUUID; tr_isAutoRide := isAutoRide |} st)
    as [Ht _].
  pose proof (receiptTask_entry w
                {| tr_tripUUID := tripUUID; tr_isAutoRide := isAutoRide |} st)
    as [Hid' _].
  cbv zeta in Ht. cbn [tr_tripUUID tr_isAutoRide] in Ht, Hid'.
  destruct (choosePdfUrl_stated w
              (js "Invoice fetch failed, falling back to receipt:")
              tripUUID isAutoRide st) as [st1 [Hc _]].
  unfold fetchReceiptPdf, tryCatch, bind.
  rewrite (requireAuth_ok _ _ Hauth), Hid. unfold ret at 1. rewrite Hc.
  cbv zeta. rewrite Hid'.
  pose proof (f_equal fst Ht) as Hp. pose proof (f_equal snd Ht) as He.
  cbn [fst snd] in Hp, He. rewrite Hp, He.
  unfold downloadPdf, receiptOutcome. unfold_effects.
  destruct (fetchAnswer w (statedUrl w tripUUID isAutoRide st))
    as [[body|status]|e]; cbn [fst snd];
    (eexists; eexists; split; [reflexivity|]);
    cbn [rr_pdfBase64 rr_error errorMessage]; auto.
Qed.

Lemma receipt_outcome_is_the_fetch_witness :
  truthy (cookie sampleAuth) && truthy (csrfToken sampleAuth) = true
  /\ truthy (js "t9") = true
  /\ exists result st',
      fetchReceiptPdf sampleWorld sampleAuth (js "t9") false st0
      = (Ok result, st')
      /\ rr_error result = Some (js "Failed to fetch PDF: 404").
Proof.
  split; [reflexivity|]. split; [reflexivity|].
  destruct (receipt_outcome_is_the_fetch sampleWorld sampleAuth (js "t9")
              false st0 eq_refl eq_refl)
    as [result [st' [Hrun [Hout _]]]].
  exists result, st'. split; [exact Hrun|].
  vm_compute in Hout. injection Hout as _ He. exact He.
Defined.

Lemma unitView_app (view : list Event -> list Request) (a b : list Event) :
  (forall x y, view (x ++ y) = view x ++ view y) ->
  map (fun _ => tt) (view (a ++ b))
  = map (fun _ => tt) (view a) ++ map (fun _ => tt) (view b).
Proof. intros H. now rewrite H, map_app. Qed.

Lemma repeat_length_eq (a b : list unit) :
  List.length a = List.length b -> a = b.
Proof.
  revert b. induction a as [|[] a IH]; intros [|[] b] H;
    try discriminate; [reflexivity|].
  f_equal. apply IH. now injection H.
Qed.

(** X6. [fetchMultipleReceiptPdfs] on valid input makes exactly one PDF
    fetch per trip, and one invoice listing request for each trip whose
    flag is off: nothing is retried and no trip is skipped, whether or not
    its download fails. *)
Theorem receipts_one_fetch_per_trip (w : World) (auth : UberAuthCredentials)
  (trips : list TripRef) (st : ST) :
  truthy (cookie auth) && truthy (csrfToken auth) = true ->
  trips <> [] ->
  exists entries st',
    fetchMultipleReceiptPdfs w auth trips st = (Ok entries, st')
    /\ List.length entries = List.length trips
    /\ List.length (fetchedUrls (trace st'))
       = (List.length (fetchedUrls (trace st)) + List.length trips)%nat
    /\ List.length (requestsOf (trace st'))
       = (List.length (requestsOf (trace st)) + List.length trips
          + List.length (filter (fun t => negb (tr_isAutoRide t)) trips))%nat.
Proof.
  intros Hauth Hne.
  destruct (fetchMultipleReceiptPdfs_entries w auth trips st Hauth Hne)
    as [entries [st' [Hrun [Hall _]]]].
  exists entries, st'. split; [exact Hrun|].
  split; [symmetry; exact (Forall2_length Hall)|].
  unfold fetchMultipleReceiptPdfs, bind in Hrun.
  rewrite (requireAuth_ok _ _ Hauth) in Hrun.
  destruct trips as [|t0 trips0]; [contradiction|].
  set (trips := t0 :: trips0) in *.
  destruct (promiseAll_view w (receiptTask w)
              (fun tr => map (fun _ => tt) (fetchedUrls tr))
              (fun _ => [tt]) trips st) as [order1 [Hperm1 Hview1]].
  { intros a s. rewrite (proj2 (receiptTask_views w a s)), map_app.
    reflexivity. }
  destruct (promiseAll_view w (receiptTask w)
              (fun tr => map (fun _ => tt) (requestsOf tr))
              (fun t => if tr_isAutoRide t then [tt] else [tt; tt])
              trips st) as [order2 [Hperm2 Hview2]].
  { intros a s. apply repeat_length_eq.
    rewrite length_app, !length_map, (proj2 (receiptTask_outcome w a s)).
    destruct (tr_isAutoRide a); reflexivity. }
  destruct (promiseAll w (receiptTask w) trips st) as [pdfs st2].
  injection Hrun as <- <-. cbn [snd] in *.
  apply (f_equal (@List.length unit)) in Hview1, Hview2.
  rewrite length_app, !length_map in Hview1, Hview2.
  split.
  - rewrite Hview1. f_equal.
    rewrite <- (Permutation_length Hperm1).
    clear. induction order1; simpl; auto.
  - rewrite Hview2, <- Nat.add_assoc. f_equal.
    assert (Hc : forall l : list TripRef,
               List.length
                 (flat_map
                    (fun t => if tr_isAutoRide t then [tt] else [tt; tt]) l)
               = (List.length l
                  + List.length
                      (filter (fun t => negb (tr_isAutoRide t)) l))%nat).
    { clear. induction l as [|t l IH]; [reflexivity|].
      cbn [flat_map filter]. rewrite length_app, IH.
      destruct (tr_isAutoRide t); cbn [negb List.length]; lia. }
    rewrite Hc, (Permutation_length Hperm2).
    f_equal.
    assert (Hp : Permutation
                   (filter (fun t => negb (tr_isAutoRide t)) order2)
                   (filter (fun t => negb (tr_isAutoRide t)) trips)).
    { clear - Hperm2. induction Hperm2; cbn [filter].
      - constructor.
      - destruct (negb (tr_isAutoRide x)); auto.
      - destruct (negb (tr_isAutoRide x)), (negb (tr_isAutoRide y));
          auto using perm_swap.
      - eauto using Permutation_trans. }
    exact (Permutation_length Hp).
Qed.

Lemma receipts_one_fetch_per_trip_witness :
  let trips := [ {| tr_tripUUID := js "t1"; tr_isAutoRide := false |};
                 {| tr_tripUUID := js "t9"; tr_isAutoRide := false |};
                 {| tr_tripUUID := js "t2"; tr_isAutoRide := true |} ] in
  truthy (cookie sampleAuth) && truthy (csrfToken sampleAuth) = true
  /\ trips <> []
  /\ exists entries st',
      fetchMultipleReceiptPdfs sampleWorld sampleAuth trips st0
      = (Ok entries, st')
      /\ List.length (requestsOf (trace st')) = 5%nat.
Proof.
  cbv zeta.
  assert (Hne : [ {| tr_tripUUID := js "t1"; tr_isAutoRide := false |};
                  {| tr_tripUUID := js "t9"; tr_isAutoRide := false |};
                  {| tr_tripUUID := js "t2"; tr_isAutoRide := true |} ] <> [])
    by discriminate.
  split; [reflexivity|]. split; [exact Hne|].
  destruct (receipts_one_fetch_per_trip sampleWorld sampleAuth _ st0
              eq_refl Hne) as [entries [st' [Hrun [_ [_ Hreq]]]]].
  exists entries, st'. split; [exact Hrun | exact Hreq].
Defined.

(* ===================================================================== *)
(** * Further properties: the font cache and the local exports *)
(* ===================================================================== *)

(** X7. The font is fetched at most once. A call of [loadGoogleSansFont]
    that returns the font leaves it cached, so that the next call returns
    the same bytes without any effect; it makes a request only when nothing
    was cached. A call that fails made the one request, throws, and leaves
    the cache empty, so that the next call tries again. *)
Theorem font_is_fetched_once (w : World) (st : ST) :
  match loadGoogleSansFont w st with
  | (Ok font, st1) =>
      loadGoogleSansFont w st1 = (Ok font, st1)
      /\ cachedFontBytes st1 = Some font
      /\ trace st1
         = trace st ++ match cachedFontBytes st with
                       | Some _ => []
                       | None => [EvRequest (ReqFetch fontUrl)]
                       end
  | (Throw _, st1) =>
      cachedFontBytes st = None
      /\ cachedFontBytes st1 = None
      /\ trace st1 = trace st ++ [EvRequest (ReqFetch fontUrl)]
  end.
Proof.
  unfold loadGoogleSansFont at 1.
  destruct (cachedFontBytes st) as [cached|] eqn:Hc.
  - unfold loadGoogleSansFont. rewrite Hc, app_nil_r. auto.
  - unfold request.
    destruct (fetchAnswer w fontUrl) as [[body|status]|e];
      unfold loadGoogleSansFont; cbn [cachedFontBytes trace]; auto.
Qed.

(** X8. The two receipt exports never throw: whatever fails inside them is
    caught and reported on the console. The export to CSV cannot fail. The
    export of the summary alone has no handler of its own: it throws
    exactly when there is a selection and either the font cannot be loaded
    or jsPDF throws on the bytes it was given as the font, and it throws
    that error. *)
Theorem export_handlers_and_exceptions (L : Libs) (w : World)
  (auth : option UberAuthCredentials) (summary : Summary)
  (user : option UberCurrentUser) (st : ST) :
  fst (handleDownloadReport L w auth summary user st) = Ok tt
  /\ fst (handleDownloadInvoices L w auth summary st) = Ok tt
  /\ fst (handleDownloadCsv L summary st) = Ok tt
  /\ fst (handleDownloadSummaryPdf L w summary user st)
     = if (selectedCount summary =? 0)%nat then Ok tt
       else match loadGoogleSansFont w st with
            | (Ok font, st1) =>
                match jsPdfOutput L font
                        (summaryDocument L
                           (exportSummary (selectedCount summary) summary)
                           (accountNameOf user) (clock st1)) with
                | Ok _ => Ok tt
                | Throw e => Throw e
                end
            | (Throw e, _) => Throw e
            end.
Proof.
  repeat split.
  - unfold handleDownloadReport.
    destruct auth as [a|]; [|reflexivity].
    destruct (selectedCount summary =? 0)%nat; [reflexivity|].
    unfold tryCatch.
    destruct (bind (fetchMultipleReceiptPdfs w a (tripRefs summary)) _ st)
      as [[[]|e] st1]; reflexivity.
  - unfold handleDownloadInvoices.
    destruct auth as [a|]; [|reflexivity].
    destruct (selectedCount summary =? 0)%nat; [reflexivity|].
    unfold tryCatch.
    destruct (bind (fetchMultipleReceiptPdfs w a (tripRefs summary)) _ st)
      as [[[]|e] st1]; reflexivity.
  - unfold handleDownloadCsv.
    destruct (selectedCount summary =? 0)%nat; reflexivity.
  - unfold handleDownloadSummaryPdf.
    destruct (selectedCount summary =? 0)%nat; [reflexivity|].
    unfold bind at 1. rewrite generateSummaryPdf_cover.
    destruct (loadGoogleSansFont w st) as [[font|e] st1]; [|reflexivity].
    destruct (jsPdfOutput L font _); reflexivity.
Qed.

(** X9. The local exports never contact the ride provider. The export of
    the summary makes at most the one request for the font (none when it
    is cached or when nothing is selected) and, when it does not throw,
    hands over exactly the cover document that jsPDF drew; the export to
    CSV makes no request at all and hands over exactly the CSV text. *)
Theorem local_exports_stay_local (L : Libs) (w : World) (summary : Summary)
  (user : option UberCurrentUser) (st : ST) :
  let empty := (selectedCount summary =? 0)%nat in
  let pdfRun := handleDownloadSummaryPdf L w summary user st in
  let csvRun := handleDownloadCsv L summary st in
  requestsOf (trace (snd pdfRun))
  = requestsOf (trace st)
    ++ (if empty then []
        else match cachedFontBytes st with
             | Some _ => []
             | None => [ReqFetch fontUrl]
             end)
  /\ downloads (trace (snd pdfRun))
     = downloads (trace st)
       ++ (if empty then []
           else match loadGoogleSansFont w st with
                | (Ok font, st1) =>
                    match jsPdfOutput L font
                            (summaryDocument L
                               (exportSummary (selectedCount summary) summary)
                               (accountNameOf user) (clock st1)) with
                    | Ok cover => [inl cover]
                    | Throw _ => []
                    end
                | (Throw _, _) => []
                end)
  /\ (fst pdfRun = Ok tt
      \/ downloads (trace (snd pdfRun)) = downloads (trace st))
  /\ requestsOf (trace (snd csvRun)) = requestsOf (trace st)
  /\ downloads (trace (snd csvRun))
     = downloads (trace st)
       ++ (if empty then []
           else [inr (generateCsv L
                        (exportSummary (selectedCount summary) summary))])
  /\ cachedFontBytes (snd csvRun) = cachedFontBytes st.
Proof.
  cbv zeta.
  destruct (selectedCount summary =? 0)%nat eqn:Hsel.
  - unfold handleDownloadSummaryPdf, handleDownloadCsv. rewrite Hsel.
    cbn [ret snd]. rewrite !app_nil_r. auto 10.
  - rewrite (handleDownloadSummaryPdf_run L w summary user st Hsel),
      (handleDownloadCsv_run L summary st Hsel).
    destruct (loadGoogleSansFont_effects w st) as [Htr Hthrow].
    destruct (loadGoogleSansFont w st) as [[font|e] st1].
    + destruct (jsPdfOutput L font _) as [cover|e];
        cbn [fst snd trace cachedFontBytes] in *;
        repeat rewrite requestsOf_app; repeat rewrite downloads_app;
        rewrite Htr, requestsOf_app, downloads_app;
        destruct (cachedFontBytes st);
        cbn [requestsOf downloads flat_map app];
        rewrite ?app_nil_r; auto 10.
    + cbn [fst snd trace cachedFontBytes] in *.
      repeat rewrite requestsOf_app; repeat rewrite downloads_app.
      rewrite Htr, requestsOf_app, downloads_app, (Hthrow e eq_refl).
      cbn [requestsOf downloads flat_map app]; rewrite ?app_nil_r; auto 10.
Qed.

(* ===================================================================== *)
(** * Further properties: the CSV fields and the table cells *)
(* ===================================================================== *)

Lemma unquoteBody_quoted (field : jsstring) :
  unquoteBody (replaceAllUnit 34 [34%N; 34%N] field ++ [34%N]) = Some field.
Proof.
  induction field as [|c t IH]; [reflexivity|].
  cbn [replaceAllUnit]. destruct (unit_eqb c 34) eqn:E.
  - apply unit_eqb_eq in E. subst c.
    cbn [app unquoteBody]. rewrite unit_eqb_refl, IH. reflexivity.
  - cbn [app unquoteBody]. rewrite E, IH. reflexivity.
Qed.

(** X10. Quoting a CSV field loses nothing: a reader that drops the
    enclosing quotes and takes each doubled quote for one quote gets the
    text back, whatever it contains (quotes, commas, line breaks). Two
    different texts are therefore never written as the same field. *)
Theorem csv_field_round_trip (field : jsstring) :
  unquote (csvQuote field) = Some field
  /\ forall other, csvQuote other = csvQuote field -> other = field.
Proof.
  assert (H : forall f, unquote (csvQuote f) = Some f).
  { intros f. unfold csvQuote, unquote. cbn [app].
    rewrite unit_eqb_refl. apply unquoteBody_quoted. }
  split; [apply H|].
  intros other E. pose proof (H other) as Ho. rewrite E, H in Ho.
  now injection Ho.
Qed.

Lemma trimStart_clean (s : jsstring) : startsClean (trimStart s) = true.
Proof.
  induction s as [|c t IH]; [reflexivity|].
  cbn [trimStart]. destruct (isStrWhiteSpace c) eqn:E; [exact IH|].
  cbn [startsClean]. now rewrite E.
Qed.

Lemma trimStart_fixed (s : jsstring) :
  startsClean s = true -> trimStart s = s.
Proof.
  destruct s as [|c t]; [reflexivity|].
  cbn [startsClean trimStart]. now destruct (isStrWhiteSpace c).
Qed.

Lemma trimStart_snoc (s : jsstring) (c : N) :
  isStrWhiteSpace c = false -> trimStart (s ++ [c]) = trimStart s ++ [c].
Proof.
  intros Hc. induction s as [|d t IH]; cbn [app trimStart].
  - now rewrite Hc.
  - destruct (isStrWhiteSpace d); [exact IH | reflexivity].
Qed.

Lemma trimStart_forallb (P : N -> bool) (s : jsstring) :
  forallb P s = true -> forallb P (trimStart s) = true.
Proof.
  induction s as [|c t IH]; [reflexivity|].
  intros H. cbn [trimStart]. destruct (isStrWhiteSpace c); [|exact H].
  apply IH. cbn [forallb] in H. now apply andb_prop in H.
Qed.

Lemma forallb_rev (P : N -> bool) (s : jsstring) :
  forallb P (rev s) = forallb P s.
Proof.
  induction s as [|c t IH]; [reflexivity|].
  cbn [rev forallb]. rewrite forallb_app, IH. cbn [forallb].
  rewrite andb_true_r. apply andb_comm.
Qed.

Lemma trim_trimmed (s : jsstring) : trimmed (trim s) = true.
Proof.
  unfold trimmed, trim. rewrite rev_involutive, trimStart_clean, andb_true_r.
  pose proof (trimStart_clean s) as Hs.
  destruct (trimStart s) as [|c t]; [reflexivity|].
  cbn [startsClean] in Hs. apply negb_true_iff in Hs.
  cbn [rev]. rewrite (trimStart_snoc _ _ Hs), rev_app_distr.
  cbn [rev app startsClean]. now rewrite Hs.
Qed.

Lemma trim_fixed (s : jsstring) : trimmed s = true -> trim s = s.
Proof.
  unfold trimmed, trim. intros H. apply andb_prop in H as [H1 H2].
  rewrite (trimStart_fixed s H1), (trimStart_fixed _ H2).
  apply rev_involutive.
Qed.

Lemma trim_forallb (P : N -> bool) (s : jsstring) :
  forallb P s = true -> forallb P (trim s) = true.
Proof.
  intros H. unfold trim. rewrite forallb_rev.
  apply trimStart_forallb. rewrite forallb_rev.
  now apply trimStart_forallb.
Qed.

Lemma filter_forallb (P : N -> bool) (s : jsstring) :
  forallb P (filter P s) = true.
Proof.
  induction s as [|c t IH]; [reflexivity|].
  cbn [filter]. destruct (P c) eqn:E; [|exact IH].
  cbn [forallb]. now rewrite E.
Qed.

Lemma filter_fixed (P : N -> bool) (s : jsstring) :
  forallb P s = true -> filter P s = s.
Proof.
  induction s as [|c t IH]; [reflexivity|].
  cbn [forallb filter]. intros H. apply andb_prop in H as [H1 H2].
  now rewrite H1, IH.
Qed.

Lemma sanitizeText_filter (text : jsstring) :
  sanitizeText text = trim (filter printable text).
Proof. reflexivity. Qed.

(** X11. A sanitised table cell holds only printable ASCII and extended
    Latin units, neither starts nor ends with white space, and sanitising it
    again changes nothing. *)
Theorem sanitizeText_invariants (text : jsstring) :
  forallb printable (sanitizeText text) = true
  /\ trimmed (sanitizeText text) = true
  /\ sanitizeText (sanitizeText text) = sanitizeText text.
Proof.
  rewrite !sanitizeText_filter.
  assert (Hp : forallb printable (trim (filter printable text)) = true)
    by apply trim_forallb, filter_forallb.
  split; [exact Hp|]. split; [apply trim_trimmed|].
  rewrite (filter_fixed _ _ Hp). apply trim_fixed, trim_trimmed.
Qed.

Lemma filter_none_printable (s : jsstring) :
  forallb (fun c => negb (printable c)) s = true -> filter printable s = [].
Proof.
  induction s as [|c t IH]; [reflexivity|].
  cbn [forallb filter]. intros H. apply andb_prop in H as [H1 H2].
  apply negb_true_iff in H1. now rewrite H1, IH.
Qed.

(** X12. A driver name, vehicle or address that is not empty but is written
    without any printable ASCII or extended Latin unit (a name in
    Devanagari, say) gives an empty cell in the table of the cover
    document, not the placeholder "N/A": the placeholder only stands in
    for an empty text. *)
Theorem table_cell_of_unprintable_text (L : Libs) (index : nat)
  (ride : RideData) :
  truthy (rd_driverName ride) = true ->
  forallb (fun c => negb (printable c)) (rd_driverName ride) = true ->
  nth_error (tableRow L index ride) 3 = Some []
  /\ nth_error
       (tableRow L index
          {| rd_rideId := rd_rideId ride; rd_startTime := rd_startTime ride;
             rd_endTime := rd_endTime ride;
             rd_startLocation := rd_startLocation ride;
             rd_endLocation := rd_endLocation ride;
             rd_totalAmount := rd_totalAmount ride;
             rd_currency := rd_currency ride;
             rd_driverName := [];
             rd_vehicleType := rd_vehicleType ride;
             rd_status := rd_status ride;
             rd_invoiceUrl := rd_invoiceUrl ride |}) 3
     = Some (js "N/A").
Proof.
  intros Ht Hu. split; [|reflexivity].
  unfold tableRow. cbn [nth_error]. unfold orElse. rewrite Ht.
  rewrite sanitizeText_filter, (filter_none_printable _ Hu). reflexivity.
Qed.

Lemma table_cell_of_unprintable_text_witness :
  truthy (rd_driverName devanagariRide) = true
  /\ forallb (fun c => negb (printable c)) (rd_driverName devanagariRide)
     = true
  /\ nth_error (tableRow sampleLibs 0 devanagariRide) 3 = Some [].
Proof.
  split; [reflexivity|]. split; [reflexivity|].
  exact (proj1 (table_cell_of_unprintable_text sampleLibs 0 devanagariRide
                  eq_refl eq_refl)).
Defined.

(* ===================================================================== *)
(** * Further properties: amounts *)
(* ===================================================================== *)

Lemma binary_round_aux_notNegative (m e : Z) (l : location) :
  notNegative (binary_round_aux prec64 emax64 false m e l) = true.
Proof.
  unfold binary_round_aux.
  destruct (shr_fexp prec64 emax64 m e l) as [mrs' e'].
  destruct (shr_fexp prec64 emax64 _ e' loc_Exact) as [mrs'' e''].
  destruct (shr_m mrs''); [reflexivity| |reflexivity].
  destruct (e'' <=? emax64 - prec64); reflexivity.
Qed.

Lemma binary_normalize_notNegative (m e : Z) :
  0 <= m ->
  notNegative (binary_normalize prec64 emax64 m e false) = true.
Proof.
  intros Hm. unfold binary_normalize.
  destruct m as [|p|p]; [reflexivity| |lia].
  unfold binary_round.
  destruct (shl_align p e _) as [mz ez].
  apply binary_round_aux_notNegative.
Qed.

Lemma numOfDecimal_notNegative (m e10 : Z) :
  notNegative (numOfDecimal m e10) = true.
Proof.
  unfold numOfDecimal. destruct m as [|pm|pm]; try reflexivity.
  destruct e10 as [|pe|pe].
  - apply binary_normalize_notNegative. lia.
  - apply binary_normalize_notNegative.
    pose proof (Z.pow_nonneg 10 (Z.pos pe)). nia.
  - unfold SFdiv.
    destruct (SFdiv_core_binary prec64 emax64 (Z.pos pm) 0 _ 0)
      as [[mz ez] lz].
    apply binary_round_aux_notNegative.
Qed.

Lemma parseUnsigned_notNegative (s : jsstring) :
  notNegative (parseUnsigned s) = true.
Proof.
  unfold parseUnsigned.
  destruct (startsWith (js "Infinity") s); [reflexivity|].
  destruct (span isDigit s) as [ip r1].
  repeat match goal with
         | |- context [match ?x with _ => _ end] =>
             match x with
             | span _ _ => destruct x as [? ?]
             | _ => is_var x; destruct x
             end
         end;
    try reflexivity; apply numOfDecimal_notNegative.
Qed.

Lemma span_rest_forallb (P q : N -> bool) (s : jsstring) :
  forallb P s = true -> forallb P (snd (span q s)) = true.
Proof.
  induction s as [|c t IH]; [reflexivity|].
  intros H. cbn [span]. destruct (q c); [|exact H].
  cbn [forallb] in H. apply andb_prop in H as [_ H].
  specialize (IH H). destruct (span q t); exact IH.
Qed.

Lemma span_run_forallb (p : N -> bool) (s : jsstring) :
  forallb p (fst (span p s)) = true.
Proof.
  induction s as [|c t IH]; [reflexivity|].
  cbn [span]. destruct (p c) eqn:E; [|reflexivity].
  destruct (span p t). cbn [fst forallb] in *. now rewrite E.
Qed.

(** [parseFloat] of a text without a minus sign. *)
Lemma parseFloat_notNegative (s : jsstring) :
  forallb (fun c => negb (c =? 45)%N) s = true ->
  notNegative (parseFloat s) = true.
Proof.
  intros H. apply (span_rest_forallb _ isStrWhiteSpace) in H.
  unfold parseFloat.
  destruct (snd (span isStrWhiteSpace s)) as [|c t];
    [apply parseUnsigned_notNegative|].
  cbn [forallb] in H. apply andb_prop in H as [Hc _].
  apply negb_true_iff, N.eqb_neq in Hc.
  destruct (N.eq_dec c 43) as [->|H43]; [apply parseUnsigned_notNegative|].
  destruct c as [|p]; [apply parseUnsigned_notNegative|].
  repeat match goal with
         | |- context [match ?x with xI _ => _ | xO _ => _ | xH => _ end] =>
             is_var x; destruct x
         end;
    try apply parseUnsigned_notNegative; congruence.
Qed.

Lemma forallb_weaken (P Q : N -> bool) (s : jsstring) :
  (forall c, P c = true -> Q c = true) ->
  forallb P s = true -> forallb Q s = true.
Proof.
  intros HPQ. induction s as [|c t IH]; [reflexivity|].
  cbn [forallb]. intros H. apply andb_prop in H as [H1 H2].
  now rewrite (HPQ c H1), IH.
Qed.

Lemma matchGroup_chars (s g : jsstring) :
  matchGroup s = Some g -> forallb isAmountChar g = true.
Proof.
  unfold matchGroup.
  pose proof (span_run_forallb isDigitOrComma s) as Hrun.
  destruct (span isDigitOrComma s) as [run r1]. cbn [fst] in Hrun.
  assert (Hr : forallb isAmountChar run = true).
  { revert Hrun. apply forallb_weaken. intros c Hc.
    unfold isAmountChar. unfold isDigitOrComma in Hc. now rewrite Hc. }
  assert (Hd : forall r, forallb isAmountChar (fst (span isDigit r)) = true).
  { intros r. generalize (span_run_forallb isDigit r).
    apply forallb_weaken. intros c Hc. unfold isAmountChar. now rewrite Hc. }
  destruct run as [|c0 run]; [discriminate|].
  remember (c0 :: run) as run' eqn:Erun. clear Erun.
  destruct r1 as [|c r2].
  - intros E. injection E as <-. exact Hr.
  - destruct (unit_eqb c DOT) eqn:Edot; intros E; injection E as <-.
    + rewrite forallb_app, Hr. cbn [app forallb]. rewrite Hd.
      unfold isAmountChar. rewrite Edot, orb_true_r. reflexivity.
    + rewrite forallb_app, Hr. exact (Hd (c :: r2)).
Qed.

Lemma amountMatch_chars (text g : jsstring) :
  amountMatch text = Some g -> forallb isAmountChar g = true.
Proof.
  induction text as [|c t IH]; cbn [amountMatch matchAt].
  - discriminate.
  - destruct (isCurrencySymbol c).
    + destruct (matchGroup t) as [g1|] eqn:E1.
      * intros E. injection E as <-. exact (matchGroup_chars _ _ E1).
      * destruct (matchGroup (c :: t)) as [g2|] eqn:E2.
        -- intros E. injection E as <-. exact (matchGroup_chars _ _ E2).
        -- exact IH.
    + destruct (matchGroup (c :: t)) as [g2|] eqn:E2.
      * intros E. injection E as <-. exact (matchGroup_chars _ _ E2).
      * exact IH.
Qed.

Lemma skipn_forallb (P : N -> bool) (n : nat) (s : jsstring) :
  forallb P s = true -> forallb P (skipn n s) = true.
Proof.
  revert s. induction n as [|n IH]; intros [|c t] H; try exact H.
  cbn [skipn]. apply IH. cbn [forallb] in H.
  now apply andb_prop in H.
Qed.

Lemma replaceFirst_forallb (P : N -> bool) (pat s : jsstring) :
  forallb P s = true -> forallb P (replaceFirst pat [] s) = true.
Proof.
  induction s as [|c t IH]; intros H; cbn [replaceFirst].
  - destruct (startsWith pat []); [|reflexivity].
    cbn [app]. now apply skipn_forallb.
  - destruct (startsWith pat (c :: t)).
    + cbn [app]. now apply skipn_forallb.
    + cbn [forallb] in *. apply andb_prop in H as [H1 H2].
      now rewrite H1, IH.
Qed.

Lemma numAdd_notNegative (x y : number) :
  notNegative x = true -> notNegative y = true ->
  notNegative (numAdd x y) = true.
Proof.
  unfold numAdd, SFadd.
  destruct x as [sx|sx| |sx mx ex], y as [sy|sy| |sy my ey];
    cbn [notNegative]; intros Hx Hy;
    try apply negb_true_iff in Hx; try apply negb_true_iff in Hy;
    subst; try reflexivity.
  cbn [cond_Zopp].
  apply binary_normalize_notNegative. lia.
Qed.

(** X13. The amount parser never returns a negative number, whatever the
    text: a minus sign is not part of the amount pattern, so the fare of a
    text such as [-₹50.00] is read as 50. The total of a selection of
    amounts that are not negative is not negative either. *)
Theorem amounts_are_never_negative (text : jsstring)
  (filtered : list TransformedRide) (rowSelection : jsstring -> bool) :
  notNegative (parseAmount text) = true
  /\ (forallb (fun ride => notNegative (totalAmount ride)) filtered = true ->
      notNegative (sum_totalAmount (summaryOf filtered rowSelection)) = true).
Proof.
  split.
  - unfold parseAmount.
    destruct (amountMatch text) as [g|] eqn:E; [|reflexivity].
    apply parseFloat_notNegative, replaceFirst_forallb.
    generalize (amountMatch_chars _ _ E). apply forallb_weaken.
    intros c Hc. unfold isAmountChar, isDigit, unit_eqb, COMMA, DOT in Hc.
    apply negb_true_iff, N.eqb_neq. intros ->. discriminate.
  - intros Hall. unfold summaryOf. cbn [sum_totalAmount].
    assert (Hsel : forallb (fun ride => notNegative (totalAmount ride))
                     (filter (fun ride => rowSelection (rideId ride))
                        filtered) = true).
    { clear - Hall. induction filtered as [|r l IH]; [reflexivity|].
      cbn [forallb filter] in *. apply andb_prop in Hall as [H1 H2].
      destruct (rowSelection (rideId r)); cbn [forallb];
        rewrite ?H1; auto. }
    clear Hall.
    assert (Hz : notNegative numZero = true) by reflexivity.
    revert Hz Hsel. generalize numZero.
    induction (filter _ filtered) as [|r l IH]; intros acc Hacc Hl.
    + exact Hacc.
    + cbn [fold_left forallb] in *. apply andb_prop in Hl as [H1 H2].
      apply IH; [|exact H2]. now apply numAdd_notNegative.
Qed.

Lemma amounts_are_never_negative_witness :
  parseAmount (js "-₹50.00") = numOfDecimal 5000 (-2)
  /\ notNegative (parseAmount (js "-₹50.00")) = true
  /\ notNegative (sum_totalAmount (summaryOf scenarioRides (fun _ => true)))
     = true.
Proof.
  split; [vm_compute; reflexivity|].
  destruct (amounts_are_never_negative (js "-₹50.00") scenarioRides
              (fun _ => true)) as [H1 H2].
  split; [exact H1 | apply H2; vm_compute; reflexivity].
Defined.

Lemma span_none (p : N -> bool) (s : jsstring) :
  match s with c :: _ => p c = false | [] => True end ->
  span p s = ([], s).
Proof.
  destruct s as [|c t]; [reflexivity|]. cbn [span]. now intros ->.
Qed.

Lemma matchGroup_none (c : N) (t : jsstring) :
  isDigitOrComma c = false -> matchGroup (c :: t) = None.
Proof. intros H. unfold matchGroup. cbn [span]. now rewrite H. Qed.

Lemma matchGroup_lone_comma (post : jsstring) :
  match post with
  | c :: _ => isDigitOrComma c || unit_eqb c DOT = false
  | [] => True
  end ->
  matchGroup (COMMA :: post) = Some [COMMA].
Proof.
  intros H. unfold matchGroup. cbn [span].
  change (isDigitOrComma COMMA) with true. cbv iota.
  destruct post as [|c r2].
  - reflexivity.
  - apply orb_false_elim in H as [H1 H2].
    cbn [span]. rewrite H1, H2.
    unfold isDigitOrComma in H1. apply orb_false_elim in H1 as [H1 _].
    cbn [span]. rewrite H1. reflexivity.
Qed.

Lemma amountMatch_lone_comma (pre post : jsstring) :
  forallb (fun c => negb (isDigitOrComma c)) pre = true ->
  match post with
  | c :: _ => isDigitOrComma c || unit_eqb c DOT = false
  | [] => True
  end ->
  amountMatch (pre ++ COMMA :: post) = Some [COMMA].
Proof.
  intros Hpre Hpost. induction pre as [|c pre IH].
  - cbn [app amountMatch matchAt].
    change (isCurrencySymbol COMMA) with false. cbv iota.
    now rewrite (matchGroup_lone_comma post Hpost).
  - cbn [forallb] in Hpre. apply andb_prop in Hpre as [Hc Hpre].
    apply negb_true_iff in Hc. specialize (IH Hpre).
    cbn [app amountMatch matchAt].
    rewrite (matchGroup_none c _ Hc).
    destruct (isCurrencySymbol c); [|exact IH].
    destruct pre as [|d pre'].
    + cbn [app]. now rewrite (matchGroup_lone_comma post Hpost).
    + cbn [forallb] in Hpre. apply andb_prop in Hpre as [Hd _].
      apply negb_true_iff in Hd. cbn [app].
      rewrite (matchGroup_none d _ Hd). exact IH.
Qed.

(** X14. A text in which a comma comes before any digit, and is followed
    by neither a digit, a comma nor a point, does not parse to 0 but to NaN:
    the comma alone matches the amount pattern, and once it is removed
    nothing is left for [parseFloat]. *)
Theorem lone_comma_parses_to_nan (pre post : jsstring) :
  forallb (fun c => negb (isDigitOrComma c)) pre = true ->
  match post with
  | c :: _ => isDigitOrComma c || unit_eqb c DOT = false
  | [] => True
  end ->
  parseAmount (pre ++ js "," ++ post) = numNaN
  /\ toFixed2 (parseAmount (pre ++ js "," ++ post)) = js "NaN".
Proof.
  intros Hpre Hpost.
  assert (E : parseAmount (pre ++ js "," ++ post) = numNaN).
  { unfold parseAmount. change (js "," ++ post) with (COMMA :: post).
    rewrite (amountMatch_lone_comma pre post Hpre Hpost). reflexivity. }
  split; [exact E|]. rewrite E. reflexivity.
Qed.

Lemma lone_comma_parses_to_nan_witness :
  parseAmount (js "Cancelled, no fare") = numNaN
  /\ parseAmount (js "Cancelled") = numZero.
Proof.
  split; [|reflexivity].
  exact (proj1 (lone_comma_parses_to_nan (js "Cancelled") (js " no fare")
                  eq_refl eq_refl)).
Defined.

Lemma numAdd_nan_r (x : number) : numAdd x numNaN = numNaN.
Proof. destruct x; reflexivity. Qed.

Lemma fold_amounts_nan (l : list TransformedRide) :
  fold_left (fun sum ride => numAdd sum (totalAmount ride)) l numNaN
  = numNaN.
Proof. induction l as [|r l IH]; [reflexivity | exact IH]. Qed.

Lemma fold_amounts_with_nan (l : list TransformedRide) (ride : TransformedRide) :
  In ride l -> totalAmount ride = numNaN ->
  forall acc,
    fold_left (fun sum ride => numAdd sum (totalAmount ride)) l acc = numNaN.
Proof.
  intros Hin Hnan. induction l as [|r l IH]; [contradiction|].
  intros acc. cbn [fold_left]. destruct Hin as [->|Hin].
  - rewrite Hnan, numAdd_nan_r. apply fold_amounts_nan.
  - now apply IH.
Qed.

(** X15. One selected ride whose amount is NaN makes the whole selection
    total NaN, and the exports print it: the total cell of the CSV reads
    "NaN" and the grand total of the cover reads the currency symbol
    followed by "NaN". *)
Theorem nan_amount_spoils_the_total (filtered : list TransformedRide)
  (rowSelection : jsstring -> bool) (ride : TransformedRide) (count : nat) :
  In ride filtered ->
  rowSelection (rideId ride) = true ->
  totalAmount ride = numNaN ->
  let summary := summaryOf filtered rowSelection in
  sum_totalAmount summary = numNaN
  /\ nth_error (csvTotalRow (exportSummary count summary)) 8
     = Some (js "NaN")
  /\ nth_error (grandTotalRow (exportSummary count summary)) 7
     = Some (getCurrencySymbol (sum_currency summary) ++ js "NaN").
Proof.
  intros Hin Hsel Hnan. cbv zeta.
  assert (E : sum_totalAmount (summaryOf filtered rowSelection) = numNaN).
  { unfold summaryOf. cbn [sum_totalAmount].
    apply (fold_amounts_with_nan _ ride); [|exact Hnan].
    apply filter_In. now split. }
  split; [exact E|].
  unfold csvTotalRow, grandTotalRow, exportSummary, formatCurrency.
  cbn [nth_error rs_totalAmount rs_currency]. rewrite E. split; reflexivity.
Qed.

Lemma nan_amount_spoils_the_total_witness :
  let bad := sampleRide "t3" (parseAmount (js "Cancelled, no fare")) "INR"
               "2026-01-05" in
  sum_totalAmount (summaryOf (scenarioRides ++ [bad]) (fun _ => true))
  = numNaN.
Proof.
  cbv zeta.
  refine (proj1 (nan_amount_spoils_the_total
                   (scenarioRides ++ [_]) (fun _ => true)
                   (sampleRide "t3" (parseAmount (js "Cancelled, no fare"))
                      "INR" "2026-01-05") 3 _ eq_refl _)).
  - apply in_or_app. right. left. reflexivity.
  - vm_compute. reflexivity.
Defined.

(* ===================================================================== *)
(** * Further properties: the rides built from the provider's answers *)
(* ===================================================================== *)

Lemma getCurrencySymbol_detected (text : jsstring) :
  getCurrencySymbol (detectCurrency text) = shownSymbol text.
Proof.
  unfold detectCurrency, shownSymbol.
  destruct (includes text (js "₹")); [reflexivity|].
  destruct (includes text (js "€")); [reflexivity|].
  destruct (includes text (js "£")); reflexivity.
Qed.

(** X16. A ride built by the server functions is always shown with one of
    the four symbols, never with a currency code: the symbol found in the
    fare text (the rupee sign first, then the euro and the pound signs),
    and the dollar sign for every other text, a fare in another currency
    included. *)
Theorem built_rides_currency_symbol (w : World) (activity : UberActivity)
  (response : UberGetTripResponse) :
  formatCurrency (totalAmount (transformActivity w activity))
    (currency (transformActivity w activity))
  = shownSymbol (description activity)
    ++ toFixed2 (parseAmount (description activity))
  /\ formatCurrency (totalAmount (rideOfTrip response))
       (currency (rideOfTrip response))
     = shownSymbol (fare (trip response))
       ++ toFixed2 (parseAmount (fare (trip response)))
  /\ formatCurrency (parseAmount (js "AED 25.00"))
       (detectCurrency (js "AED 25.00")) = js "$25.00".
Proof.
  unfold formatCurrency, transformActivity, rideOfTrip.
  cbn [totalAmount currency].
  rewrite !getCurrencySymbol_detected.
  split; [reflexivity|]. split; [reflexivity|]. vm_compute. reflexivity.
Qed.

Lemma startsWith_sep_plain (c : N) (s : jsstring) :
  match s with d :: _ => unit_eqb BULLET d = false | [] => True end ->
  startsWith (js " • ") (c :: s) = false.
Proof.
  change (js " • ") with [32%N; BULLET; 32%N].
  intros H. cbn [startsWith]. destruct s as [|d s'].
  - apply andb_false_r.
  - rewrite H. cbn [andb]. apply andb_false_r.
Qed.

Lemma splitFrom_plain (s : jsstring) :
  bulletFree s = true ->
  forall cur, splitFrom (js " • ") 0 cur s = [rev cur ++ s].
Proof.
  induction s as [|c t IH]; intros H cur.
  - cbn [splitFrom]. now rewrite app_nil_r.
  - unfold bulletFree in H. cbn [forallb] in H.
    apply andb_prop in H as [_ Ht]. cbn [splitFrom].
    rewrite startsWith_sep_plain.
    + rewrite (IH Ht). cbn [rev]. now rewrite <- app_assoc.
    + destruct t as [|d t']; [exact I|]. cbn [forallb] in Ht.
      apply andb_prop in Ht as [Hd _]. now apply negb_true_iff in Hd.
Qed.

Lemma splitFrom_first (d t : jsstring) :
  bulletFree d = true ->
  forall cur,
    splitFrom (js " • ") 0 cur (d ++ js " • " ++ t)
    = (rev cur ++ d) :: splitFrom (js " • ") 0 [] t.
Proof.
  induction d as [|c d' IH]; intros H cur.
  - rewrite app_nil_r. reflexivity.
  - unfold bulletFree in H. cbn [forallb] in H.
    apply andb_prop in H as [_ Hd]. cbn [app splitFrom].
    rewrite startsWith_sep_plain.
    + rewrite (IH Hd). cbn [rev]. now rewrite <- app_assoc.
    + destruct d' as [|e d'']; [reflexivity|]. cbn [forallb app] in *.
      apply andb_prop in Hd as [He _]. now apply negb_true_iff in He.
Qed.

(** X17. The start time of a ride built from the activity listing is a
    text put together from the subtitle and the year of the server's
    clock: for a subtitle [date • time] it is [date year time]; without a
    bullet the whole subtitle is the date and the time is 00:00. The year
    is the current one whatever the year of the ride. *)
Theorem activity_start_time (w : World) (activity : UberActivity)
  (date time : jsstring) :
  bulletFree date = true ->
  bulletFree time = true ->
  (subtitle activity = date ++ js " • " ++ time ->
   startTime (transformActivity w activity)
   = date ++ js " " ++ decimalOfZ (currentYear w) ++ js " "
     ++ orElse time (js "00:00"))
  /\ (subtitle activity = date ->
      startTime (transformActivity w activity)
      = date ++ js " " ++ decimalOfZ (currentYear w) ++ js " 00:00").
Proof.
  intros Hd Ht. unfold transformActivity. cbn [startTime]. split; intros ->.
  - unfold split. rewrite (splitFrom_first date time Hd).
    rewrite (splitFrom_plain time Ht). reflexivity.
  - unfold split. rewrite (splitFrom_plain date Hd). reflexivity.
Qed.

Lemma activity_start_time_witness :
  bulletFree (js "16 Nov") = true
  /\ bulletFree (js "22:33") = true
  /\ startTime (transformActivity sampleWorld
                  (sampleActivity "t1" "https://cdn.example/UberX.png"))
     = js "16 Nov 2025 22:33".
Proof.
  split; [reflexivity|]. split; [reflexivity|].
  exact (proj1 (activity_start_time sampleWorld
                  (sampleActivity "t1" "https://cdn.example/UberX.png")
                  (js "16 Nov") (js "22:33") eq_refl eq_refl) eq_refl).
Defined.

(** X18. A ride known from the activity listing alone (its details could
    not be fetched) passes the filter on completed rides, and the exports
    show what is missing: in the table of the cover its dropoff time,
    driver and destination read "N/A"; in the CSV its dropoff time is
    empty and its driver and destination are empty quoted fields. *)
Theorem activity_only_ride_in_exports (L : Libs) (w : World)
  (activity : UberActivity) (index : nat) :
  let ride := transformActivity w activity in
  let row := tableRow L index (toRideData ride) in
  let line := csvRow L (toRideData ride) in
  filteredRides FilterCompleted [ride] = [ride]
  /\ nth_error row 2 = Some (js "N/A")
  /\ nth_error row 3 = Some (js "N/A")
  /\ nth_error row 6 = Some (js "N/A")
  /\ nth_error line 2 = Some []
  /\ nth_error line 3 = Some [34%N; 34%N]
  /\ nth_error line 5 = Some (csvQuote (js "COMPLETED"))
  /\ nth_error line 7 = Some [34%N; 34%N].
Proof.
  cbv zeta. repeat split.
Qed.

(* ===================================================================== *)
(** * Further properties: the dashboard handlers *)
(* ===================================================================== *)

Lemma tripRequests_page (w : World) (vars : ActivitiesVariables) (st : ST) :
  tripRequests (trace (afterRequest w (ReqActivities vars) st))
  = tripRequests (trace st).
Proof.
  cbn [afterRequest trace]. rewrite tripRequests_app. cbn.
  apply app_nil_r.
Qed.

Lemma tripRequests_log (label : jsstring) (st : ST) :
  tripRequests (trace (afterLog label st)) = tripRequests (trace st).
Proof.
  cbn [afterLog trace]. rewrite tripRequests_app. cbn.
  apply app_nil_r.
Qed.

(** The pager asks for no trip detail. *)
Lemma activityPager_tripRequests (w : World) (auth : UberAuthCredentials)
  (s e : Z) (answers : list (Outcome UberActivitiesResponse)) :
  truthy (cookie auth) && truthy (csrfToken auth) = true ->
  forall token acc st r st',
    activityPager w auth s e answers token acc st = Some (r, st') ->
    tripRequests (trace st') = tripRequests (trace st).
Proof.
  intros Hauth. induction answers as [|answer later IH];
    intros token acc st r st' H; [discriminate|].
  cbn [activityPager] in H.
  rewrite (fetchActivities_run _ _ _ _ _ _ _ Hauth) in H. cbv zeta in H.
  destruct answer as [page|err].
  - cbn [fa_error truthyOpt fa_nextPageToken fa_activities] in H.
    destruct (negb (truthyOpt (past_nextPageToken page))).
    + injection H as _ <-. apply tripRequests_page.
    + apply IH in H. rewrite H. apply tripRequests_page.
  - cbn [fa_error truthyOpt fa_nextPageToken fa_activities] in H.
    destruct (truthy (errorMessage err (js "Unknown error"))).
    + unfold bind, consoleLog, emit, ret in H.
      cbn [afterLog afterRequest trace clock ticks cachedFontBytes] in H.
      injection H as _ <-. cbn [trace].
      repeat rewrite tripRequests_app. cbn. now rewrite !app_nil_r.
    + cbn [negb] in H. injection H as _ <-.
      rewrite tripRequests_log. apply tripRequests_page.
Qed.

Lemma Permutation_concat_segments (bs segments : list (list jsstring)) :
  Forall2 (fun batch segment => Permutation segment batch) bs segments ->
  Permutation (List.concat segments) (List.concat bs).
Proof.
  induction 1 as [|b s bs' ss' Hp _ IH]; cbn [List.concat].
  - constructor.
  - now apply Permutation_app.
Qed.



(** X20. With stored credentials that lack the cookie or the token, the
    handlers that call the server stop at its input check: no request is
    made, nothing is downloaded, the list of rides is not set, and a
    single console message is written. *)
Theorem handlers_with_missing_credentials (L : Libs) (w : World)
  (auth : UberAuthCredentials) (from : Z) (to : option Z)
  (answers : list (Outcome UberActivitiesResponse)) (summary : Summary)
  (user : option UberCurrentUser) (st : ST) :
  truthy (cookie auth) && truthy (csrfToken auth) = false ->
  answers <> [] ->
  selectedCount summary <> 0%nat ->
  handleFetchRides L w (Some auth) (Some from) to answers st
  = Some (None, afterLog (js "Failed to fetch rides:") st)
  /\ handleDownloadReport L w (Some auth) summary user st
     = (Ok tt, afterLog (js "Failed to download receipts:") st)
  /\ handleDownloadInvoices L w (Some auth) summary st
     = (Ok tt, afterLog (js "Failed to download invoices:") st).
Proof.
  intros Hauth Hans Hsel.
  pose proof (requireAuth_missing auth st Hauth) as E.
  apply Nat.eqb_neq in Hsel.
  split; [|split].
  - unfold handleFetchRides.
    destruct answers as [|answer later]; [contradiction|].
    cbn [activityPager]. unfold fetchActivities, bind. rewrite E.
    reflexivity.
  - unfold handleDownloadReport. rewrite Hsel.
    unfold tryCatch, bind, fetchMultipleReceiptPdfs, bind. rewrite E.
    reflexivity.
  - unfold handleDownloadInvoices. rewrite Hsel.
    unfold tryCatch, bind, fetchMultipleReceiptPdfs, bind. rewrite E.
    reflexivity.
Qed.

Lemma handlers_with_missing_credentials_witness :
  let auth := {| cookie := js "sid=abc"; csrfToken := [] |} in
  truthy (cookie auth) && truthy (csrfToken auth) = false
  /\ samplePages <> []
  /\ selectedCount scenarioSummary <> 0%nat
  /\ handleDownloadReport sampleLibs sampleWorld (Some auth) scenarioSummary
       None st0
     = (Ok tt, afterLog (js "Failed to download receipts:") st0).
Proof.
  cbv zeta.
  assert (Hans : samplePages <> []) by discriminate.
  assert (Hsel : selectedCount scenarioSummary <> 0%nat) by discriminate.
  split; [reflexivity|]. split; [exact Hans|]. split; [exact Hsel|].
  exact (proj1 (proj2
           (handlers_with_missing_credentials sampleLibs sampleWorld
              {| cookie := js "sid=abc"; csrfToken := [] |}
              1763251200000 None samplePages scenarioSummary None st0
              eq_refl Hans Hsel))).
Defined.

(* ===================================================================== *)
(** * Further properties: the Select All button *)
(* ===================================================================== *)

Lemma jseqb_refl (a : jsstring) : jseqb a a = true.
Proof. now apply jseqb_eq. Qed.

Lemma jseqb_neq (a b : jsstring) : a <> b -> jseqb a b = false.
Proof.
  intros H. destruct (jseqb a b) eqn:E; [|reflexivity].
  apply jseqb_eq in E. contradiction.
Qed.

Lemma rowSelected_setKey_same (sel : RowSelectionState) (id : jsstring) :
  rowSelected (setKey sel id true) id = true.
Proof.
  induction sel as [|[key old] rest IH]; cbn [setKey rowSelected].
  - now rewrite jseqb_refl.
  - destruct (jseqb key id) eqn:E; cbn [rowSelected]; rewrite E; auto.
Qed.

Lemma rowSelected_setKey_keeps (sel : RowSelectionState)
  (id other : jsstring) :
  rowSelected sel other = true ->
  rowSelected (setKey sel id true) other = true.
Proof.
  induction sel as [|[key old] rest IH]; cbn [setKey rowSelected]; intros H.
  - destruct (jseqb id other); [reflexivity | exact H].
  - destruct (jseqb key id) eqn:E; cbn [rowSelected];
      destruct (jseqb key other); auto.
Qed.

Lemma protoFree_setKey (sel : RowSelectionState) (id : jsstring)
  (value : bool) :
  jseqb id (js "__proto__") = false ->
  protoFree sel = true -> protoFree (setKey sel id value) = true.
Proof.
  intros Hid. unfold protoFree.
  induction sel as [|[key old] rest IH]; cbn [setKey forallb fst].
  - now rewrite Hid.
  - intros H. apply andb_prop in H as [H1 H2].
    destruct (jseqb key id); cbn [forallb fst]; rewrite H1; auto.
Qed.

Lemma protoFree_assignKey (sel : RowSelectionState) (id : jsstring)
  (value : bool) :
  protoFree sel = true -> protoFree (assignKey sel id value) = true.
Proof.
  intros H. unfold assignKey.
  destruct (jseqb id (js "__proto__")) eqn:E; [exact H|].
  now apply protoFree_setKey.
Qed.

Lemma rowSelected_proto (sel : RowSelectionState) :
  protoFree sel = true -> rowSelected sel (js "__proto__") = true.
Proof.
  unfold protoFree.
  induction sel as [|[key old] rest IH]; [reflexivity|].
  cbn [forallb fst rowSelected]. intros H. apply andb_prop in H as [H1 H2].
  apply negb_true_iff in H1. rewrite H1. auto.
Qed.

Lemma rowSelected_assignKey_same (sel : RowSelectionState) (id : jsstring) :
  protoFree sel = true ->
  rowSelected (assignKey sel id true) id = true.
Proof.
  intros H. unfold assignKey.
  destruct (jseqb id (js "__proto__")) eqn:E.
  - apply jseqb_eq in E. subst id. now apply rowSelected_proto.
  - apply rowSelected_setKey_same.
Qed.

Lemma rowSelected_assignKey_keeps (sel : RowSelectionState)
  (id other : jsstring) :
  rowSelected sel other = true ->
  rowSelected (assignKey sel id true) other = true.
Proof.
  intros H. unfold assignKey.
  destruct (jseqb id (js "__proto__")); [exact H|].
  now apply rowSelected_setKey_keeps.
Qed.

Lemma selectAll_selects (filtered : list TransformedRide) :
  forall sel,
    protoFree sel = true ->
    let sel' :=
      fold_left (fun newSelection ride =>
                   assignKey newSelection (rideId ride) true) filtered sel in
    protoFree sel' = true
    /\ (forall id, rowSelected sel id = true -> rowSelected sel' id = true)
    /\ (forall ride, In ride filtered ->
                     rowSelected sel' (rideId ride) = true).
Proof.
  induction filtered as [|r l IH]; intros sel Hp; cbn [fold_left].
  - repeat split; auto; contradiction.
  - destruct (IH (assignKey sel (rideId r) true)
                (protoFree_assignKey _ _ _ Hp)) as [H1 [H2 H3]].
    split; [exact H1|]. split.
    + intros id Hid. apply H2. now apply rowSelected_assignKey_keeps.
    + intros ride [<-|Hin]; [|now apply H3].
      apply H2. now apply rowSelected_assignKey_same.
Qed.

Lemma setKey_new (sel : RowSelectionState) (id : jsstring) (value : bool) :
  ~ In id (map fst sel) ->
  map fst (setKey sel id value) = map fst sel ++ [id].
Proof.
  induction sel as [|[key old] rest IH]; cbn [setKey map fst app In];
    intros H.
  - reflexivity.
  - rewrite jseqb_neq by tauto. cbn [map fst]. rewrite IH by tauto.
    reflexivity.
Qed.

Lemma selectAll_keys (filtered : list TransformedRide) :
  forall sel,
    NoDup (map fst sel ++ map rideId filtered) ->
    ~ In (js "__proto__") (map rideId filtered) ->
    map fst (fold_left (fun newSelection ride =>
                          assignKey newSelection (rideId ride) true)
               filtered sel)
    = map fst sel ++ map rideId filtered.
Proof.
  induction filtered as [|r l IH]; intros sel Hnd Hproto;
    cbn [fold_left map].
  - now rewrite app_nil_r.
  - cbn [map In] in Hproto.
    assert (Hnew : ~ In (rideId r) (map fst sel)).
    { intros Hin. apply NoDup_remove_2 in Hnd. apply Hnd.
      apply in_or_app. now left. }
    assert (E : map fst (assignKey sel (rideId r) true)
                = map fst sel ++ [rideId r]).
    { unfold assignKey. rewrite jseqb_neq by (intros E; apply Hproto; auto).
      now apply setKey_new. }
    rewrite IH.
    + rewrite E, <- app_assoc. reflexivity.
    + rewrite E, <- app_assoc. exact Hnd.
    + tauto.
Qed.

(** X21. The Select All button. When the number of keys of the row
    selection differs from the number of listed rides, a click selects
    every listed ride: the summary then holds exactly the listed rides.
    When the identifiers are pairwise distinct (and none of them is the
    text __proto__, which cannot become a key), the selection so made has
    one key per ride, so that the next click clears it. *)
Theorem select_all_toggle (rowSelection : RowSelectionState)
  (filtered : list TransformedRide) :
  List.length rowSelection <> List.length filtered ->
  let selection := selectAllClick rowSelection filtered in
  rides (summaryOf filtered (rowSelected selection)) = filtered
  /\ selectedCount (summaryOf filtered (rowSelected selection))
     = List.length filtered
  /\ (NoDup (map rideId filtered) ->
      ~ In (js "__proto__") (map rideId filtered) ->
      List.length selection = List.length filtered
      /\ selectAllClick selection filtered = []).
Proof.
  intros Hne. cbv zeta. unfold selectAllClick.
  apply Nat.eqb_neq in Hne. rewrite Hne.
  destruct (selectAll_selects filtered [] eq_refl) as [_ [_ Hall]].
  cbv zeta in Hall. cbv iota.
  remember (fold_left (fun newSelection ride =>
                         assignKey newSelection (rideId ride) true)
              filtered []) as selection eqn:Esel.
  assert (E : filter (fun ride => rowSelected selection (rideId ride))
                filtered = filtered).
  { apply filter_all. intros r Hr. now apply Hall. }
  unfold summaryOf. cbn [rides selectedCount]. rewrite E.
  split; [reflexivity|]. split; [reflexivity|].
  intros Hnd Hproto.
  assert (Hlen : List.length selection = List.length filtered).
  { rewrite <- (length_map fst selection), Esel.
    rewrite (selectAll_keys filtered [] Hnd Hproto).
    cbn [map app]. apply length_map. }
  split; [exact Hlen|].
  rewrite Hlen, Nat.eqb_refl. reflexivity.
Qed.

Lemma select_all_toggle_witness :
  let selection := selectAllClick [] scenarioRides in
  List.length (@nil (jsstring * bool)) <> List.length scenarioRides
  /\ rides (summaryOf scenarioRides (rowSelected selection)) = scenarioRides
  /\ selectAllClick selection scenarioRides = [].
Proof.
  cbv zeta.
  assert (Hne : List.length (@nil (jsstring * bool))
                <> List.length scenarioRides) by discriminate.
  destruct (select_all_toggle [] scenarioRides Hne) as [H1 [_ H3]].
  split; [exact Hne|]. split; [exact H1|].
  apply H3.
  - vm_compute.
    repeat (constructor;
            [intros H; simpl in H;
             repeat (destruct H as [H|H]; [discriminate|]); exact H|]).
    constructor.
  - vm_compute. intros H.
    repeat (destruct H as [H|H]; [discriminate|]). exact H.
Defined.

(* ===================================================================== *)
(** * Further properties: the tables of the exports *)
(* ===================================================================== *)

Lemma mapIndexed_length {X Y} (f : nat -> X -> Y) (l : list X) :
  forall k, List.length (mapIndexed f k l) = List.length l.
Proof.
  induction l as [|x l IH]; intros k; cbn [mapIndexed List.length];
    [reflexivity | now rewrite IH].
Qed.

Lemma mapIndexed_nth {X Y} (f : nat -> X -> Y) (l : list X) :
  forall k i,
    nth_error (mapIndexed f k l) i
    = match nth_error l i with
      | Some x => Some (f (k + i)%nat x)
      | None => None
      end.
Proof.
  induction l as [|x l IH]; intros k [|i]; cbn [mapIndexed nth_error];
    try reflexivity.
  - now rewrite Nat.add_0_r.
  - rewrite IH. now rewrite Nat.add_succ_r.
Qed.

Lemma mapIndexed_Forall {X Y} (P : Y -> Prop) (f : nat -> X -> Y)
  (l : list X) :
  (forall i x, P (f i x)) -> forall k, Forall P (mapIndexed f k l).
Proof.
  intros H. induction l as [|x l IH]; intros k; cbn [mapIndexed];
    constructor; auto.
Qed.

(** X22. The tables of both exports are rectangular and complete: one row
    per ride of the summary, in order, then the total row; every row has
    as many cells as the header (8 in the cover document, 10 in the CSV);
    the rows of the cover are numbered from 1. The count field of the
    summary plays no part in it. *)
Theorem export_tables_are_rectangular (L : Libs) (summary : RidesSummary)
  (i : nat) :
  List.length (tableData L summary) = S (List.length (rs_rides summary))
  /\ Forall (fun row => List.length row = List.length tableHead)
       (tableData L summary)
  /\ nth_error (tableData L summary) i
     = match nth_error (rs_rides summary) i with
       | Some ride => Some (tableRow L i ride)
       | None =>
           if (i =? List.length (rs_rides summary))%nat
           then Some (grandTotalRow summary) else None
       end
  /\ (forall ride,
         hd_error (tableRow L i ride) = Some (decimalOfN (N.of_nat (i + 1))))
  /\ List.length (csvRows L summary) = S (List.length (rs_rides summary))
  /\ Forall (fun row => List.length row = List.length csvHeaders)
       (csvRows L summary)
  /\ nth_error (csvRows L summary) i
     = match nth_error (rs_rides summary) i with
       | Some ride => Some (csvRow L ride)
       | None =>
           if (i =? List.length (rs_rides summary))%nat
           then Some (csvTotalRow summary) else None
       end.
Proof.
  unfold tableData, csvRows.
  split; [rewrite length_app, mapIndexed_length; cbn; lia|].
  split.
  { apply Forall_app. split.
    - apply mapIndexed_Forall. reflexivity.
    - constructor; [reflexivity | constructor]. }
  split.
  { destruct (nth_error (rs_rides summary) i) as [ride|] eqn:E.
    - rewrite nth_error_app1
        by (rewrite mapIndexed_length; apply nth_error_Some; congruence).
      now rewrite mapIndexed_nth, E.
    - apply nth_error_None in E.
      rewrite nth_error_app2 by (rewrite mapIndexed_length; exact E).
      rewrite mapIndexed_length.
      destruct (Nat.eqb_spec i (List.length (rs_rides summary))) as [->|Hne].
      + now rewrite Nat.sub_diag.
      + destruct (i - List.length (rs_rides summary))%nat as [|k] eqn:Ek;
          [lia|]. cbn [nth_error]. now destruct k. }
  split; [reflexivity|].
  split; [rewrite length_app, length_map; cbn; lia|].
  split.
  { apply Forall_app. split.
    - apply Forall_map, Forall_forall. reflexivity.
    - constructor; [reflexivity | constructor]. }
  destruct (nth_error (rs_rides summary) i) as [ride|] eqn:E.
  - rewrite nth_error_app1
      by (rewrite length_map; apply nth_error_Some; congruence).
    now rewrite nth_error_map, E.
  - apply nth_error_None in E.
    rewrite nth_error_app2 by (rewrite length_map; exact E).
    rewrite length_map.
    destruct (Nat.eqb_spec i (List.length (rs_rides summary))) as [->|Hne].
    + now rewrite Nat.sub_diag.
    + destruct (i - List.length (rs_rides summary))%nat as [|k] eqn:Ek;
        [lia|]. cbn [nth_error]. now destruct k.
Qed.

(* ===================================================================== *)
(** * Further properties: the receipt exports *)
(* ===================================================================== *)

(** X23. The export of the invoices alone. With valid credentials and a
    selection, one document is downloaded when at least one receipt was
    fetched: the pages of the fetched receipts that decode, in the order
    of the selection, with no cover (an empty document when none of them
    decodes). When no receipt was fetched nothing is downloaded. The font
    is never loaded. *)
Theorem invoices_export (L : Libs) (w : World) (auth : UberAuthCredentials)
  (summary : Summary) (st : ST) :
  truthy (cookie auth) && truthy (csrfToken auth) = true ->
  selectedCount summary <> 0%nat ->
  rides summary <> [] ->
  exists entries st1 st',
    fetchMultipleReceiptPdfs w auth (tripRefs summary) st = (Ok entries, st1)
    /\ map pe_rideId entries = map rideId (rides summary)
    /\ handleDownloadInvoices L w (Some auth) summary st = (Ok tt, st')
    /\ downloads (trace st')
       = downloads (trace st)
         ++ match validPdfsOf entries with
            | [] => []
            | valid => [inl (pdfSave L (pagesOf L valid))]
            end
    /\ cachedFontBytes st' = cachedFontBytes st.
Proof.
  intros Hauth Hsel Hrides.
  assert (Hne : tripRefs summary <> []).
  { unfold tripRefs. destruct (rides summary); [contradiction|discriminate]. }
  destruct (fetchMultipleReceiptPdfs_entries w auth (tripRefs summary) st
              Hauth Hne) as [entries [st1 [Hrun [Hall Hfont]]]].
  pose proof (fetchMultipleReceiptPdfs_downloads w auth (tripRefs summary) st)
    as Hdl.
  rewrite Hrun in Hdl. cbn [snd] in Hdl.
  exists entries, st1.
  assert (Hids : map pe_rideId entries = map rideId (rides summary)).
  { clear - Hall. unfold tripRefs in Hall.
    remember (map _ (rides summary)) as trips eqn:E.
    revert E. generalize (rides summary).
    induction Hall as [|t e trips entries [Hid _] _ IH]; intros l E.
    - destruct l; [reflexivity | discriminate].
    - destruct l as [|r l]; [discriminate|]. cbn [map] in *.
      injection E as -> E. rewrite Hid. cbn [tr_tripUUID].
      f_equal. now apply IH. }
  unfold handleDownloadInvoices.
  apply Nat.eqb_neq in Hsel. rewrite Hsel.
  unfold tryCatch, bind at 1. rewrite Hrun.
  destruct (validPdfsOf entries) as [|d valid] eqn:Ev.
  - eexists. split; [reflexivity|]. split; [exact Hids|].
    split; [reflexivity|].
    unfold consoleLog, emit. cbn [snd trace cachedFontBytes].
    rewrite downloads_app, Hdl. cbn. now rewrite !app_nil_r.
  - unfold bind at 1. rewrite appendReceipts_run.
    unfold bind, datedName, dateNow, downloadBlob, emit, ret.
    cbn [clock trace cachedFontBytes].
    eexists. split; [reflexivity|]. split; [exact Hids|].
    split; [reflexivity|].
    cbn [trace cachedFontBytes app].
    rewrite !downloads_app, downloads_mergeFailures, Hdl.
    cbn. now rewrite app_nil_r.
Qed.

Lemma invoices_export_witness :
  truthy (cookie sampleAuth) && truthy (csrfToken sampleAuth) = true
  /\ selectedCount scenarioSummary <> 0%nat
  /\ rides scenarioSummary <> []
  /\ exists st',
      handleDownloadInvoices sampleLibs sampleWorld (Some sampleAuth)
        scenarioSummary st0 = (Ok tt, st')
      /\ List.length (downloads (trace st')) = 1%nat.
Proof.
  assert (Hsel : selectedCount scenarioSummary <> 0%nat) by discriminate.
  assert (Hr : rides scenarioSummary <> []) by discriminate.
  split; [reflexivity|]. split; [exact Hsel|]. split; [exact Hr|].
  destruct (invoices_export sampleLibs sampleWorld sampleAuth scenarioSummary
              st0 eq_refl Hsel Hr)
    as [entries [st1 [st' [Hrun [_ [Hh [Hdl _]]]]]]].
  exists st'. split; [exact Hh|]. rewrite Hdl.
  vm_compute in Hrun. injection Hrun as <- _. reflexivity.
Defined.

(** X24. The full report needs the font. With valid credentials and a
    selection, when the font is neither cached nor served, the report is
    not downloaded, whatever receipts were fetched: the failure is caught
    and written to the console, and the handler returns normally. *)
Theorem report_needs_the_font (L : Libs) (w : World)
  (auth : UberAuthCredentials) (summary : Summary)
  (user : option UberCurrentUser) (st : ST) :
  truthy (cookie auth) && truthy (csrfToken auth) = true ->
  selectedCount summary <> 0%nat ->
  rides summary <> [] ->
  cachedFontBytes st = None ->
  match fetchAnswer w fontUrl with Ok (inl _) => false | _ => true end
  = true ->
  exists entries st1 st',
    fetchMultipleReceiptPdfs w auth (tripRefs summary) st = (Ok entries, st1)
    /\ handleDownloadReport L w (Some auth) summary user st = (Ok tt, st')
    /\ downloads (trace st') = downloads (trace st)
    /\ cachedFontBytes st' = None
    /\ last (trace st') (EvConsole [])
       = EvConsole match validPdfsOf entries with
                   | [] => js "No PDFs were successfully fetched"
                   | _ => js "Failed to download receipts:"
                   end.
Proof.
  intros Hauth Hsel Hrides Hcache Hfont.
  assert (Hne : tripRefs summary <> []).
  { unfold tripRefs. destruct (rides summary); [contradiction|discriminate]. }
  destruct (fetchMultipleReceiptPdfs_entries w auth (tripRefs summary) st
              Hauth Hne) as [entries [st1 [Hrun [_ Hfont1]]]].
  pose proof (fetchMultipleReceiptPdfs_downloads w auth (tripRefs summary) st)
    as Hdl.
  rewrite Hrun in Hdl. cbn [snd] in Hdl.
  exists entries, st1.
  unfold handleDownloadReport.
  apply Nat.eqb_neq in Hsel. rewrite Hsel.
  unfold tryCatch, bind at 1. rewrite Hrun.
  destruct (validPdfsOf entries) as [|d valid] eqn:Ev.
  - eexists. split; [reflexivity|]. split; [reflexivity|].
    unfold consoleLog, emit. cbn [snd trace cachedFontBytes].
    rewrite downloads_app, Hdl, Hfont1, Hcache, last_last.
    cbn [downloads flat_map app]. rewrite app_nil_r. auto.
  - unfold bind at 1. unfold generateSummaryPdf, bind at 1.
    unfold loadGoogleSansFont. rewrite Hfont1, Hcache.
    unfold request.
    destruct (fetchAnswer w fontUrl) as [[body|status]|e];
      [discriminate| |];
      (eexists; split; [reflexivity|]); (split; [reflexivity|]);
      unfold consoleLog, emit; cbn [snd trace cachedFontBytes];
      rewrite !downloads_app, Hdl, Hfont1, Hcache, last_last;
      cbn [downloads flat_map app]; rewrite !app_nil_r; auto.
Qed.

Lemma report_needs_the_font_witness :
  truthy (cookie sampleAuth) && truthy (csrfToken sampleAuth) = true
  /\ selectedCount scenarioSummary <> 0%nat
  /\ rides scenarioSummary <> []
  /\ cachedFontBytes st0 = None
  /\ exists st',
      handleDownloadReport sampleLibs noFontWorld (Some sampleAuth)
        scenarioSummary None st0 = (Ok tt, st')
      /\ downloads (trace st') = []
      /\ last (trace st') (EvConsole [])
         = EvConsole (js "Failed to download receipts:").
Proof.
  assert (Hsel : selectedCount scenarioSummary <> 0%nat) by discriminate.
  assert (Hr : rides scenarioSummary <> []) by discriminate.
  split; [reflexivity|]. split; [exact Hsel|]. split; [exact Hr|].
  split; [reflexivity|].
  destruct (report_needs_the_font sampleLibs noFontWorld sampleAuth
              scenarioSummary None st0 eq_refl Hsel Hr eq_refl eq_refl)
    as [entries [st1 [st' [Hrun [Hh [Hdl [_ Hlast]]]]]]].
  exists st'. split; [exact Hh|]. split; [exact Hdl|].
  rewrite Hlast. vm_compute in Hrun. injection Hrun as <- _. reflexivity.
Defined.

(* ===================================================================== *)
(** * Further properties: reading a CSV row back *)
(* ===================================================================== *)

Lemma isDigit_plainChar (c : N) : isDigit c = true -> plainChar c = true.
Proof.
  unfold isDigit, plainChar, unit_eqb, COMMA. intros H.
  apply andb_prop in H as [H1 H2].
  apply N.leb_le in H1. apply N.leb_le in H2.
  destruct (N.eqb_spec c 44); [lia|]. destruct (N.eqb_spec c 34); [lia|].
  reflexivity.
Qed.

Lemma digits_of_uint_plain (d : Decimal.uint) :
  plain (digits_of_uint d) = true.
Proof.
  unfold plain. induction d; cbn [digits_of_uint forallb]; auto.
Qed.

Lemma decimalOfZ_plain (z : Z) : plain (decimalOfZ z) = true.
Proof.
  destruct z; [reflexivity | apply digits_of_uint_plain |].
  unfold decimalOfZ, plain. change (js "-") with [45%N].
  cbn [app forallb]. apply digits_of_uint_plain.
Qed.

Lemma firstn_forallb (P : N -> bool) (n : nat) (s : jsstring) :
  forallb P s = true -> forallb P (firstn n s) = true.
Proof.
  revert s. induction n as [|n IH]; intros [|c t] H; try reflexivity.
  cbn [firstn forallb] in *. apply andb_prop in H as [H1 H2].
  now rewrite H1, IH.
Qed.

Lemma repeat_forallb (P : N -> bool) (c : N) (n : nat) :
  P c = true -> forallb P (repeat c n) = true.
Proof.
  intros H. induction n as [|n IH]; [reflexivity|].
  cbn [repeat forallb]. now rewrite H.
Qed.

Lemma fixed2OfN_plain (n : N) : plain (fixed2OfN n) = true.
Proof.
  unfold fixed2OfN, plain. change (js ".") with [46%N].
  assert (H : forallb plainChar
                (repeat 48%N (3 - List.length (decimalOfN n)) ++ decimalOfN n)
              = true).
  { rewrite forallb_app, repeat_forallb by reflexivity.
    apply digits_of_uint_plain. }
  rewrite forallb_app, firstn_forallb by exact H.
  cbn [app forallb]. now apply skipn_forallb.
Qed.

Lemma exponentNotation_plain (x : number) (v : Z) :
  plain (exponentNotation x v) = true.
Proof.
  unfold exponentNotation.
  destruct (shortestDigits 17 x v _ 1) as [s n'].
  pose proof (decimalOfZ_plain s) as Hs.
  pose proof (decimalOfZ_plain (n' - 1)) as He.
  unfold plain in *. change (js "e+") with [101%N; 43%N].
  change (js ".") with [46%N].
  destruct (decimalOfZ s) as [|d [|d' ds]]; [reflexivity| |].
  - cbn [forallb app] in *. apply andb_prop in Hs as [Hd _].
    now rewrite Hd, He.
  - cbn [forallb app] in *. apply andb_prop in Hs as [Hd Hs].
    apply andb_prop in Hs as [Hd' Hs].
    rewrite Hd, Hd', forallb_app, Hs. cbn [forallb]. now rewrite He.
Qed.

Lemma toFixed2_plain (x : number) : plain (toFixed2 x) = true.
Proof.
  destruct x as [sg|sg| |sg m e]; try reflexivity.
  - destruct sg; reflexivity.
  - unfold toFixed2.
    assert (H : plain (if (0 <=? e) && (10 ^ 21 <=? Z.pos m * 2 ^ e)
                       then exponentNotation (S754_finite false m e)
                              (Z.pos m * 2 ^ e)
                       else fixed2OfN (hundredths m e)) = true).
    { destruct ((0 <=? e) && (10 ^ 21 <=? Z.pos m * 2 ^ e));
        [apply exponentNotation_plain | apply fixed2OfN_plain]. }
    destruct sg; [|exact H].
    unfold plain in *. change (js "-") with [45%N].
    cbn [app forallb]. exact H.
Qed.

Lemma readQuoted_quoted (field rest : jsstring) :
  match rest with d :: _ => unit_eqb d 34 = false | [] => True end ->
  readQuoted (replaceAllUnit 34 [34%N; 34%N] field ++ 34%N :: rest)
  = Some (field, rest).
Proof.
  intros Hrest. induction field as [|c t IH].
  - cbn [replaceAllUnit app readQuoted]. rewrite unit_eqb_refl.
    destruct rest as [|d r]; [reflexivity|]. now rewrite Hrest.
  - cbn [replaceAllUnit]. destruct (unit_eqb c 34) eqn:E.
    + apply unit_eqb_eq in E. subst c.
      cbn [app readQuoted]. rewrite unit_eqb_refl, IH. reflexivity.
    + cbn [app readQuoted]. rewrite E, IH. reflexivity.
Qed.

Lemma span_until (p : N -> bool) (v rest : jsstring) :
  forallb p v = true ->
  match rest with c :: _ => p c = false | [] => True end ->
  span p (v ++ rest) = (v, rest).
Proof.
  intros Hv Hrest. induction v as [|c t IH].
  - cbn [app]. destruct rest as [|d r]; [reflexivity|].
    cbn [span]. now rewrite Hrest.
  - cbn [forallb] in Hv. apply andb_prop in Hv as [Hc Ht].
    cbn [app span]. now rewrite Hc, (IH Ht).
Qed.

(** What is written for a value: the value itself, or the value quoted. *)
Lemma parseFields_field (fuel : nat) (quoted : bool) (v rest : jsstring) :
  quoted = true \/ plain v = true ->
  match rest with c :: _ => unit_eqb c COMMA = true | [] => True end ->
  parseFields (S fuel) ((if quoted then csvQuote v else v) ++ rest)
  = match rest with
    | [] => Some [v]
    | _ :: rest' =>
        match parseFields fuel rest' with
        | Some fields => Some (v :: fields)
        | None => None
        end
    end.
Proof.
  intros Hok Hrest.
  assert (Hq : match rest with d :: _ => unit_eqb d 34 = false | [] => True
               end).
  { destruct rest as [|d r]; [exact I|].
    apply unit_eqb_eq in Hrest. now subst d. }
  assert (Hc : match rest with c :: _ => notComma c = false | [] => True
               end).
  { destruct rest as [|d r]; [exact I|]. unfold notComma. now rewrite Hrest. }
  destruct quoted.
  - unfold csvQuote. cbn [app parseFields]. rewrite unit_eqb_refl.
    rewrite <- app_assoc. cbn [app].
    rewrite (readQuoted_quoted v rest Hq).
    destruct rest as [|d r]; [reflexivity|]. now rewrite Hrest.
  - destruct Hok as [Hok|Hv]; [discriminate|].
    assert (Hn : forallb notComma v = true).
    { revert Hv. apply forallb_weaken. intros c Hc'.
      unfold plainChar in Hc'. now apply andb_prop in Hc'. }
    pose proof (span_until notComma v rest Hn Hc) as Hspan.
    destruct (v ++ rest) as [|c t] eqn:Es.
    + apply app_eq_nil in Es as [-> ->]. reflexivity.
    + cbn [parseFields].
      assert (E34 : unit_eqb c 34 = false).
      { destruct v as [|c0 v'].
        - cbn [app] in Es. subst rest. exact Hq.
        - cbn [app] in Es. injection Es as <- _.
          unfold plain in Hv. cbn [forallb] in Hv.
          apply andb_prop in Hv as [Hv _]. unfold plainChar in Hv.
          apply andb_prop in Hv as [_ Hv]. now apply negb_true_iff in Hv. }
      rewrite E34, Hspan.
      destruct rest as [|d r]; [reflexivity|]. now rewrite Hrest.
Qed.

Lemma parseFields_cells (cells : list (bool * jsstring)) :
  cells <> [] ->
  Forall (fun cell => fst cell = true \/ plain (snd cell) = true) cells ->
  forall fuel,
    (List.length cells <= fuel)%nat ->
    parseFields fuel
      (join (js ",") (map writtenCell cells))
    = Some (map snd cells).
Proof.
  intros Hne Hall. induction Hall as [|[q v] cs Hok _ IH]; [contradiction|].
  intros fuel Hfuel. destruct fuel as [|fuel]; [cbn in Hfuel; lia|].
  cbn [List.length] in Hfuel. cbn [fst snd] in Hok.
  destruct cs as [|c' cs'].
  - cbn [map join]. unfold writtenCell. cbn [fst snd].
    pose proof (parseFields_field fuel q v [] Hok I) as H.
    rewrite app_nil_r in H. exact H.
  - change (join (js ",") (map writtenCell ((q, v) :: c' :: cs')))
      with ((if q then csvQuote v else v)
            ++ COMMA :: join (js ",") (map writtenCell (c' :: cs'))).
    rewrite (parseFields_field fuel q v (COMMA :: _) Hok (unit_eqb_refl _)).
    rewrite (IH ltac:(discriminate) fuel) by (cbn [List.length] in *; lia).
    reflexivity.
Qed.

Lemma join_length_lower (parts : list jsstring) :
  (List.length parts <= S (List.length (join (js ",") parts)))%nat.
Proof.
  induction parts as [|p [|q rest] IH]; cbn [join List.length] in *;
    try lia.
  rewrite !length_app. change (List.length (js ",")) with 1%nat. lia.
Qed.

(** X25. A row of the CSV export reads back: when the ride identifier, the
    currency and the time stamps written by the date library hold neither a
    comma nor a quote, a reader of CSV lines finds exactly ten fields in
    the row, and they are the ride's own texts, whatever quotes, commas or
    line breaks the names and addresses contain. *)
Theorem csv_row_round_trip (L : Libs) (ride : RideData) :
  plain (rd_rideId ride) = true ->
  plain (rd_currency ride) = true ->
  (forall date, plain (toISOString L date) = true) ->
  parseLine (join (js ",") (csvRow L ride)) = Some (csvValues L ride)
  /\ List.length (csvValues L ride) = List.length csvHeaders.
Proof.
  intros Hid Hcur Hiso. split; [|reflexivity].
  set (start := match safeParseDate L (rd_startTime ride) with
                | Some d => toISOString L d
                | None => []
                end).
  set (stop := match safeParseDate L (rd_endTime ride) with
               | Some d => toISOString L d
               | None => []
               end).
  assert (Hstart : plain start = true).
  { unfold start. destruct (safeParseDate L (rd_startTime ride));
      [apply Hiso | reflexivity]. }
  assert (Hstop : plain stop = true).
  { unfold stop. destruct (safeParseDate L (rd_endTime ride));
      [apply Hiso | reflexivity]. }
  pose (cells :=
          [ (false, rd_rideId ride); (false, start); (false, stop);
            (true, rd_driverName ride); (true, rd_vehicleType ride);
            (true, rd_status ride); (true, rd_startLocation ride);
            (true, rd_endLocation ride);
            (false, toFixed2 (rd_totalAmount ride));
            (false, rd_currency ride) ]).
  change (csvRow L ride) with (map writtenCell cells).
  change (csvValues L ride) with (map snd cells).
  unfold parseLine. apply parseFields_cells.
  - discriminate.
  - unfold cells.
    repeat (constructor; [cbn [fst snd]; auto using toFixed2_plain|]).
    constructor.
  - rewrite <- (length_map writtenCell cells).
    apply join_length_lower.
Qed.

Lemma csv_row_round_trip_witness :
  plain (rd_rideId awkwardRide) = true
  /\ plain (rd_currency awkwardRide) = true
  /\ (forall date, plain (toISOString sampleLibs date) = true)
  /\ parseLine (join (js ",") (csvRow sampleLibs awkwardRide))
     = Some (csvValues sampleLibs awkwardRide)
  /\ nth_error (csvValues sampleLibs awkwardRide) 8 = Some (js "84.38").
Proof.
  assert (Hiso : forall date, plain (toISOString sampleLibs date) = true)
    by (intros date; reflexivity).
  split; [reflexivity|]. split; [reflexivity|]. split; [exact Hiso|].
  split; [|vm_compute; reflexivity].
  exact (proj1 (csv_row_round_trip sampleLibs awkwardRide
                  eq_refl eq_refl Hiso)).
Defined.
